(** * A hidden Markov model tagger with hard EM

    Shallow embedding of the notebook [Hidden_Markov_Model.ipynb]: the class
    [HMM] (index registries, supervised training, greedy and Viterbi
    decoding), [get_perplexity] and the hard-EM loop.

    Conventions.
    - Python exceptions are values of [exn]; a computation that may raise
      has type [res A].  [OutOfFuel] is not a Python exception: a [while]
      loop is modelled with a budget of iterations, and [OutOfFuel] marks
      a run that used it up.
    - Index numbers are [Z], as Python integers are; subscripting follows
      Python and NumPy (a negative index counts from the end, an index out
      of range raises [IndexError]).
    - A one-dimensional array is a list, a two-dimensional array the list
      of its rows.
    - Floating-point numbers are kept abstract behind the interface
      [Numeric]: the decoders only add and compare them, so what is proved
      about the decoders holds for any carrier.  The instance [xreal]
      (real numbers extended with the two infinities and NaN) idealises
      float64 by exact arithmetic and is used where values matter. *)

From Stdlib Require Import ZArith List Reals Lra Lia.
From stdpp Require Import base gmap strings list.

Open Scope Z_scope.

(** ** Exceptions *)

Inductive exn : Type :=
| IndexError
| KeyError
| ValueError
| ZeroDivisionError
| OutOfFuel.

Inductive res (A : Type) : Type :=
| Ok (a : A)
| Raise (e : exn).

Arguments Ok {A} a.
Arguments Raise {A} e.

Definition bind {A B : Type} (c : res A) (k : A -> res B) : res B :=
  match c with
  | Ok a => k a
  | Raise e => Raise e
  end.

Notation "x <- c ;; k" := (bind c (fun x => k))
  (at level 100, c at next level, right associativity).

(** A list comprehension or a [for] loop that builds a list: the first
    exception, left to right, escapes. *)
Fixpoint mapM {A B : Type} (f : A -> res B) (l : list A) : res (list B) :=
  match l with
  | [] => Ok []
  | x :: t => y <- f x ;; ys <- mapM f t ;; Ok (y :: ys)
  end.

(** A [for] loop that updates local state. *)
Fixpoint foldM {A S : Type} (f : S -> A -> res S) (l : list A) (s : S) : res S :=
  match l with
  | [] => Ok s
  | x :: t => s' <- f s x ;; foldM f t s'
  end.

(** [range(a, b)] for lengths [a] and [b]. *)
Definition range (a b : nat) : list Z := map Z.of_nat (seq a (b - a)).

(** [enumerate(l)], counting from [i]. *)
Fixpoint enumerate_from {A : Type} (i : Z) (l : list A) : list (Z * A) :=
  match l with
  | [] => []
  | x :: t => (i, x) :: enumerate_from (i + 1) t
  end.

Definition enumerate {A : Type} (l : list A) : list (Z * A) := enumerate_from 0 l.

(** ** Subscripting *)

(** The position an index [i] denotes in a sequence of length [n]. *)
Definition norm_index (n : nat) (i : Z) : res nat :=
  if decide (0 <= i < Z.of_nat n) then Ok (Z.to_nat i)
  else if decide (- Z.of_nat n <= i < 0) then Ok (Z.to_nat (Z.of_nat n + i))
  else Raise IndexError.

(** [l[i]] *)
Definition getitem {A : Type} (l : list A) (i : Z) : res A :=
  k <- norm_index (length l) i ;;
  match l !! k with
  | Some a => Ok a
  | None => Raise IndexError
  end.

(** [l[i] = v] *)
Definition setitem {A : Type} (l : list A) (i : Z) (v : A) : res (list A) :=
  k <- norm_index (length l) i ;;
  Ok (<[k:=v]> l).

(** [m[r, c]] *)
Definition getitem2 {A : Type} (m : list (list A)) (r c : Z) : res A :=
  row <- getitem m r ;; getitem row c.

(** [m[r, c] = v] *)
Definition setitem2 {A : Type} (m : list (list A)) (r c : Z) (v : A) : res (list (list A)) :=
  row <- getitem m r ;;
  row' <- setitem row c v ;;
  setitem m r row'.

(** [m[:, c]] *)
Definition getcol {A : Type} (m : list (list A)) (c : Z) : res (list A) :=
  mapM (fun row => getitem row c) m.

(** Broadcasting a one-dimensional array to length [n]. *)
Definition broadcast {A : Type} (n : nat) (v : list A) : res (list A) :=
  if decide (length v = n) then Ok v
  else match v with
       | [x] => Ok (replicate n x)
       | _ => Raise ValueError
       end.

(** The common length of two one-dimensional operands. *)
Definition broadcast_length {A B : Type} (u : list A) (v : list B) : nat :=
  if decide (length u = 1%nat) then length v else length u.

(** [m[:, c] = v] *)
Definition setcol {A : Type} (m : list (list A)) (c : Z) (v : list A) : res (list (list A)) :=
  v' <- broadcast (length m) v ;;
  mapM (fun '(row, x) => setitem row c x) (zip m v').

(** [m.T] for a matrix with [n] columns. *)
Fixpoint transpose {A : Type} (n : nat) (m : list (list A)) : list (list A) :=
  match m with
  | [] => replicate n []
  | row :: t => zip_with cons row (transpose n t)
  end.

(** [np.full((r, c), x)] *)
Definition np_full {A : Type} (r c : nat) (x : A) : list (list A) :=
  replicate r (replicate c x).

(** ** Numbers *)

Class Numeric (num : Type) : Type := {
  of_Z : Z -> num;
  inf : num;
  neg : num -> num;
  add : num -> num -> num;
  sub : num -> num -> num;
  mul : num -> num -> num;
  div : num -> num -> num;
  log2 : num -> num;
  exp2 : num -> num;
  leb : num -> num -> bool;
  ltb : num -> num -> bool;
  isnan : num -> bool
}.

Section Arrays.
Context {num : Type} `{Numeric num}.

(** [u + v] on one-dimensional arrays. *)
Definition np_add (u v : list num) : res (list num) :=
  let n := broadcast_length u v in
  u' <- broadcast n u ;;
  v' <- broadcast n v ;;
  Ok (zip_with add u' v').

(** [np.sum(v)].  NumPy adds in blocks, not strictly left to right; the
    order matters to the last bits of a float only, and not at all in the
    exact arithmetic of [xreal]. *)
Definition np_sum (v : list num) : num := fold_left add v (of_Z 0).

(** [np.maximum(a, b)]: the larger one, a NaN if there is one. *)
Definition maximum (a b : num) : num :=
  if leb b a || isnan a then a else b.

(** [np.max(v)]; on an empty array NumPy raises [ValueError]. *)
Definition np_max (v : list num) : res num :=
  match v with
  | [] => Raise ValueError
  | x :: t => Ok (fold_left maximum t x)
  end.

(** The scan of [np.argmax]: [mp] is the best value so far, found at
    [best]; [i] is the position of the head of [v].  The scan stops at
    the first NaN. *)
Fixpoint argmax_scan (v : list num) (i : Z) (mp : num) (best : Z) : Z :=
  match v with
  | [] => best
  | x :: t =>
      if negb (leb x mp)
      then if isnan x then i else argmax_scan t (i + 1) x i
      else argmax_scan t (i + 1) mp best
  end.

(** [np.argmax(v)] *)
Definition np_argmax (v : list num) : res Z :=
  match v with
  | [] => Raise ValueError
  | x :: t => Ok (if isnan x then 0 else argmax_scan t 1 x 0)
  end.
End Arrays.

(** ** The class [HMM] *)

(** Symbol used to replace unknown tokens in the input. *)
Definition UNK : string := "<UNK>".

(** [i2w] and [i2s] are the lists [emissions] and [states] themselves. *)
Record HMM (num : Type) : Type := {
  emissions : list string;
  states : list string;
  w2i : gmap string Z;
  s2i : gmap string Z;
  init_prob : list (list num);
  emission_prob : list (list num);
  transition_prob : list (list num)
}.

Arguments emissions {num} h.
Arguments states {num} h.
Arguments w2i {num} h.
Arguments s2i {num} h.
Arguments init_prob {num} h.
Arguments emission_prob {num} h.
Arguments transition_prob {num} h.

Definition i2w {num : Type} (h : HMM num) : list string := emissions h.
Definition i2s {num : Type} (h : HMM num) : list string := states h.

(** [{w: i for i, w in enumerate(l)}]: a later occurrence of a key
    replaces an earlier one. *)
Definition put (m : gmap string Z) (iw : Z * string) : gmap string Z :=
  <[iw.2 := iw.1]> m.

Definition index_of (l : list string) : gmap string Z :=
  fold_left put (enumerate l) ∅.

(** [d[k]] *)
Definition dict_get (d : gmap string Z) (k : string) : res Z :=
  match d !! k with
  | Some v => Ok v
  | None => Raise KeyError
  end.

(** The three tables while [train] works on them. *)
Record tables (num : Type) : Type := {
  t_init : list (list num);
  t_emission : list (list num);
  t_transition : list (list num)
}.

Arguments t_init {num} t.
Arguments t_emission {num} t.
Arguments t_transition {num} t.

(** The lengths of the rows of the three tables. *)
Definition tshape {num : Type} (t : tables num) : list nat * list nat * list nat :=
  (map length (t_init t), map length (t_emission t), map length (t_transition t)).

Section Model.
Context {num : Type} `{Numeric num}.

(** [np.zeros((r, c))] *)
Definition np_zeros (r c : nat) : list (list num) := np_full r c (of_Z 0).

(** [HMM.__init__] *)
Definition HMM_init (emissions0 states0 : list string) : HMM num :=
  let emissions := emissions0 ++ [UNK] in
  let states := states0 in
  let size_of_state_set := length states in
  let size_of_vocabulary := length emissions in
  {| emissions := emissions;
     states := states;
     w2i := index_of emissions;
     s2i := index_of states;
     init_prob := np_zeros 1 size_of_state_set;
     emission_prob := np_zeros size_of_state_set size_of_vocabulary;
     transition_prob := np_zeros size_of_state_set size_of_state_set |}.

(** [w = w if w in self.w2i else UNK; self.w2i[w]] *)
Definition encode_word (h : HMM num) (w : string) : res Z :=
  let w' := match w2i h !! w with Some _ => w | None => UNK end in
  dict_get (w2i h) w'.

(** [data[0][0]], which [data2i] inspects to choose its branch.  Here
    the type of the corpus chooses the branch ([data2i_words] or
    [data2i_pairs]); the subscript can still raise. *)
Definition first_item {A : Type} (data : list (list A)) : res A :=
  ex <- getitem data 0 ;; getitem ex 0.

(** [HMM.data2i] on sentences of words. *)
Definition data2i_words (h : HMM num) (data : list (list string)) : res (list (list Z)) :=
  _ <- first_item data ;;
  mapM (fun ex => mapM (encode_word h) ex) data.

(** [HMM.data2i] on sentences of word-state pairs. *)
Definition data2i_pairs (h : HMM num) (data : list (list (string * string)))
  : res (list (list (Z * Z))) :=
  _ <- first_item data ;;
  mapM (fun ex =>
          mapM (fun ws => wi <- encode_word h ws.1 ;;
                          si <- dict_get (s2i h) ws.2 ;;
                          Ok (wi, si)) ex) data.

(** *** Training *)

(** [m[r][c] += 1] *)
Definition incr (m : list (list num)) (r c : Z) : res (list (list num)) :=
  v <- getitem2 m r c ;;
  setitem2 m r c (add v (of_Z 1)).

(** The body of the inner loop of [train]; [flag] is the previous state
    of the sentence, [-1] at its start. *)
Definition train_step (st : tables num * Z) (ws : Z * Z) : res (tables num * Z) :=
  let (t, flag) := st in
  let (word, state) := ws in
  em <- incr (t_emission t) state word ;;
  let t := {| t_init := t_init t; t_emission := em; t_transition := t_transition t |} in
  st1 <- (if decide (flag <> -1)
          then tr <- incr (t_transition t) flag state ;;
               Ok ({| t_init := t_init t; t_emission := t_emission t; t_transition := tr |},
                   state)
          else Ok (t, flag)) ;;
  let (t, flag) := st1 : tables num * Z in
  if decide (flag = -1)
  then ini <- incr (t_init t) 0 state ;;
       Ok ({| t_init := ini; t_emission := t_emission t; t_transition := t_transition t |},
           state)
  else Ok (t, flag).

(** The body of the outer loop of [train]. *)
Definition train_sentence (t : tables num) (sentence : list (Z * Z)) : res (tables num) :=
  st <- foldM train_step sentence (t, -1) ;;
  Ok st.1.

(** [m[:] = 0] *)
Definition fill_zero (m : list (list num)) : list (list num) :=
  map (map (fun _ => of_Z 0)) m.

(** [m + 1] *)
Definition add_one (m : list (list num)) : list (list num) :=
  map (map (fun x => add x (of_Z 1))) m.

(** [np.log2(v / s)] for a one-dimensional [v] and a scalar [s]. *)
Definition log2_div (v : list num) (s : num) : list num :=
  map (fun x => log2 (div x s)) v.

(** The loop [for i in range(0, len(m)): m[i] = np.log2(m[i] / np.sum(m[i]))]. *)
Definition normalize_rows (m : list (list num)) : res (list (list num)) :=
  foldM (fun m i => row <- getitem m i ;;
                    setitem m i (log2_div row (np_sum row)))
        (range 0 (length m)) m.

(** [HMM.train] *)
Definition train (h : HMM num) (data : list (list (string * string))) : res (HMM num) :=
  let t0 := {| t_init := fill_zero (init_prob h);
               t_emission := fill_zero (emission_prob h);
               t_transition := fill_zero (transition_prob h) |} in
  idx <- data2i_pairs h data ;;
  t <- foldM train_sentence idx t0 ;;
  let ini := add_one (t_init t) in
  let ini := map (fun row => log2_div row (np_sum (concat ini))) ini in
  let em := add_one (t_emission t) in
  let tr := add_one (t_transition t) in
  em <- normalize_rows em ;;
  tr <- normalize_rows tr ;;
  Ok {| emissions := emissions h;
        states := states h;
        w2i := w2i h;
        s2i := s2i h;
        init_prob := ini;
        emission_prob := em;
        transition_prob := tr |}.

End Model.

(** ** Decoding *)

Section Decoders.
Context {num : Type} `{Numeric num}.

(** [[(self.i2w[w], self.i2s[s]) for w, s in zip(ex, output)]] *)
Definition tag_output (h : HMM num) (ex output : list Z) : res (list (string * string)) :=
  mapM (fun ws => w <- getitem (i2w h) ws.1 ;;
                  s <- getitem (i2s h) ws.2 ;;
                  Ok (w, s)) (zip ex output).

(** [state_distr += v.reshape(1, -1)]: the sum is stored in place, so it
    has to fit the shape of [state_distr]. *)
Definition iadd_rows (m : list (list num)) (v : list num) : res (list (list num)) :=
  mapM (fun row => v' <- broadcast (length row) v ;; Ok (zip_with add row v')) m.

(** The body of the loop of [greedy_decode]. *)
Definition greedy_step (h : HMM num) (st : list (list num) * list Z * num) (w : Z)
  : res (list (list num) * list Z * num) :=
  let '(state_distr, output, _) := st in
  e <- getcol (emission_prob h) w ;;
  state_distr <- iadd_rows state_distr e ;;
  a <- np_argmax (concat state_distr) ;;
  let output := output ++ [a] in
  log_prob <- np_max (concat state_distr) ;;
  last <- getitem output (-1) ;;
  row <- getitem (transition_prob h) last ;;
  let state_distr := [map (fun x => add log_prob x) row] in
  Ok (state_distr, output, log_prob).

(** [HMM.greedy_decode] *)
Definition greedy_decode (h : HMM num) (ex : list string)
  : res (list (string * string) * num) :=
  idx <- data2i_words h [ex] ;;
  ex <- getitem idx 0 ;;
  st <- foldM (greedy_step h) ex (init_prob h, [], of_Z 0) ;;
  let '(_, output, log_prob) := st in
  tagged <- tag_output h ex output ;;
  Ok (tagged, log_prob).

(** The loop of [extract_output].  [reads] is ghost state: the subscripts
    (row, column) at which [back_pointers] has been read so far.  The loop
    runs while [len(output) < len(ex)]; [fuel] bounds its iterations. *)
Fixpoint extract_loop (fuel : nat) (back_pointers : list (list Z)) (ex output : list Z)
  (reads : list (Z * Z)) : res (list Z * list (Z * Z)) :=
  if decide (length output < length ex)%nat
  then match fuel with
       | O => Raise OutOfFuel
       | S fuel =>
           last <- getitem output (-1) ;;
           let col := Z.of_nat (length ex) - Z.of_nat (length output) in
           p <- getitem2 back_pointers last col ;;
           extract_loop fuel back_pointers ex (output ++ [p]) (reads ++ [(last, col)])
       end
  else Ok (output, reads).

(** The state sequence [extract_output] recovers, before its reversal,
    with the subscripts read from [back_pointers]. *)
Definition extract_path (trellis : list (list num)) (back_pointers : list (list Z))
  (ex : list Z) : res (list Z * list (Z * Z)) :=
  last_col <- getcol trellis (-1) ;;
  a <- np_argmax last_col ;;
  extract_loop (length ex) back_pointers ex [a] [].

(** [HMM.extract_output] *)
Definition extract_output (h : HMM num) (trellis : list (list num))
  (back_pointers : list (list Z)) (ex : list Z) : res (list (string * string) * num) :=
  last_col <- getcol trellis (-1) ;;
  log_prob <- np_max last_col ;;
  p <- extract_path trellis back_pointers ex ;;
  let output := rev p.1 in
  tagged <- tag_output h ex output ;;
  Ok (tagged, log_prob).

(** What both Viterbi decoders do before their loop: the two matrices,
    with the first column of the trellis filled in. *)
Definition viterbi_start (h : HMM num) (ex : list Z)
  : res (list (list num) * list (list Z)) :=
  let trellis := np_full (length (states h)) (length ex) (neg inf) in
  let back_pointers := np_full (length (states h)) (length ex) (-1) in
  ini <- getitem (init_prob h) 0 ;;
  w <- getitem ex 0 ;;
  e <- getcol (emission_prob h) w ;;
  col <- np_add ini e ;;
  trellis <- setcol trellis 0 col ;;
  Ok (trellis, back_pointers).

(** The candidate [trellis[k,i-1] + transition_prob[k,j] + emission_prob[j,ex[i]]]. *)
Definition candidate (h : HMM num) (trellis : list (list num)) (ex : list Z) (i j k : Z)
  : res num :=
  a <- getitem2 trellis k (i - 1) ;;
  b <- getitem2 (transition_prob h) k j ;;
  w <- getitem ex i ;;
  c <- getitem2 (emission_prob h) j w ;;
  Ok (add (add a b) c).

(** The body of the loop over [j] of [viterbi_decode]. *)
Definition viterbi_cell (h : HMM num) (ex : list Z) (i : Z)
  (st : list (list num) * list (list Z)) (j : Z) : res (list (list num) * list (list Z)) :=
  let (trellis, back_pointers) := st in
  x <- mapM (candidate h trellis ex i j) (range 0 (length (states h))) ;;
  m <- np_max x ;;
  trellis <- setitem2 trellis j i m ;;
  a <- np_argmax x ;;
  back_pointers <- setitem2 back_pointers j i a ;;
  Ok (trellis, back_pointers).

(** The body of the loop over [i] of [viterbi_decode]. *)
Definition viterbi_column (h : HMM num) (ex : list Z)
  (st : list (list num) * list (list Z)) (i : Z) : res (list (list num) * list (list Z)) :=
  foldM (viterbi_cell h ex i) (range 0 (length (states h))) st.

(** The trellis and the back pointers [viterbi_decode] passes to
    [extract_output]. *)
Definition viterbi_fill (h : HMM num) (ex : list Z) : res (list (list num) * list (list Z)) :=
  st <- viterbi_start h ex ;;
  foldM (viterbi_column h ex) (range 1 (length ex)) st.

(** [HMM.viterbi_decode] *)
Definition viterbi_decode (h : HMM num) (ex : list string)
  : res (list (string * string) * num) :=
  idx <- data2i_words h [ex] ;;
  ex <- getitem idx 0 ;;
  st <- viterbi_fill h ex ;;
  extract_output h st.1 st.2 ex.

(** The number of columns of a matrix. *)
Definition ncols {A : Type} (m : list (list A)) : nat :=
  match m with
  | [] => 0%nat
  | row :: _ => length row
  end.

(** [v + m] for a one-dimensional [v]: [v] is added to every row. *)
Definition add_vec_mat (v : list num) (m : list (list num)) : res (list (list num)) :=
  mapM (fun row => np_add v row) m.

(** [m + e.reshape(-1, 1)]: [e[a]] is added to every entry of row [a]. *)
Definition add_mat_col (m : list (list num)) (e : list num) : res (list (list num)) :=
  let n := broadcast_length m e in
  m' <- broadcast n m ;;
  e' <- broadcast n e ;;
  Ok (zip_with (fun row x => map (fun y => add y x) row) m' e').

(** The body of the loop of [fast_viterbi_decode]. *)
Definition fast_viterbi_column (h : HMM num) (ex : list Z)
  (st : list (list num) * list (list Z)) (i : Z) : res (list (list num) * list (list Z)) :=
  let (trellis, back_pointers) := st in
  prev <- getcol trellis (i - 1) ;;
  p <- add_vec_mat prev (transpose (ncols (transition_prob h)) (transition_prob h)) ;;
  w <- getitem ex i ;;
  e <- getcol (emission_prob h) w ;;
  prob <- add_mat_col p e ;;
  mx <- mapM np_max prob ;;
  trellis <- setcol trellis i mx ;;
  am <- mapM np_argmax prob ;;
  back_pointers <- setcol back_pointers i am ;;
  Ok (trellis, back_pointers).

(** The trellis and the back pointers [fast_viterbi_decode] passes to
    [extract_output].  (The matrix [prob] the source allocates before the
    loop is overwritten before it is read.) *)
Definition fast_viterbi_fill (h : HMM num) (ex : list Z)
  : res (list (list num) * list (list Z)) :=
  st <- viterbi_start h ex ;;
  foldM (fast_viterbi_column h ex) (range 1 (length ex)) st.

(** [HMM.fast_viterbi_decode] *)
Definition fast_viterbi_decode (h : HMM num) (ex : list string)
  : res (list (string * string) * num) :=
  idx <- data2i_words h [ex] ;;
  ex <- getitem idx 0 ;;
  st <- fast_viterbi_fill h ex ;;
  extract_output h st.1 st.2 ex.

End Decoders.

(** ** Perplexity and hard EM *)

Section HardEM.
Context {num : Type} `{Numeric num}.

(** The body of the loop of [get_perplexity]. *)
Definition perplexity_step (sum_prob : num) (d : list (string * string) * num) : num :=
  add sum_prob (div d.2 (of_Z (Z.of_nat (length d.1)))).

(** [get_perplexity]: [len(data)] is a Python integer, so [-1/len(data)]
    raises on an empty collection. *)
Definition get_perplexity (data : list (list (string * string) * num)) : res num :=
  let sum_prob := fold_left perplexity_step data (of_Z 0) in
  if decide (length data = 0%nat) then Raise ZeroDivisionError
  else Ok (exp2 (mul (div (of_Z (-1)) (of_Z (Z.of_nat (length data)))) sum_prob)).

(** [PERPLEXITY_TH = 0.1] *)
Definition PERPLEXITY_TH : num := div (of_Z 1) (of_Z 10).

(** What the loop does, in order; ghost state, except that [Evaluated]
    carries the two numbers the loop prints. *)
Inductive event : Type :=
| Decoded
| Evaluated (new_perplexity delta : num)
| Retrained.

Record em_state : Type := {
  em_hmm : HMM num;
  old_perplexity : num;
  delta : num;
  em_log : list event
}.

(** The order in which [list(set(l))] lists the distinct elements of [l]
    is not fixed by Python; it is a parameter here. *)
Variable list_set : list string -> list string.

Variables (vocab : list string) (train_input test_input : list (list string)).

(** [[t for sent in new_train_set for w, t in sent]] *)
Definition tags_of (data : list (list (string * string))) : list string :=
  concat (map (map snd) data).

(** The body of the [while] loop of hard EM. *)
Definition em_body (st : em_state) : res em_state :=
  pred_train <- mapM (viterbi_decode (em_hmm st)) train_input ;;
  pred_test <- mapM (viterbi_decode (em_hmm st)) test_input ;;
  new_perplexity <- get_perplexity pred_test ;;
  let delta := sub (old_perplexity st) new_perplexity in
  let old_perplexity := new_perplexity in
  let new_train_set := map fst (pred_train ++ pred_test) in
  let new_tags := list_set (tags_of new_train_set) in
  hmm <- train (HMM_init vocab new_tags) new_train_set ;;
  Ok {| em_hmm := hmm;
        old_perplexity := old_perplexity;
        delta := delta;
        em_log := em_log st ++ [Decoded; Evaluated new_perplexity delta; Retrained] |}.

(** [while delta > PERPLEXITY_TH: ...] *)
Fixpoint em_loop (fuel : nat) (st : em_state) : res em_state :=
  if ltb PERPLEXITY_TH (delta st)
  then match fuel with
       | O => Raise OutOfFuel
       | S fuel => st' <- em_body st ;; em_loop fuel st'
       end
  else Ok st.

(** The hard-EM cell: the seed model, then the loop. *)
Definition hard_em (fuel : nat) (tags : list string)
  (mini_train_set : list (list (string * string))) : res em_state :=
  hmm <- train (HMM_init vocab tags) mini_train_set ;;
  em_loop fuel {| em_hmm := hmm; old_perplexity := inf; delta := inf; em_log := [] |}.

End HardEM.

(** ** Exact arithmetic with infinities and NaN *)

Inductive xreal : Type :=
| Fin (r : R)
| PInf
| NInf
| NaN.

Module X.

Definition neg (a : xreal) : xreal :=
  match a with
  | Fin r => Fin (- r)
  | PInf => NInf
  | NInf => PInf
  | NaN => NaN
  end.

Definition add (a b : xreal) : xreal :=
  match a, b with
  | Fin r, Fin s => Fin (r + s)
  | NaN, _ | _, NaN => NaN
  | PInf, NInf | NInf, PInf => NaN
  | PInf, _ | _, PInf => PInf
  | NInf, _ | _, NInf => NInf
  end.

Definition sub (a b : xreal) : xreal := add a (neg b).

(** An infinity with the sign of [r], NaN for zero. *)
Definition signed_inf (r : R) (pos : xreal) : xreal :=
  if Rlt_dec 0 r then pos
  else if Rlt_dec r 0 then neg pos
  else NaN.

Definition mul (a b : xreal) : xreal :=
  match a, b with
  | Fin r, Fin s => Fin (r * s)
  | NaN, _ | _, NaN => NaN
  | Fin r, PInf | PInf, Fin r => signed_inf r PInf
  | Fin r, NInf | NInf, Fin r => signed_inf r NInf
  | PInf, PInf | NInf, NInf => PInf
  | PInf, NInf | NInf, PInf => NaN
  end.

(** Division as NumPy does it: a division by zero gives an infinity or
    NaN. *)
Definition div (a b : xreal) : xreal :=
  match a, b with
  | Fin r, Fin s => if Req_dec_T s 0 then signed_inf r PInf else Fin (r / s)
  | NaN, _ | _, NaN => NaN
  | Fin _, _ => Fin 0
  | PInf, Fin s => if Rlt_dec s 0 then NInf else PInf
  | NInf, Fin s => if Rlt_dec s 0 then PInf else NInf
  | _, _ => NaN
  end.

Definition log2 (a : xreal) : xreal :=
  match a with
  | Fin r => if Rlt_dec 0 r then Fin (ln r / ln 2)
             else if Req_dec_T r 0 then NInf else NaN
  | PInf => PInf
  | _ => NaN
  end.

Definition exp2 (a : xreal) : xreal :=
  match a with
  | Fin r => Fin (Rpower 2 r)
  | PInf => PInf
  | NInf => Fin 0
  | NaN => NaN
  end.

Definition leb (a b : xreal) : bool :=
  match a, b with
  | NaN, _ | _, NaN => false
  | Fin r, Fin s => if Rle_dec r s then true else false
  | NInf, _ | _, PInf => true
  | _, _ => false
  end.

Definition ltb (a b : xreal) : bool :=
  match a, b with
  | NaN, _ | _, NaN => false
  | Fin r, Fin s => if Rlt_dec r s then true else false
  | PInf, _ | _, NInf => false
  | _, _ => true
  end.

Definition isnan (a : xreal) : bool :=
  match a with
  | NaN => true
  | _ => false
  end.

End X.

#[export] Instance xreal_numeric : Numeric xreal := {|
  of_Z := fun z => Fin (IZR z);
  inf := PInf;
  neg := X.neg;
  add := X.add;
  sub := X.sub;
  mul := X.mul;
  div := X.div;
  log2 := X.log2;
  exp2 := X.exp2;
  leb := X.leb;
  ltb := X.ltb;
  isnan := X.isnan
|}.

(** ** Well-formed models *)

(** A matrix with [r] rows and [c] columns. *)
Definition shaped {A : Type} (r c : nat) (m : list (list A)) : Prop :=
  length m = r /\ Forall (fun row => length row = c) m.

(** What [HMM.__init__] establishes and [HMM.train] keeps: the registries
    index the two lists, the unknown symbol is a word, and the tables have
    the sizes of the lists. *)
Record wf_hmm {num : Type} (h : HMM num) : Prop := {
  wf_w2i : w2i h = index_of (emissions h);
  wf_s2i : s2i h = index_of (states h);
  wf_unk : UNK ∈ emissions h;
  wf_init : shaped 1 (length (states h)) (init_prob h);
  wf_emission : shaped (length (states h)) (length (emissions h)) (emission_prob h);
  wf_transition : shaped (length (states h)) (length (states h)) (transition_prob h)
}.

(** A model that [train] has returned for some lists of words and tags
    and some tagged corpus. *)
Definition trained {num : Type} `{Numeric num} (h : HMM num) : Prop :=
  exists emissions0 states0 data, train (HMM_init emissions0 states0) data = Ok h.

(** The word an input word is shown as in the output of a decoder. *)
Definition shown {num : Type} (h : HMM num) (w : string) : string :=
  if decide (w ∈ emissions h) then w else UNK.

(** [s] is the index number of a state. *)
Definition valid_state {num : Type} (h : HMM num) (s : Z) : Prop :=
  0 <= s < Z.of_nat (length (states h)).

(** ** One column of the Viterbi recurrence, as a function

    The two decoders are compared through [column_spec], which gives the
    matrices after column [n] has been filled. *)

(** The entry of [m] in row [r] and column [c], [d] where there is none. *)
Definition cell {A : Type} (d : A) (m : list (list A)) (r c : nat) : A :=
  nth c (nth r m []) d.

(** Column [c] of [m]. *)
Definition column {A : Type} (d : A) (m : list (list A)) (c : nat) : list A :=
  map (fun row => nth c row d) m.

(** [m] with column [c] replaced by [v]. *)
Definition set_column {A : Type} (m : list (list A)) (c : nat) (v : list A)
  : list (list A) :=
  zip_with (fun row x => <[c:=x]> row) m v.

Section ColumnSpec.
Context {num : Type} `{Numeric num}.

(** The candidates for state [j] at position [n] of a sentence whose
    word there is [w], one for each previous state. *)
Definition cands (h : HMM num) (trellis : list (list num)) (n w j : nat) : list num :=
  map (fun k => add (add (cell (of_Z 0) trellis k (n - 1))
                         (cell (of_Z 0) (transition_prob h) k j))
                    (cell (of_Z 0) (emission_prob h) j w))
      (seq 0 (length (states h))).

(** [np.max] and [np.argmax] as total functions; they are only used on
    arrays that are not empty. *)
Definition max_of (x : list num) : num :=
  match x with
  | [] => of_Z 0
  | a :: t => fold_left maximum t a
  end.

Definition argmax_of (x : list num) : Z :=
  match x with
  | [] => 0
  | a :: t => if isnan a then 0 else argmax_scan t 1 a 0
  end.

(** The trellis and the back pointers after column [n] has been filled:
    row [j] gets the maximum of the candidates for state [j] and its
    position. *)
Definition column_spec (h : HMM num) (ex : list Z)
  (st : list (list num) * list (list Z)) (n : nat) : list (list num) * list (list Z) :=
  let w := Z.to_nat (nth n ex 0) in
  let xs := map (cands h st.1 n w) (seq 0 (length (states h))) in
  (set_column st.1 n (map max_of xs), set_column st.2 n (map argmax_of xs)).

(** The state both decoders reach after the columns below [n]: the
    matrices have their shape, and the back pointers of the columns from
    1 on are states. *)
Definition filled (h : HMM num) (ex : list Z) (n : nat)
  (st : list (list num) * list (list Z)) : Prop :=
  shaped (length (states h)) (length ex) st.1 /\
  shaped (length (states h)) (length ex) st.2 /\
  forall r c, (1 <= c < n)%nat -> (r < length (states h))%nat ->
    valid_state h (cell (-1) st.2 r c).

End ColumnSpec.

(** ** Values of the trained tables *)

(** What [train] does to one row of smoothed counts. *)
Definition normalize_row {num : Type} `{Numeric num} (row : list num) : list num :=
  log2_div row (np_sum row).

(** The logarithm to base 2 of a real number. *)
Definition log2R (x : R) : R := (ln x / ln 2)%R.

(** A count, as [train] holds it before and after smoothing. *)
Definition is_count (x : xreal) : Prop := exists n : nat, x = Fin (INR n).

(** A count that is at least 1. *)
Definition pos_count (x : xreal) : Prop :=
  exists n : nat, (1 <= n)%nat /\ x = Fin (INR n).

(** Neither an infinity nor NaN. *)
Definition finite (x : xreal) : Prop := exists r : R, x = Fin r.

(** The sum of a list of real numbers. *)
Definition Rsum (l : list R) : R := fold_right Rplus 0%R l.

(** The perplexity as the specification writes it:
    [2^(-(1/N) * sum_i logProb_i / |sentence_i|)]. *)
Definition perplexity_spec (data : list (list (string * string) * R)) : R :=
  Rpower 2 (- (1 / INR (length data)) *
            Rsum (map (fun d => d.2 / INR (length d.1)) data))%R.

(** All entries of the three tables are counts. *)
Definition tcounts (t : tables xreal) : Prop :=
  Forall (Forall is_count) (t_init t) /\
  Forall (Forall is_count) (t_emission t) /\
  Forall (Forall is_count) (t_transition t).

(** ** Finite scores *)

(** The matrices [viterbi_start] returns. *)
Definition start_spec {num : Type} `{Numeric num} (h : HMM num) (ex : list Z)
  : list (list num) * list (list Z) :=
  (set_column (np_full (length (states h)) (length ex) (neg inf)) 0
     (zip_with add (nth 0 (init_prob h) [])
        (column (of_Z 0) (emission_prob h) (Z.to_nat (nth 0 ex 0)))),
   np_full (length (states h)) (length ex) (-1)).

(** All entries are finite. *)
Definition fin_matrix (m : list (list xreal)) : Prop := Forall (Forall finite) m.

(** The columns below [n] of a trellis with [s] rows hold finite
    scores. *)
Definition fin_cols (s n : nat) (trellis : list (list xreal)) : Prop :=
  forall r c, (r < s)%nat -> (c < n)%nat -> finite (cell (of_Z 0) trellis r c).

(** ** Accuracy and the cells around the model *)

(** [np.array(u) == np.array(v)] for two lists of strings.  Arrays of the
    same length are compared entry by entry, and an array of length 1 is
    broadcast to the length of the other one.  For any other pair of
    lengths the comparison has no result: NumPy from 1.25 on raises
    [ValueError] here, as the model does; older versions return the
    scalar [False], and [accuracy] then fails at [.sum()]. *)
Definition np_equal (u v : list string) : res (list bool) :=
  let n := broadcast_length u v in
  u' <- broadcast n u ;;
  v' <- broadcast n v ;;
  Ok (zip_with (fun a b => bool_decide (a = b)) u' v').

(** [b.sum()] for an array of booleans. *)
Definition count_true (b : list bool) : Z :=
  fold_left (fun s (x : bool) => if x then s + 1 else s) b 0.

(** [accuracy]: the count is an integer, the quotient a float. *)
Definition accuracy {num : Type} `{Numeric num}
  (sys_data gold_data : list (list (string * string))) : res num :=
  let sys_tags := tags_of sys_data in
  let gold_tags := tags_of gold_data in
  eq <- np_equal sys_tags gold_tags ;;
  Ok (div (of_Z (100 * count_true eq)) (of_Z (Z.of_nat (length gold_tags)))).

Section Corpus.

(** [str.lower]; the case mapping of Unicode is not modelled. *)
Variable lower : string -> string.

(** [[(w.lower(), t) for (w, t) in sent]] *)
Definition lower_tagged (sent : list (string * string)) : list (string * string) :=
  map (fun wt => (lower wt.1, wt.2)) sent.

(** The split of the corpus: of every ten sentences, the ninth and the
    tenth go to the test set. *)
Definition test_set (tagged_sents : list (list (string * string)))
  : list (list (string * string)) :=
  map (fun isent => lower_tagged isent.2)
      (filter (fun isent : Z * list (string * string) =>
                 isent.1 mod 10 = 8 \/ isent.1 mod 10 = 9)
              (enumerate tagged_sents)).

Definition train_set (tagged_sents : list (list (string * string)))
  : list (list (string * string)) :=
  map (fun isent => lower_tagged isent.2)
      (filter (fun isent : Z * list (string * string) =>
                 isent.1 mod 10 <> 8 /\ isent.1 mod 10 <> 9)
              (enumerate tagged_sents)).

(** The same split of the untagged sentences [brown.sents()]. *)
Definition test_input (sents : list (list string)) : list (list string) :=
  map (fun isent => map lower isent.2)
      (filter (fun isent : Z * list string =>
                 isent.1 mod 10 = 8 \/ isent.1 mod 10 = 9)
              (enumerate sents)).

Definition train_input (sents : list (list string)) : list (list string) :=
  map (fun isent => map lower isent.2)
      (filter (fun isent : Z * list string =>
                 isent.1 mod 10 <> 8 /\ isent.1 mod 10 <> 9)
              (enumerate sents)).

End Corpus.

(** Rate at which examples are sampled from the training set into the
    small annotated training set. *)
Definition INV_TRAIN_SAMPLING_RATE : Z := 5000.

Definition mini_train_set (train_set : list (list (string * string)))
  : list (list (string * string)) :=
  map snd
      (filter (fun isent : Z * list (string * string) =>
                 isent.1 mod INV_TRAIN_SAMPLING_RATE = 0)
              (enumerate train_set)).

Section Cells.
Context {num : Type} `{Numeric num}.

(** [list(set(l))], as in hard EM. *)
Variable list_set : list string -> list string.

(** [vocab] and [tags] *)
Definition vocab (train_set test_set : list (list (string * string))) : list string :=
  list_set (concat (map (map fst) (train_set ++ test_set))).

Definition tags (mini_train_set : list (list (string * string))) : list string :=
  list_set (tags_of mini_train_set).

(** The cell of the supervised baseline, up to the two lists of
    predictions [preds_greedy] and [preds_viterbi]; the accuracies it
    prints are [accuracy] of each list against [test_set]. *)
Definition baseline (vocab tags : list string)
  (mini_train_set : list (list (string * string))) (test_input : list (list string))
  : res (list (list (string * string)) * list (list (string * string))) :=
  hmm <- train (HMM_init vocab tags) mini_train_set ;;
  preds <- mapM (fun sent => g <- greedy_decode hmm sent ;;
                             v <- fast_viterbi_decode hmm sent ;;
                             Ok (g.1, v.1)) test_input ;;
  Ok (map fst preds, map snd preds).

(** The last cell: the predictions [preds_viterbi] of the model hard EM
    has left. *)
Definition final_predictions (hmm : HMM num) (test_input : list (list string))
  : res (list (list (string * string))) :=
  mapM (fun sent => v <- viterbi_decode hmm sent ;; Ok v.1) test_input.

End Cells.

(** ** The score of a state sequence *)

Section Score.
Context {num : Type} `{Numeric num}.

(** The log-probability of a state sequence for a sequence of word
    numbers, added up from left to right in the order in which the
    decoders add it up: [init_prob[0, s] + emission_prob[s, w]] for the
    first position ([path_score]), and for every later one
    [+ transition_prob[prev, s] + emission_prob[s, w]] ([score_from]). *)
Fixpoint score_from (h : HMM num) (acc : num) (prev : Z) (ids path : list Z) : num :=
  match ids, path with
  | w :: ids, s :: path =>
      score_from h
        (add (add acc (cell (of_Z 0) (transition_prob h) (Z.to_nat prev) (Z.to_nat s)))
             (cell (of_Z 0) (emission_prob h) (Z.to_nat s) (Z.to_nat w)))
        s ids path
  | _, _ => acc
  end.

Definition path_score (h : HMM num) (ids path : list Z) : num :=
  match ids, path with
  | w :: ids, s :: path =>
      score_from h
        (add (cell (of_Z 0) (init_prob h) 0 (Z.to_nat s))
             (cell (of_Z 0) (emission_prob h) (Z.to_nat s) (Z.to_nat w)))
        s ids path
  | _, _ => of_Z 0
  end.

End Score.

(** The state sequence that is in state [r] at position [c] and follows
    the back pointers from there down to position 0. *)
Fixpoint backtrace (back_pointers : list (list Z)) (r : Z) (c : nat) : list Z :=
  match c with
  | O => [r]
  | S c' => backtrace back_pointers (cell (-1) back_pointers (Z.to_nat r) c) c' ++ [r]
  end.

(** The real number a finite value stands for. *)
Definition to_R (x : xreal) : R :=
  match x with
  | Fin r => r
  | _ => 0%R
  end.

(** ** The counting loop of [train] as a function *)

Section Counting.
Context {num : Type} `{Numeric num}.

(** [m[r][c] += 1] where row [r] and column [c] exist. *)
Definition bump (m : list (list num)) (r c : nat) : list (list num) :=
  <[r := <[c := add (cell (of_Z 0) m r c) (of_Z 1)]> (nth r m [])]> m.

(** What the body of the inner loop of [train] does for word number [w]
    and state number [s]: the first token of a sentence is counted in
    [init_prob], every later one in [transition_prob] after the state
    before it. *)
Definition count_token (st : tables num * Z) (w s : nat) : tables num * Z :=
  ({| t_init := if decide (st.2 = -1) then bump (t_init st.1) 0 s else t_init st.1;
      t_emission := bump (t_emission st.1) s w;
      t_transition := if decide (st.2 = -1) then t_transition st.1
                      else bump (t_transition st.1) (Z.to_nat st.2) s |},
   Z.of_nat s).

(** The three tables have the sizes of a model with [S] states and [V]
    words. *)
Definition tables_shaped (S V : nat) (t : tables num) : Prop :=
  shaped 1 S (t_init t) /\ shaped S V (t_emission t) /\ shaped S S (t_transition t).

End Counting.

Section CountingCorpus.
Context {num : Type} `{Numeric num}.

(** The counting loop of [train] over one encoded sentence and over an
    encoded corpus, where no subscript is out of range. *)
Definition count_sentence (t : tables num) (sentence : list (Z * Z)) : tables num :=
  (fold_left (fun st ws => count_token st (Z.to_nat ws.1) (Z.to_nat ws.2))
             sentence (t, -1)).1.

Definition count_corpus (t : tables num) (idx : list (list (Z * Z))) : tables num :=
  fold_left count_sentence idx t.

(** The number of a word and of a state, 0 where [data2i] raises. *)
Definition word_id (h : HMM num) (w : string) : Z :=
  match encode_word h w with
  | Ok i => i
  | Raise _ => 0
  end.

Definition state_id (h : HMM num) (s : string) : Z :=
  match dict_get (s2i h) s with
  | Ok j => j
  | Raise _ => 0
  end.

(** An encoded token of a model with [S] states and [V] words. *)
Definition valid_token (S V : nat) (ws : Z * Z) : Prop :=
  0 <= ws.1 < Z.of_nat V /\ 0 <= ws.2 < Z.of_nat S.

End CountingCorpus.

(** ** The counts behind the trained tables *)

(** How many entries of [l] satisfy [P]. *)
Definition count {A : Type} (P : A -> Prop) `{forall x, Decision (P x)} (l : list A) : nat :=
  length (filter P l).

(** A table is counted up by a list of events (row, column). *)
Definition bump_all {num : Type} `{Numeric num} (m : list (list num))
  (events : list (nat * nat)) : list (list num) :=
  fold_left (fun m e => bump m e.1 e.2) events m.

(** The events of an encoded sentence for each of the three tables: a
    token counts its word under its state; the first token counts the
    state it starts with; every later token counts its state after the
    state before it ([prev] is the state before the sentence, if there is
    one). *)
Definition emission_events (sentence : list (Z * Z)) : list (nat * nat) :=
  map (fun ws => (Z.to_nat ws.2, Z.to_nat ws.1)) sentence.

Definition init_events (sentence : list (Z * Z)) : list (nat * nat) :=
  match sentence with
  | [] => []
  | ws :: _ => [(0%nat, Z.to_nat ws.2)]
  end.

Definition transition_events (prev : list nat) (sentence : list (Z * Z)) : list (nat * nat) :=
  let ss := map (fun ws => Z.to_nat ws.2) sentence in
  zip (prev ++ ss) (match prev with [] => tail ss | _ => ss end).

(** The adjacent pairs of tags of a sentence. *)
Definition tag_pairs (sent : list (string * string)) : list (string * string) :=
  let ts := map snd sent in zip ts (tail ts).

(** The counts of a tagged corpus that [train] turns into log-probabilities:
    tag [s] on a word shown as [w]; tag [s]; tag [b] right after tag [a];
    tag [a] on a word that is not the last one of its sentence; sentences
    that start with tag [s]; sentences that are not empty. *)
Definition n_emit {num : Type} (h : HMM num) (data : list (list (string * string)))
  (s w : string) : nat :=
  count (fun wt => wt.2 = s /\ shown h wt.1 = w) (concat data).

Definition n_tag (data : list (list (string * string))) (s : string) : nat :=
  count (fun wt => wt.2 = s) (concat data).

Definition n_next (data : list (list (string * string))) (a b : string) : nat :=
  count (fun p => p = (a, b)) (concat (map tag_pairs data)).

Definition n_prev (data : list (list (string * string))) (a : string) : nat :=
  count (fun p => p.1 = a) (concat (map tag_pairs data)).

Definition n_start (data : list (list (string * string))) (s : string) : nat :=
  count (fun sent => head (map snd sent) = Some s) data.

Definition n_sent (data : list (list (string * string))) : nat :=
  count (fun sent => sent <> []) data.

(** The entries of a table with [R] rows and [C] columns are the numbers
    of events at their places, and the entries of a row add up to the
    number of events in the row. *)
Definition holds_counts (R C : nat) (m : list (list xreal)) (events : list (nat * nat))
  : Prop :=
  shaped R C m /\
  (forall r c, (r < R)%nat -> (c < C)%nat ->
     cell (of_Z 0) m r c = Fin (INR (count (fun e => e = (r, c)) events))) /\
  (forall r, (r < R)%nat ->
     Rsum (map to_R (nth r m [])) = INR (count (fun e => e.1 = r) events)).

(** * Properties *)

(** ** Subscripting and loops *)

Lemma bind_Ok_inv {A B : Type} (c : res A) (k : A -> res B) (b : B) :
  bind c k = Ok b -> exists a, c = Ok a /\ k a = Ok b.
Proof. destruct c as [a|e]; simpl; [eauto | discriminate]. Qed.

Tactic Notation "inv_bind" hyp(H) :=
  let a := fresh "a" in
  let Ha := fresh "Ha" in
  apply bind_Ok_inv in H; destruct H as (a & Ha & H).

Tactic Notation "inv_bind" hyp(H) "as" ident(a) ident(Ha) :=
  apply bind_Ok_inv in H; destruct H as (a & Ha & H).

Lemma norm_index_nat (n k : nat) :
  (k < n)%nat -> norm_index n (Z.of_nat k) = Ok k.
Proof.
  intros Hk. unfold norm_index. case_decide; [|lia]. by rewrite Nat2Z.id.
Qed.

Lemma norm_index_last (n : nat) :
  (0 < n)%nat -> norm_index n (-1) = Ok (n - 1)%nat.
Proof.
  intros Hn. unfold norm_index. case_decide; [lia|]. case_decide; [|lia].
  f_equal. lia.
Qed.

Lemma getitem_nat {A : Type} (l : list A) (k : nat) (a : A) :
  l !! k = Some a -> getitem l (Z.of_nat k) = Ok a.
Proof.
  intros Hk. unfold getitem.
  rewrite norm_index_nat by (by eapply lookup_lt_Some). simpl. by rewrite Hk.
Qed.

Lemma getitem_Ok_inv {A : Type} (l : list A) (i : Z) (a : A) :
  getitem l i = Ok a ->
  exists k, norm_index (length l) i = Ok k /\ l !! k = Some a.
Proof.
  unfold getitem. intros H. inv_bind H. exists a0. split; [done|].
  destruct (l !! a0); congruence.
Qed.

Lemma getitem_elem_of {A : Type} (l : list A) (i : Z) (a : A) :
  getitem l i = Ok a -> a ∈ l.
Proof.
  intros (k & _ & Hk)%getitem_Ok_inv. by eapply list_elem_of_lookup_2.
Qed.

Lemma getitem_nil {A : Type} (i : Z) : getitem (@nil A) i = Raise IndexError.
Proof.
  unfold getitem, norm_index. simpl. repeat case_decide; first [lia | done].
Qed.

Lemma mapM_Ok {A B : Type} (f : A -> res B) (g : A -> B) (l : list A) :
  (forall x, x ∈ l -> f x = Ok (g x)) -> mapM f l = Ok (map g l).
Proof.
  induction l as [|x t IH]; simpl; intros Hf; [done|].
  rewrite Hf by left. simpl. rewrite IH; [done|].
  intros y Hy. apply Hf. by right.
Qed.

Lemma foldM_app {A S : Type} (f : S -> A -> res S) (l1 l2 : list A) (s : S) :
  foldM f (l1 ++ l2) s = (s' <- foldM f l1 s ;; foldM f l2 s').
Proof.
  revert s. induction l1 as [|x t IH]; simpl; intros s; [done|].
  destruct (f s x); simpl; [apply IH | done].
Qed.

Lemma range_S (a b : nat) :
  (a <= b)%nat -> range a (S b) = range a b ++ [Z.of_nat b].
Proof.
  intros Hab. unfold range.
  replace (S b - a)%nat with (S (b - a)) by lia.
  rewrite seq_S, map_app. simpl. do 3 f_equal. lia.
Qed.

(** ** The index registry *)

Section Registry.

Lemma index_fold_notin (l : list string) (i : Z) (m : gmap string Z) (w : string) :
  w ∉ l -> fold_left put (enumerate_from i l) m !! w = m !! w.
Proof.
  revert i m. induction l as [|x t IH]; simpl; intros i m Hw; [done|].
  apply not_elem_of_cons in Hw as [Hx Ht].
  rewrite IH by done. unfold put. simpl. by rewrite lookup_insert_ne.
Qed.

Lemma index_fold_Some (l : list string) (i : Z) (m : gmap string Z) (w : string) (k : Z) :
  fold_left put (enumerate_from i l) m !! w = Some k ->
((w ∉ l) /\ m !! w = Some k) \/
  (i <= k < i + Z.of_nat (length l) /\ l !! Z.to_nat (k - i) = Some w).
Proof.
  revert i m. induction l as [|x t IH]; simpl; intros i m Hk.
  - left. split; [apply not_elem_of_nil | done].
  - apply IH in Hk as [[Hw Hk] | [Hr Hk]].
    + unfold put in Hk. simpl in Hk.
      destruct (decide (x = w)) as [->|Hne].
      * rewrite lookup_insert_eq in Hk. inversion Hk; subst.
        right. split; [lia|]. by rewrite Z.sub_diag.
      * rewrite lookup_insert_ne in Hk by done.
        left. split; [|done]. apply not_elem_of_cons. by split.
    + right. split; [lia|].
      replace (Z.to_nat (k - i)) with (S (Z.to_nat (k - (i + 1)))) by lia.
      done.
Qed.

Lemma index_fold_in (l : list string) (i : Z) (m : gmap string Z) (w : string) :
  w ∈ l -> is_Some (fold_left put (enumerate_from i l) m !! w).
Proof.
  revert i m. induction l as [|x t IH]; simpl; intros i m Hw.
  - by apply elem_of_nil in Hw.
  - destruct (decide (w ∈ t)) as [Ht|Ht]; [by apply IH|].
    apply elem_of_cons in Hw as [->|Hw]; [|done].
    rewrite index_fold_notin by done. unfold put. simpl.
    rewrite lookup_insert_eq. eauto.
Qed.

Lemma index_of_unfold (l : list string) :
  index_of l = fold_left put (enumerate_from 0 l) ∅.
Proof. reflexivity. Qed.

Lemma index_of_Some (l : list string) (w : string) (k : Z) :
  index_of l !! w = Some k ->
  0 <= k < Z.of_nat (length l) /\ l !! Z.to_nat k = Some w.
Proof.
  rewrite index_of_unfold. intros [[_ Hk] | [Hr Hk]]%index_fold_Some.
  - by rewrite lookup_empty in Hk.
  - rewrite Z.sub_0_r in Hk. split; [lia | done].
Qed.

Lemma index_of_in (l : list string) (w : string) :
  w ∈ l -> is_Some (index_of l !! w).
Proof. rewrite index_of_unfold. apply index_fold_in. Qed.

Lemma index_of_notin (l : list string) (w : string) :
  w ∉ l -> index_of l !! w = None.
Proof.
  intros Hw. rewrite index_of_unfold, index_fold_notin by done. apply lookup_empty.
Qed.

Lemma enumerate_from_app {A : Type} (i : Z) (l1 l2 : list A) :
  enumerate_from i (l1 ++ l2) =
  enumerate_from i l1 ++ enumerate_from (i + Z.of_nat (length l1)) l2.
Proof.
  revert i. induction l1 as [|x t IH]; simpl; intros i.
  - by rewrite Z.add_0_r.
  - rewrite IH. do 3 f_equal. lia.
Qed.

Lemma index_of_snoc (l : list string) (x : string) :
  index_of (l ++ [x]) !! x = Some (Z.of_nat (length l)).
Proof.
  rewrite index_of_unfold, enumerate_from_app, fold_left_app. simpl.
  unfold put at 1. simpl. by rewrite lookup_insert_eq.
Qed.

Lemma index_of_getitem (l : list string) (w : string) (k : Z) :
  index_of l !! w = Some k -> getitem l k = Ok w.
Proof.
  intros [Hr Hk]%index_of_Some.
  rewrite <- (Z2Nat.id k) by lia. by apply getitem_nat.
Qed.

End Registry.

(** ** Encoding words *)

Section Encoding.
Context {num : Type} `{Numeric num}.

Lemma encode_word_known (h : HMM num) (w : string) :
  w2i h = index_of (emissions h) -> w ∈ emissions h ->
  exists i, encode_word h w = Ok i /\ getitem (i2w h) i = Ok w.
Proof.
  intros Hw2i Hw. unfold encode_word, dict_get, i2w. rewrite Hw2i.
  destruct (index_of_in _ _ Hw) as [i Hi]. rewrite Hi. rewrite Hi.
  exists i. split; [done|]. by apply index_of_getitem.
Qed.

Lemma encode_word_unknown (h : HMM num) (w : string) :
  w2i h = index_of (emissions h) -> UNK ∈ emissions h -> w ∉ emissions h ->
  exists i, encode_word h w = Ok i /\ getitem (i2w h) i = Ok UNK.
Proof.
  intros Hw2i Hunk Hw. unfold encode_word, dict_get, i2w. rewrite Hw2i.
  rewrite (index_of_notin _ _ Hw).
  destruct (index_of_in _ _ Hunk) as [i Hi]. rewrite Hi.
  exists i. split; [done|]. by apply index_of_getitem.
Qed.

Lemma encode_word_init_unknown (emissions0 states0 : list string) (w : string) :
  w ∉ emissions0 ->
  encode_word (HMM_init emissions0 states0) w = Ok (Z.of_nat (length emissions0)).
Proof.
  intros Hw. unfold encode_word, dict_get, HMM_init. cbn [w2i].
  destruct (decide (w = UNK)) as [->|Hne].
  - by rewrite !index_of_snoc.
  - rewrite (index_of_notin _ w).
    + by rewrite index_of_snoc.
    + rewrite elem_of_app, list_elem_of_singleton. tauto.
Qed.

Lemma getitem_snoc {A : Type} (l : list A) (x : A) :
  getitem (l ++ [x]) (Z.of_nat (length l)) = Ok x.
Proof.
  apply getitem_nat. rewrite lookup_app_r by lia. by rewrite Nat.sub_diag.
Qed.

(** [data2i] subscripts [data[0][0]] before it encodes anything. *)
Lemma data2i_words_empty (h : HMM num) :
  data2i_words h [[]] = Raise IndexError.
Proof. reflexivity. Qed.

End Encoding.

(** C5. For a registry built from a list of distinct words, a word of the
    vocabulary is encoded to an id that decodes to the same word, and a
    word outside the vocabulary is encoded to the id of the unknown
    symbol, which is the last id and decodes to [UNK]. *)
Theorem registry_round_trip {num : Type} `{Numeric num} (words tags : list string) :
  NoDup words ->
  let h : HMM num := HMM_init words tags in
  (forall w, w ∈ words ->
     exists i, encode_word h w = Ok i /\ getitem (i2w h) i = Ok w) /\
  (forall w, w ∉ words ->
     encode_word h w = Ok (Z.of_nat (length words)) /\
     getitem (i2w h) (Z.of_nat (length words)) = Ok UNK) /\
  Z.of_nat (length words) = Z.of_nat (length (i2w h)) - 1.
Proof.
  intros _ h. split; [|split].
  - intros w Hw. apply encode_word_known; [done|].
    simpl. apply elem_of_app. by left.
  - intros w Hw. split.
    + by apply encode_word_init_unknown.
    + apply getitem_snoc.
  - unfold i2w. simpl. rewrite length_app. simpl. lia.
Qed.

Lemma registry_round_trip_witness :
  let h : HMM xreal := HMM_init ["the"; "dog"] ["DET"] in
  (forall w, w ∈ ["the"; "dog"] ->
     exists i, encode_word h w = Ok i /\ getitem (i2w h) i = Ok w) /\
  (forall w, w ∉ ["the"; "dog"] ->
     encode_word h w = Ok 2 /\ getitem (i2w h) 2 = Ok UNK) /\
  2 = Z.of_nat (length (i2w h)) - 1.
Proof.
  apply (registry_round_trip (num := xreal) ["the"; "dog"] ["DET"]).
  apply (bool_decide_unpack _). vm_compute. exact I.
Defined.

(** C8. An empty sentence makes each of the three decoders raise (the
    [IndexError] of [data[0][0]] in [data2i]); none returns a result. *)
Theorem decode_empty_sentence {num : Type} `{Numeric num} (h : HMM num) :
  greedy_decode h [] = Raise IndexError /\
  viterbi_decode h [] = Raise IndexError /\
  fast_viterbi_decode h [] = Raise IndexError.
Proof.
  unfold greedy_decode, viterbi_decode, fast_viterbi_decode.
  rewrite data2i_words_empty. by repeat split.
Qed.

(** ** Shapes of matrices *)

Lemma setitem_Ok_inv {A : Type} (l : list A) (i : Z) (v : A) (l' : list A) :
  setitem l i v = Ok l' ->
  exists k, norm_index (length l) i = Ok k /\ l' = <[k:=v]> l.
Proof. unfold setitem. intros H. inv_bind H. inversion H; subst. eauto. Qed.

Section Shapes.
Context {A : Type}.
Implicit Types (m : list (list A)) (row : list A).

Lemma setitem2_Ok_inv m (r c : Z) (v : A) m' :
  setitem2 m r c v = Ok m' ->
  exists k row j,
    norm_index (length m) r = Ok k /\ m !! k = Some row /\
    norm_index (length row) c = Ok j /\ m' = <[k:=<[j:=v]> row]> m.
Proof.
  unfold setitem2. intros H. inv_bind H. inv_bind H.
  apply getitem_Ok_inv in Ha as (k & Hk & Hrow).
  apply setitem_Ok_inv in Ha0 as (j & Hj & ->).
  apply setitem_Ok_inv in H as (k' & Hk' & ->).
  rewrite Hk in Hk'. inversion Hk'; subst. exists k', a, j. eauto.
Qed.

Lemma setitem2_shape m (r c : Z) (v : A) m' :
  setitem2 m r c v = Ok m' -> map length m' = map length m.
Proof.
  intros (k & row & j & _ & Hrow & _ & ->)%setitem2_Ok_inv.
  change (length <$> <[k:=<[j:=v]> row]> m = length <$> m).
  rewrite list_fmap_insert, length_insert.
  apply list_insert_id. by rewrite list_lookup_fmap, Hrow.
Qed.

Lemma shaped_lengths (r c : nat) m :
  shaped r c m <-> map length m = replicate r c.
Proof.
  unfold shaped. split.
  - intros [<- Hall]. induction Hall as [|row t Hrow _ IH]; simpl; [done|].
    by rewrite Hrow, IH.
  - revert r. induction m as [|row t IH]; intros [|r]; simpl; try done.
    intros [= Hrow Ht]. apply IH in Ht as [<- Ht]. split; [done|].
    by constructor.
Qed.

Lemma shaped_lookup (r c : nat) m (k : nat) row :
  shaped r c m -> m !! k = Some row -> length row = c.
Proof.
  intros [_ Hall] Hk. by eapply (proj1 (Forall_lookup _ _) Hall).
Qed.

Lemma shaped_full (r c : nat) (x : A) : shaped r c (np_full r c x).
Proof.
  unfold np_full. split; [apply length_replicate|].
  apply Forall_replicate, length_replicate.
Qed.

End Shapes.

Lemma foldM_invariant {A S : Type} (P : S -> Prop) (f : S -> A -> res S) (l : list A) :
  (forall s x s', P s -> f s x = Ok s' -> P s') ->
  forall s s', P s -> foldM f l s = Ok s' -> P s'.
Proof.
  intros Hf. induction l as [|x t IH]; simpl; intros s s' Hs Hfold.
  - by inversion Hfold; subst.
  - inv_bind Hfold. eauto.
Qed.

(** ** Training keeps the shapes of the tables *)

Section TrainShape.
Context {num : Type} `{Numeric num}.

Lemma incr_shape (m : list (list num)) (r c : Z) m' :
  incr m r c = Ok m' -> map length m' = map length m.
Proof.
  unfold incr. intros Hm. inv_bind Hm. by eapply setitem2_shape.
Qed.

Lemma train_step_shape st ws st' :
  train_step st ws = Ok st' -> tshape st'.1 = tshape st.1.
Proof.
  destruct st as [t flag], ws as [word state]. unfold train_step. cbn [fst].
  intros Hs. inv_bind Hs. apply incr_shape in Ha.
  inv_bind Hs. destruct a0 as [t1 flag1].
  assert (tshape t1 = tshape t) as <-.
  { destruct (decide (flag <> -1)).
    - inv_bind Ha0. inversion Ha0; subst. apply incr_shape in Ha1.
      unfold tshape; simpl. by rewrite Ha, Ha1.
    - inversion Ha0; subst. unfold tshape; simpl. by rewrite Ha. }
  destruct (decide (flag1 = -1)).
  - inv_bind Hs. inversion Hs; subst. apply incr_shape in Ha1.
    unfold tshape; simpl. by rewrite Ha1.
  - by inversion Hs; subst.
Qed.

Lemma train_sentence_shape t sentence t' :
  train_sentence t sentence = Ok t' -> tshape t' = tshape t.
Proof.
  unfold train_sentence. intros Hs. inv_bind Hs. inversion Hs; subst.
  eapply (foldM_invariant (fun st => tshape st.1 = tshape t)) in Ha; [done| |done].
  intros s x s' Hs' Hstep. by rewrite (train_step_shape _ _ _ Hstep).
Qed.

Lemma fill_zero_shape (m : list (list num)) :
  map length (fill_zero m) = map length m.
Proof.
  unfold fill_zero. rewrite map_map. apply map_ext. intros row. apply length_map.
Qed.

Lemma fill_zero_lengths (m m' : list (list num)) :
  map length m = map length m' -> fill_zero m = fill_zero m'.
Proof.
  unfold fill_zero. revert m'.
  induction m as [|row t IH]; intros [|row' t']; simpl; try done.
  intros [= Hrow Ht]. f_equal; [|by apply IH].
  clear -Hrow. revert row' Hrow.
  induction row as [|x u IH]; intros [|x' u']; simpl; try done.
  intros [= Hu]. f_equal. by apply IH.
Qed.

Lemma add_one_shape (m : list (list num)) :
  map length (add_one m) = map length m.
Proof.
  unfold add_one. rewrite map_map. apply map_ext. intros row. apply length_map.
Qed.

Lemma log2_div_length (v : list num) (s : num) : length (log2_div v s) = length v.
Proof. apply length_map. Qed.

Lemma normalize_rows_shape (m m' : list (list num)) :
  normalize_rows m = Ok m' -> map length m' = map length m.
Proof.
  unfold normalize_rows.
  apply (foldM_invariant (fun m1 => map length m1 = map length m)); [|done].
  intros m1 i m2 Hm1 Hstep. inv_bind Hstep.
  apply getitem_Ok_inv in Ha as (k & Hk & Hrow).
  apply setitem_Ok_inv in Hstep as (k' & Hk' & ->).
  rewrite Hk in Hk'. inversion Hk'; subst. rewrite <- Hm1.
  change (length <$> <[k':=log2_div a (np_sum a)]> m1 = length <$> m1).
  rewrite list_fmap_insert, log2_div_length.
  apply list_insert_id. by rewrite list_lookup_fmap, Hrow.
Qed.

(** [train] keeps the lists and the registries, and the shape of each
    table. *)
Lemma train_frame (h h1 : HMM num) data :
  train h data = Ok h1 ->
  emissions h1 = emissions h /\ states h1 = states h /\
  w2i h1 = w2i h /\ s2i h1 = s2i h /\
  map length (init_prob h1) = map length (init_prob h) /\
  map length (emission_prob h1) = map length (emission_prob h) /\
  map length (transition_prob h1) = map length (transition_prob h).
Proof.
  unfold train. intros Ht. inv_bind Ht. inv_bind Ht. inv_bind Ht. inv_bind Ht.
  inversion Ht; subst; simpl. clear Ht.
  assert (tshape a0 = (map length (init_prob h), map length (emission_prob h),
                       map length (transition_prob h))) as Hshape.
  { revert Ha0.
    apply (foldM_invariant (fun t => tshape t = _)).
    - intros s x s' Hs Hstep. by rewrite (train_sentence_shape _ _ _ Hstep).
    - unfold tshape; simpl. by rewrite !fill_zero_shape. }
  unfold tshape in Hshape. injection Hshape as Hi He Htr.
  apply normalize_rows_shape in Ha1, Ha2.
  rewrite add_one_shape in Ha1, Ha2.
  repeat split; try congruence.
  rewrite map_map. rewrite <- Hi, <- (add_one_shape (t_init a0)).
  apply map_ext. intros row. apply log2_div_length.
Qed.

(** [train] reads its object only through the registries and the shapes
    of the tables, which it resets first. *)
Lemma train_ext (h h' : HMM num) data :
  emissions h = emissions h' -> states h = states h' ->
  w2i h = w2i h' -> s2i h = s2i h' ->
  map length (init_prob h) = map length (init_prob h') ->
  map length (emission_prob h) = map length (emission_prob h') ->
  map length (transition_prob h) = map length (transition_prob h') ->
  train h data = train h' data.
Proof.
  intros He Hs Hw Hsi Hi Hem Htr.
  unfold train, data2i_pairs, encode_word.
  rewrite He, Hs, Hw, Hsi.
  by rewrite (fill_zero_lengths _ _ Hi), (fill_zero_lengths _ _ Hem),
    (fill_zero_lengths _ _ Htr).
Qed.

End TrainShape.

(** C6. Training is idempotent: when [train] has returned, calling it
    again on the same corpus returns the same object, with the same three
    tables. *)
Theorem train_idempotent {num : Type} `{Numeric num} (h h1 : HMM num)
  (data : list (list (string * string))) :
  train h data = Ok h1 -> train h1 data = Ok h1.
Proof.
  intros Ht. rewrite <- Ht.
  destruct (train_frame _ _ _ Ht) as (He & Hs & Hw & Hsi & Hi & Hem & Htr).
  by apply train_ext.
Qed.

Lemma train_idempotent_witness :
  exists h1 : HMM xreal,
    train (HMM_init ["the"; "dog"; "barks"] ["DET"; "NOUN"; "VERB"])
      [[("the", "DET"); ("dog", "NOUN"); ("barks", "VERB")]] = Ok h1 /\
    train h1 [[("the", "DET"); ("dog", "NOUN"); ("barks", "VERB")]] = Ok h1.
Proof.
  eexists. split.
  - vm_compute. reflexivity.
  - apply (train_idempotent (HMM_init ["the"; "dog"; "barks"] ["DET"; "NOUN"; "VERB"])).
    vm_compute. reflexivity.
Defined.

(** ** Reading and writing matrices of a known shape *)

Lemma getitem_total {A : Type} (d : A) (l : list A) (k : nat) :
  (k < length l)%nat -> getitem l (Z.of_nat k) = Ok (nth k l d).
Proof.
  intros Hk. apply getitem_nat. rewrite nth_lookup.
  destruct (lookup_lt_is_Some_2 l k Hk) as [x Hx]. by rewrite Hx.
Qed.

Lemma getitem_last {A : Type} (l : list A) (x : A) :
  getitem (l ++ [x]) (-1) = Ok x.
Proof.
  unfold getitem. rewrite norm_index_last by (rewrite length_app; simpl; lia).
  simpl. rewrite length_app. simpl.
  replace (length l + 1 - 1)%nat with (length l) by lia.
  rewrite lookup_app_r by lia. by rewrite Nat.sub_diag.
Qed.

Lemma getitem2_total {A : Type} (d : A) (m : list (list A)) (r c : nat) :
  (r < length m)%nat -> (c < length (nth r m []))%nat ->
  getitem2 m (Z.of_nat r) (Z.of_nat c) = Ok (cell d m r c).
Proof.
  intros Hr Hc. unfold getitem2, cell.
  rewrite (getitem_total [] m r Hr). simpl. by apply getitem_total.
Qed.

Lemma shaped_nth {A : Type} (r c : nat) (m : list (list A)) (k : nat) :
  shaped r c m -> (k < r)%nat -> length (nth k m []) = c.
Proof.
  intros Hm Hk. destruct Hm as [Hlen Hall].
  rewrite nth_lookup. destruct (lookup_lt_is_Some_2 m k) as [row Hrow]; [lia|].
  rewrite Hrow. simpl. by eapply (proj1 (Forall_lookup _ _) Hall).
Qed.

Lemma getcol_total {A : Type} (d : A) (r c : nat) (m : list (list A)) (k : nat) :
  shaped r c m -> (k < c)%nat -> getcol m (Z.of_nat k) = Ok (column d m k).
Proof.
  intros [_ Hall] Hk. unfold getcol, column. apply mapM_Ok.
  intros row Hrow. apply getitem_total.
  rewrite Forall_forall in Hall. rewrite (Hall row Hrow). done.
Qed.

Lemma getcol_last {A : Type} (d : A) (r c : nat) (m : list (list A)) :
  shaped r c m -> (0 < c)%nat -> getcol m (-1) = Ok (column d m (c - 1)).
Proof.
  intros [_ Hall] Hc. unfold getcol, column. apply mapM_Ok.
  intros row Hrow. rewrite Forall_forall in Hall. specialize (Hall row Hrow).
  unfold getitem. rewrite norm_index_last by lia. simpl.
  rewrite nth_lookup, Hall.
  destruct (lookup_lt_is_Some_2 row (c - 1)) as [x Hx]; [lia|]. by rewrite Hx.
Qed.

Lemma column_length {A : Type} (d : A) (m : list (list A)) (k : nat) :
  length (column d m k) = length m.
Proof. apply length_map. Qed.

Lemma setcol_total {A : Type} (r c : nat) (m : list (list A)) (k : nat) (v : list A) :
  shaped r c m -> length v = r -> (k < c)%nat ->
  setcol m (Z.of_nat k) v = Ok (set_column m k v).
Proof.
  intros [Hlen Hall] Hv Hk. unfold setcol, broadcast.
  rewrite decide_True by lia. simpl. unfold set_column.
  clear Hlen Hv r. revert v.
  induction Hall as [|row t Hrow _ IH]; intros [|x v]; simpl; try done.
  unfold setitem at 1. rewrite norm_index_nat by lia. simpl.
  by rewrite IH.
Qed.

Lemma set_column_shaped {A : Type} (r c : nat) (m : list (list A)) (k : nat) (v : list A) :
  shaped r c m -> length v = r -> shaped r c (set_column m k v).
Proof.
  intros [Hlen Hall] Hv. unfold set_column. split.
  - rewrite length_zip_with. lia.
  - clear Hlen Hv. revert v.
    induction Hall as [|row t Hrow _ IH]; intros [|x v]; simpl; try constructor.
    + by rewrite length_insert.
    + apply IH.
Qed.

Lemma cell_set_column_ne {A : Type} (d : A) (m : list (list A)) (k : nat) (v : list A)
  (r c : nat) :
  length v = length m -> c <> k ->
  cell d (set_column m k v) r c = cell d m r c.
Proof.
  unfold cell, set_column. revert v r.
  induction m as [|row t IH]; intros [|x v] r Hlen Hne; simpl in *; try done.
  destruct r as [|r]; simpl.
  - rewrite !nth_lookup, list_lookup_insert_ne by done. done.
  - apply IH; [lia | done].
Qed.

Lemma cell_set_column_eq {A : Type} (d : A) (rows cols : nat) (m : list (list A))
  (k : nat) (v : list A) (r : nat) :
  shaped rows cols m -> length v = rows -> (r < rows)%nat -> (k < cols)%nat ->
  cell d (set_column m k v) r k = nth r v d.
Proof.
  intros [Hlen Hall] Hv Hr Hk. unfold cell, set_column.
  subst rows. revert v r Hv Hr.
  induction Hall as [|row t Hrow _ IH]; intros [|x v] r Hv Hr; simpl in *; try lia.
  destruct r as [|r]; simpl.
  - rewrite nth_lookup, list_lookup_insert_eq by lia. done.
  - apply IH; lia.
Qed.

Lemma getitem_head {A : Type} (x : A) (l : list A) : getitem (x :: l) 0 = Ok x.
Proof. by apply (getitem_nat (x :: l) 0 x). Qed.

(** ** Maximum and its position *)

Section Argmax.
Context {num : Type} `{Numeric num}.

Lemma argmax_scan_range (v : list num) (i : Z) (mp : num) (best : Z) :
  0 <= best < i ->
  0 <= argmax_scan v i mp best < i + Z.of_nat (length v).
Proof.
  revert i mp best. induction v as [|x t IH]; simpl; intros i mp best Hb; [lia|].
  destruct (negb (leb x mp)).
  - destruct (isnan x); [lia|].
    specialize (IH (i + 1) x i). lia.
  - specialize (IH (i + 1) mp best). lia.
Qed.

Lemma argmax_of_range (x : list num) :
  x <> [] -> 0 <= argmax_of x < Z.of_nat (length x).
Proof.
  destruct x as [|a t]; [done|]. intros _. simpl.
  destruct (isnan a); [lia|].
  pose proof (argmax_scan_range t 1 a 0). lia.
Qed.

Lemma np_max_of (x : list num) : x <> [] -> np_max x = Ok (max_of x).
Proof. by destruct x. Qed.

Lemma np_argmax_of (x : list num) : x <> [] -> np_argmax x = Ok (argmax_of x).
Proof. by destruct x. Qed.

End Argmax.

(** ** Well-formed models *)

Section WellFormed.
Context {num : Type} `{Numeric num}.

Lemma HMM_init_wf (emissions0 states0 : list string) :
  wf_hmm (HMM_init emissions0 states0 : HMM num).
Proof.
  split; simpl; try done.
  - apply elem_of_app. right. by apply list_elem_of_singleton.
  - apply shaped_full.
  - apply shaped_full.
  - apply shaped_full.
Qed.

Lemma train_wf (h h1 : HMM num) data :
  wf_hmm h -> train h data = Ok h1 -> wf_hmm h1.
Proof.
  intros [Hw Hs Hu Hi He Ht] Htrain.
  destruct (train_frame _ _ _ Htrain) as (He' & Hs' & Hw' & Hsi' & Hi' & Hem' & Htr').
  split.
  - congruence.
  - congruence.
  - congruence.
  - apply shaped_lengths. rewrite Hi', Hs'. by apply shaped_lengths.
  - apply shaped_lengths. rewrite Hem', Hs', He'. by apply shaped_lengths.
  - apply shaped_lengths. rewrite Htr', Hs'. by apply shaped_lengths.
Qed.

Lemma dict_get_index_of (l : list string) (s : string) (i : Z) :
  dict_get (index_of l) s = Ok i -> 0 <= i < Z.of_nat (length l).
Proof.
  unfold dict_get. destruct (index_of l !! s) as [k|] eqn:Hk; [|done].
  intros [= <-]. by apply index_of_Some in Hk as [? _].
Qed.

(** A corpus that [data2i] accepts names at least one state. *)
Lemma data2i_pairs_states (h : HMM num) data idx :
  s2i h = index_of (states h) -> data2i_pairs h data = Ok idx -> states h <> [].
Proof.
  intros Hs Hd. unfold data2i_pairs in Hd. inv_bind Hd.
  unfold first_item in Ha. inv_bind Ha.
  destruct data as [|ex data]; [by rewrite getitem_nil in Ha0|].
  rewrite getitem_head in Ha0. injection Ha0 as <-.
  destruct ex as [|ws ex]; [by rewrite getitem_nil in Ha|].
  simpl in Hd. inv_bind Hd as row Hrow. inv_bind Hrow as p Hp.
  inv_bind Hp as wi Hwi. inv_bind Hp as si Hsi.
  rewrite Hs in Hsi. apply dict_get_index_of in Hsi.
  intros Hnil. rewrite Hnil in Hsi. simpl in Hsi. lia.
Qed.

Lemma trained_wf (h : HMM num) : trained h -> wf_hmm h /\ states h <> [].
Proof.
  intros (emissions0 & states0 & data & Ht). split.
  - eapply train_wf; [apply HMM_init_wf | done].
  - destruct (train_frame _ _ _ Ht) as (_ & -> & _).
    unfold train in Ht. inv_bind Ht.
    eapply data2i_pairs_states; [|done]. done.
Qed.

Lemma encode_word_wf (h : HMM num) (w : string) :
  wf_hmm h ->
  exists i, encode_word h w = Ok i /\
            0 <= i < Z.of_nat (length (emissions h)) /\
            getitem (i2w h) i = Ok (if decide (w ∈ emissions h) then w else UNK).
Proof.
  intros Hwf. destruct Hwf as [Hw _ Hu _ _ _].
  case_decide as Hin.
  - destruct (encode_word_known h w Hw Hin) as (i & Hi & Hg).
    exists i. repeat split; try done.
    + apply getitem_Ok_inv in Hg as (k & Hk & Hl). apply lookup_lt_Some in Hl.
      unfold encode_word in Hi. rewrite Hw in Hi.
      destruct (index_of (emissions h) !! w) eqn:E.
      * by apply dict_get_index_of in Hi as [? _].
      * by apply dict_get_index_of in Hi as [? _].
    + unfold encode_word in Hi. rewrite Hw in Hi.
      destruct (index_of (emissions h) !! w) eqn:E;
        by apply dict_get_index_of in Hi as [_ ?].
  - destruct (encode_word_unknown h w Hw Hu Hin) as (i & Hi & Hg).
    exists i. repeat split; try done;
      unfold encode_word in Hi; rewrite Hw in Hi;
      destruct (index_of (emissions h) !! w) eqn:E;
      by apply dict_get_index_of in Hi as [? ?].
Qed.

Lemma data2i_words_wf (h : HMM num) (ex : list string) :
  wf_hmm h -> ex <> [] ->
  exists ids,
    data2i_words h [ex] = Ok [ids] /\
    length ids = length ex /\
    Forall (fun i => 0 <= i < Z.of_nat (length (emissions h))) ids /\
    mapM (fun i => getitem (i2w h) i) ids = Ok (map (shown h) ex).
Proof.
  intros Hwf Hex. unfold data2i_words.
  assert (exists x, first_item [ex] = Ok x) as [x ->].
  { destruct ex as [|w ex]; [done|]. exists w. unfold first_item.
    rewrite getitem_head. simpl. apply getitem_head. }
  simpl.
  assert (exists ids, mapM (encode_word h) ex = Ok ids /\
            length ids = length ex /\
            Forall (fun i => 0 <= i < Z.of_nat (length (emissions h))) ids /\
            mapM (fun i => getitem (i2w h) i) ids = Ok (map (shown h) ex))
    as (ids & -> & Hids).
  { clear Hex. induction ex as [|w ex IH]; simpl.
    - exists []. by repeat split.
    - destruct (encode_word_wf h w Hwf) as (i & -> & Hr & Hg).
      destruct IH as (ids & -> & Hlen & Hall & Hm). simpl.
      exists (i :: ids). repeat split; simpl.
      + by rewrite Hlen.
      + by constructor.
      + rewrite Hg, Hm. done. }
  simpl. by exists ids.
Qed.

End WellFormed.

(** ** The greedy decoder returns *)

Section Greedy.
Context {num : Type} `{Numeric num}.

Lemma tag_output_total (h : HMM num) (ex output : list Z) (ws : list string) :
  mapM (fun i => getitem (i2w h) i) ex = Ok ws ->
  length output = length ex ->
  Forall (valid_state h) output ->
  exists tagged,
    tag_output h ex output = Ok tagged /\
    map fst tagged = ws /\
    length tagged = length ex.
Proof.
  unfold tag_output. revert output ws.
  induction ex as [|w ex IH]; intros [|s output] ws Hws Hlen Hall; simpl in *; try done.
  - inversion Hws; subst. by exists [].
  - inv_bind Hws as w' Hw'. inv_bind Hws as ws' Hws'. inversion Hws; subst.
    apply Forall_cons in Hall as [Hs Hall].
    destruct (IH output ws' Hws') as (tagged & -> & Hfst & Hl); [lia | done |].
    rewrite Hw'. simpl.
    unfold valid_state in Hs.
    rewrite <- (Z2Nat.id s) by lia.
    rewrite (getitem_total "" (i2s h) (Z.to_nat s)) by (unfold i2s; lia).
    simpl. eexists. split; [done|]. simpl. split; [by f_equal | by f_equal].
Qed.

Lemma shaped_one_concat {A : Type} (c : nat) (m : list (list A)) :
  shaped 1 c m -> length (concat m) = c.
Proof.
  intros [Hlen Hall]. destruct m as [|row [|? ?]]; simpl in *; try done.
  apply Forall_cons in Hall as [Hrow _]. by rewrite app_nil_r.
Qed.

Lemma iadd_rows_total (c : nat) (m : list (list num)) (e : list num) :
  shaped 1 c m -> length e = c ->
  exists m', iadd_rows m e = Ok m' /\ shaped 1 c m'.
Proof.
  intros [Hlen Hall] He. unfold iadd_rows.
  exists (map (fun row => zip_with add row e) m). split.
  - apply mapM_Ok. intros row Hrow. rewrite Forall_forall in Hall.
    unfold broadcast. rewrite decide_True; [done|]. rewrite (Hall row Hrow). done.
  - split; [by rewrite length_map|].
    apply Forall_forall. intros row' Hrow'. apply list_elem_of_fmap in Hrow' as (row & -> & Hrow).
    rewrite Forall_forall in Hall. rewrite length_zip_with, (Hall row Hrow). lia.
Qed.

Lemma greedy_step_total (h : HMM num) sd out lp (w : Z) :
  wf_hmm h -> states h <> [] ->
  0 <= w < Z.of_nat (length (emissions h)) ->
  shaped 1 (length (states h)) sd ->
  Forall (valid_state h) out ->
  exists sd' a lp',
    greedy_step h (sd, out, lp) w = Ok (sd', out ++ [a], lp') /\
    shaped 1 (length (states h)) sd' /\
    valid_state h a.
Proof.
  intros Hwf HS Hw Hsd Hout. destruct Hwf as [_ _ _ _ Hem Htr].
  unfold greedy_step.
  rewrite <- (Z2Nat.id w) by lia.
  rewrite (getcol_total (of_Z 0) _ _ _ _ Hem) by lia. simpl.
  destruct (iadd_rows_total _ sd (column (of_Z 0) (emission_prob h) (Z.to_nat w)) Hsd)
    as (sd1 & -> & Hsd1).
  { rewrite column_length. by destruct Hem. }
  simpl.
  assert (concat sd1 <> []) as Hne.
  { intros Hnil. apply shaped_one_concat in Hsd1. rewrite Hnil in Hsd1.
    simpl in Hsd1. by destruct (states h). }
  rewrite (np_argmax_of _ Hne), (np_max_of _ Hne). simpl.
  pose proof (argmax_of_range _ Hne) as Ha.
  rewrite (shaped_one_concat _ _ Hsd1) in Ha.
  rewrite getitem_last. simpl.
  set (a := argmax_of (concat sd1)) in *.
  rewrite <- (Z2Nat.id a) by lia.
  rewrite (getitem_total [] (transition_prob h) (Z.to_nat a)) by (destruct Htr; lia).
  simpl. rewrite Z2Nat.id by lia.
  eexists _, a, _. split; [done|]. split; [|done].
  split; [done|]. constructor; [|constructor].
  rewrite length_map. apply (shaped_nth _ _ _ _ Htr). lia.
Qed.

Lemma greedy_loop_total (h : HMM num) (ids : list Z) sd out lp :
  wf_hmm h -> states h <> [] ->
  Forall (fun i => 0 <= i < Z.of_nat (length (emissions h))) ids ->
  shaped 1 (length (states h)) sd ->
  Forall (valid_state h) out ->
  exists sd' out' lp',
    foldM (greedy_step h) ids (sd, out, lp) = Ok (sd', out', lp') /\
    length out' = (length out + length ids)%nat /\
    Forall (valid_state h) out'.
Proof.
  intros Hwf HS Hids. revert sd out lp.
  induction Hids as [|w ids Hw _ IH]; intros sd out lp Hsd Hout; cbn [foldM].
  - exists sd, out, lp. split; [done|]. split; [simpl; lia | done].
  - destruct (greedy_step_total h sd out lp w Hwf HS Hw Hsd Hout)
      as (sd1 & a & lp1 & -> & Hsd1 & Ha).
    cbn [bind].
    destruct (IH sd1 (out ++ [a]) lp1 Hsd1) as (sd' & out' & lp' & -> & Hlen & Hall).
    { apply Forall_app. split; [done|]. by constructor. }
    exists sd', out', lp'. split; [done|]. split; [|done].
    rewrite Hlen, length_app. simpl. lia.
Qed.

(** On a well-formed model with at least one state, [greedy_decode]
    returns for every non-empty sentence, and shows each word of the
    vocabulary as itself and every other word as [UNK]. *)
Lemma greedy_decode_words (h : HMM num) (ex : list string) :
  wf_hmm h -> states h <> [] -> ex <> [] ->
  exists tagged lp,
    greedy_decode h ex = Ok (tagged, lp) /\
    map fst tagged = map (shown h) ex.
Proof.
  intros Hwf HS Hex. unfold greedy_decode.
  destruct (data2i_words_wf h ex Hwf Hex) as (ids & -> & Hlen & Hids & Hws).
  cbn [bind]. rewrite getitem_head. cbn [bind].
  destruct (greedy_loop_total h ids (init_prob h) [] (of_Z 0) Hwf HS Hids)
    as (sd' & out' & lp' & -> & Hlen' & Hall).
  { by destruct Hwf. }
  { constructor. }
  cbn [bind].
  destruct (tag_output_total h ids out' _ Hws) as (tagged & -> & Hfst & _);
    [simpl in Hlen'; lia | done |].
  cbn [bind]. by exists tagged, lp'.
Qed.

End Greedy.

(** ** Filling a column cell by cell *)

Lemma mapM_map {A B C : Type} (f : B -> res C) (g : A -> B) (l : list A) :
  mapM f (map g l) = mapM (fun x => f (g x)) l.
Proof.
  induction l as [|x t IH]; simpl; [done|]. by rewrite IH.
Qed.

Lemma nth_map_lt {A B : Type} (f : A -> B) (l : list A) (p : nat) (d : B) (d' : A) :
  (p < length l)%nat -> nth p (map f l) d = f (nth p l d').
Proof.
  intros Hp. rewrite !nth_lookup.
  change (map f l) with (f <$> l). rewrite list_lookup_fmap.
  destruct (lookup_lt_is_Some_2 l p Hp) as [x ->]. done.
Qed.

Lemma set_column_id {A : Type} (d : A) (r c : nat) (m : list (list A)) (n : nat) :
  shaped r c m -> (n < c)%nat -> set_column m n (column d m n) = m.
Proof.
  intros [_ Hall] Hn. unfold set_column, column.
  induction Hall as [|row t Hrow _ IH]; simpl; [done|].
  rewrite IH. f_equal. apply list_insert_id. rewrite nth_lookup.
  destruct (lookup_lt_is_Some_2 row n) as [x Hx]; [lia|]. by rewrite Hx.
Qed.

Lemma nth_set_column {A : Type} (m : list (list A)) (n : nat) (u : list A)
  (p : nat) (d : A) :
  length u = length m -> (p < length m)%nat ->
  nth p (set_column m n u) [] = <[n:=nth p u d]> (nth p m []).
Proof.
  unfold set_column. revert u p.
  induction m as [|row t IH]; intros [|x u] p Hlen Hp; simpl in *; try lia.
  destruct p as [|p]; [done|]. apply IH; lia.
Qed.

Lemma insert_set_column {A : Type} (m : list (list A)) (n : nat) (u : list A)
  (p : nat) (x : A) (row : list A) :
  length u = length m -> m !! p = Some row ->
  <[p:=<[n:=x]> row]> (set_column m n u) = set_column m n (<[p:=x]> u).
Proof.
  unfold set_column. revert u p.
  induction m as [|row0 t IH]; intros [|y u] p Hlen Hp; simpl in *; try done.
  destruct p as [|p]; simpl in *.
  - by inversion Hp; subst.
  - f_equal. apply IH; [lia | done].
Qed.

Lemma setitem2_set_column {A : Type} (r c : nat) (m : list (list A)) (n : nat)
  (u : list A) (p : nat) (x : A) :
  shaped r c m -> length u = r -> (p < r)%nat -> (n < c)%nat ->
  setitem2 (set_column m n u) (Z.of_nat p) (Z.of_nat n) x =
  Ok (set_column m n (<[p:=x]> u)).
Proof.
  intros Hm Hu Hp Hn. pose proof Hm as [Hlen Hall].
  destruct (lookup_lt_is_Some_2 u p) as [y Hy]; [lia|].
  destruct (lookup_lt_is_Some_2 m p) as [row Hrow]; [lia|].
  assert (length row = c) as Hrowlen by (by eapply shaped_lookup).
  unfold setitem2.
  assert (length (set_column m n u) = r) as Hlen'.
  { unfold set_column. rewrite length_zip_with. lia. }
  rewrite (getitem_total [] _ p) by lia. cbn [bind].
  rewrite (nth_set_column m n u p y) by lia.
  unfold setitem at 1. rewrite norm_index_nat by (rewrite length_insert, nth_lookup, Hrow; simpl; lia).
  cbn [bind]. unfold setitem. rewrite norm_index_nat by lia. cbn [bind].
  f_equal. rewrite list_insert_insert_eq.
  rewrite nth_lookup, Hrow. simpl.
  apply insert_set_column; [lia | done].
Qed.

Lemma insert_take_drop {A : Type} (d : A) (v col : list A) (p : nat) :
  (p < length v)%nat -> length col = length v ->
  <[p:=nth p v d]> (take p v ++ drop p col) = take (S p) v ++ drop (S p) col.
Proof.
  intros Hp Hlen.
  destruct (lookup_lt_is_Some_2 v p) as [x Hx]; [lia|].
  destruct (lookup_lt_is_Some_2 col p) as [y Hy]; [lia|].
  rewrite nth_lookup, Hx. simpl.
  rewrite (take_S_r v p x Hx), (drop_S col y p Hy).
  rewrite insert_app_r_alt by (rewrite length_take; lia).
  rewrite length_take. replace (p - p `min` length v)%nat with 0%nat by lia.
  simpl. by rewrite <- app_assoc.
Qed.

Section LoopColumn.
Context {num : Type} `{Numeric num}.
Variables (h : HMM num) (ex : list Z) (n : nat).
Hypothesis Hwf : wf_hmm h.
Hypothesis Hn : (1 <= n < length ex)%nat.
Hypothesis Hw : 0 <= nth n ex 0 < Z.of_nat (length (emissions h)).

Let S' := length (states h).
Let w := Z.to_nat (nth n ex 0).

Lemma candidate_total (trellis : list (list num)) (j k : nat) :
  shaped S' (length ex) trellis -> (j < S')%nat -> (k < S')%nat ->
  candidate h trellis ex (Z.of_nat n) (Z.of_nat j) (Z.of_nat k) =
  Ok (add (add (cell (of_Z 0) trellis k (n - 1))
               (cell (of_Z 0) (transition_prob h) k j))
          (cell (of_Z 0) (emission_prob h) j w)).
Proof.
  intros Htr Hj Hk. destruct Hwf as [_ _ _ _ Hem Htrans]. unfold candidate.
  replace (Z.of_nat n - 1) with (Z.of_nat (n - 1)) by lia.
  rewrite (getitem2_total (of_Z 0) trellis k (n - 1)).
  2: { destruct Htr. unfold S' in *. lia. }
  2: { rewrite (shaped_nth _ _ _ _ Htr) by done. lia. }
  cbn [bind].
  rewrite (getitem2_total (of_Z 0) (transition_prob h) k j).
  2: { destruct Htrans. unfold S' in *. lia. }
  2: { rewrite (shaped_nth _ _ _ _ Htrans) by done. done. }
  cbn [bind].
  rewrite (getitem_total 0 ex n) by lia. cbn [bind].
  rewrite <- (Z2Nat.id (nth n ex 0)) by lia. fold w.
  rewrite (getitem2_total (of_Z 0) (emission_prob h) j w).
  2: { destruct Hem. unfold S' in *. lia. }
  2: { rewrite (shaped_nth _ _ _ _ Hem) by done. unfold w. lia. }
  done.
Qed.

Lemma candidates_total (trellis : list (list num)) (j : nat) :
  shaped S' (length ex) trellis -> (j < S')%nat ->
  mapM (candidate h trellis ex (Z.of_nat n) (Z.of_nat j)) (range 0 S') =
  Ok (cands h trellis n w j).
Proof.
  intros Htr Hj. unfold range, cands. rewrite Nat.sub_0_r, mapM_map.
  apply mapM_Ok. intros k Hk. apply elem_of_seq in Hk.
  apply candidate_total; [done | done | lia].
Qed.

Lemma cands_nonempty (trellis : list (list num)) (j : nat) :
  (j < S')%nat -> cands h trellis n w j <> [].
Proof.
  intros Hj. unfold cands. fold S'. destruct S'; [lia|]. done.
Qed.

(** The candidates only read column [n - 1]. *)
Lemma cands_ext (t1 t2 : list (list num)) (j : nat) :
  (forall k, cell (of_Z 0) t1 k (n - 1) = cell (of_Z 0) t2 k (n - 1)) ->
  cands h t1 n w j = cands h t2 n w j.
Proof.
  intros Heq. unfold cands. apply map_ext. intros k. by rewrite Heq.
Qed.

Variables (trellis : list (list num)) (back_pointers : list (list Z)).
Hypothesis Htrellis : shaped S' (length ex) trellis.
Hypothesis Hback : shaped S' (length ex) back_pointers.

Let xs := map (cands h trellis n w) (seq 0 S').
Let mx := map max_of xs.
Let am := map argmax_of xs.

(** The matrices after the cells of the rows below [p] have been
    written. *)
Let part (p : nat) : list (list num) * list (list Z) :=
  (set_column trellis n (take p mx ++ drop p (column (of_Z 0) trellis n)),
   set_column back_pointers n (take p am ++ drop p (column (-1) back_pointers n))).

Lemma xs_length : length xs = S'.
Proof. unfold xs. by rewrite length_map, length_seq. Qed.

Lemma part_lengths (p : nat) :
  length (take p mx ++ drop p (column (of_Z 0) trellis n)) = S' /\
  length (take p am ++ drop p (column (-1) back_pointers n)) = S'.
Proof.
  destruct Htrellis as [Ht _], Hback as [Hb _].
  rewrite !length_app, !length_take, !length_drop, !column_length.
  unfold mx, am. rewrite !length_map, xs_length. lia.
Qed.

Lemma viterbi_cell_part (p : nat) :
  (p < S')%nat ->
  viterbi_cell h ex (Z.of_nat n) (part p) (Z.of_nat p) = Ok (part (S p)).
Proof.
  intros Hp. destruct (part_lengths p) as [Hl1 Hl2].
  unfold viterbi_cell, part. fold S'.
  rewrite candidates_total; [|by apply set_column_shaped|done].
  cbn [bind].
  rewrite (cands_ext _ trellis).
  2: { intros k. apply cell_set_column_ne; [|lia]. destruct Htrellis. lia. }
  rewrite (np_max_of _ (cands_nonempty trellis p Hp)). cbn [bind].
  rewrite (setitem2_set_column S' (length ex)); [|done|done|done|lia].
  cbn [bind].
  rewrite (np_argmax_of _ (cands_nonempty trellis p Hp)). cbn [bind].
  rewrite (setitem2_set_column S' (length ex)); [|done|done|done|lia].
  cbn [bind]. f_equal.
  assert (nth p xs [] = cands h trellis n w p) as Hxs.
  { unfold xs. rewrite (nth_map_lt _ _ _ _ 0%nat) by (rewrite length_seq; lia).
    rewrite seq_nth by lia. done. }
  f_equal; f_equal.
  - rewrite <- (insert_take_drop (of_Z 0)).
    + f_equal. unfold mx. rewrite (nth_map_lt _ _ _ _ []) by (rewrite xs_length; lia).
      by rewrite Hxs.
    + unfold mx. rewrite length_map, xs_length. done.
    + rewrite column_length. unfold mx. rewrite length_map, xs_length.
      by destruct Htrellis.
  - rewrite <- (insert_take_drop (-1)).
    + f_equal. unfold am. rewrite (nth_map_lt _ _ _ _ []) by (rewrite xs_length; lia).
      by rewrite Hxs.
    + unfold am. rewrite length_map, xs_length. done.
    + rewrite column_length. unfold am. rewrite length_map, xs_length.
      by destruct Hback.
Qed.

Lemma viterbi_cells_part (p : nat) :
  (p <= S')%nat ->
  foldM (viterbi_cell h ex (Z.of_nat n)) (range 0 p) (trellis, back_pointers) =
  Ok (part p).
Proof.
  induction p as [|p IH]; intros Hp.
  - unfold part. simpl. rewrite !drop_0.
    rewrite (set_column_id _ _ _ _ _ Htrellis), (set_column_id _ _ _ _ _ Hback) by lia.
    done.
  - rewrite range_S by lia. rewrite foldM_app, IH by lia. cbn [bind foldM].
    rewrite viterbi_cell_part by lia. done.
Qed.

Lemma viterbi_column_spec :
  viterbi_column h ex (trellis, back_pointers) (Z.of_nat n) =
  Ok (column_spec h ex (trellis, back_pointers) n).
Proof.
  unfold viterbi_column. fold S'. rewrite viterbi_cells_part by lia.
  unfold part, column_spec. cbn [fst snd]. fold S' w xs mx am.
  destruct Htrellis as [Ht _], Hback as [Hb _].
  rewrite !firstn_all2, !skipn_all2, !app_nil_r; try done.
  - rewrite column_length. lia.
  - rewrite column_length. lia.
  - unfold am. rewrite length_map, xs_length. done.
  - unfold mx. rewrite length_map, xs_length. done.
Qed.

End LoopColumn.

(** ** The vectorized decoder fills a column as [column_spec] says *)

Lemma zip_with_map_same {A B C D : Type} (F : B -> C -> D) (g : A -> B) (e : A -> C)
  (l : list A) :
  zip_with F (map g l) (map e l) = map (fun x => F (g x) (e x)) l.
Proof. induction l as [|x t IH]; simpl; [done|]. by rewrite IH. Qed.

Lemma list_as_seq {A : Type} (d : A) (l : list A) :
  l = map (fun k => nth k l d) (seq 0 (length l)).
Proof.
  induction l as [|x t IH]; simpl; [done|].
  f_equal. rewrite <- seq_shift, map_map. done.
Qed.

Lemma column_as_seq {A : Type} (d : A) (m : list (list A)) (c : nat) :
  column d m c = map (fun r => cell d m r c) (seq 0 (length m)).
Proof.
  unfold column, cell. induction m as [|row t IH]; simpl; [done|].
  f_equal. rewrite <- seq_shift, map_map. done.
Qed.

Lemma transpose_columns {A : Type} (d : A) (r c : nat) (m : list (list A)) :
  shaped r c m -> transpose c m = map (fun j => column d m j) (seq 0 c).
Proof.
  intros [_ Hall]. induction Hall as [|row t Hrow _ IH]; simpl.
  - unfold column. simpl. clear. generalize 0%nat.
    induction c as [|c IH]; intros s; simpl; [done|]. by rewrite (IH (S s)).
  - rewrite IH. rewrite (list_as_seq d row) at 1. rewrite Hrow.
    rewrite zip_with_map_same. done.
Qed.

Lemma ncols_shaped {A : Type} (r : nat) (m : list (list A)) :
  shaped r r m -> ncols m = r.
Proof.
  intros [Hlen Hall]. destruct Hall as [|row t Hrow _]; simpl in *; [done|]. done.
Qed.

Section FastColumn.
Context {num : Type} `{Numeric num}.

Lemma np_add_same (u v : list num) :
  length u = length v -> np_add u v = Ok (zip_with add u v).
Proof.
  intros Hlen. unfold np_add, broadcast_length, broadcast.
  destruct (decide (length u = 1%nat)) as [Hu|Hu].
  - rewrite !decide_True by lia. done.
  - rewrite !decide_True by lia. done.
Qed.

Lemma add_mat_col_same (m : list (list num)) (e : list num) :
  length m = length e ->
  add_mat_col m e = Ok (zip_with (fun row x => map (fun y => add y x) row) m e).
Proof.
  intros Hlen. unfold add_mat_col, broadcast_length, broadcast.
  destruct (decide (length m = 1%nat)) as [Hu|Hu].
  - rewrite !decide_True by lia. done.
  - rewrite !decide_True by lia. done.
Qed.

Variables (h : HMM num) (ex : list Z) (n : nat).
Hypothesis Hwf : wf_hmm h.
Hypothesis Hn : (1 <= n < length ex)%nat.
Hypothesis Hw : 0 <= nth n ex 0 < Z.of_nat (length (emissions h)).

Let S' := length (states h).
Let w := Z.to_nat (nth n ex 0).

Variables (trellis : list (list num)) (back_pointers : list (list Z)).
Hypothesis Htrellis : shaped S' (length ex) trellis.
Hypothesis Hback : shaped S' (length ex) back_pointers.

Lemma fast_viterbi_column_spec :
  fast_viterbi_column h ex (trellis, back_pointers) (Z.of_nat n) =
  Ok (column_spec h ex (trellis, back_pointers) n).
Proof.
  pose proof Hwf as [_ _ _ _ Hem Htrans]. fold S' in Hem, Htrans.
  pose proof Htrellis as [Htl _]. pose proof Htrans as [Htrl _].
  pose proof Hem as [Heml _].
  unfold fast_viterbi_column.
  replace (Z.of_nat n - 1) with (Z.of_nat (n - 1)) by lia.
  rewrite (getcol_total (of_Z 0) _ _ _ _ Htrellis) by lia. cbn [bind].
  rewrite (ncols_shaped _ _ Htrans).
  rewrite (transpose_columns (of_Z 0) _ _ _ Htrans).
  unfold add_vec_mat. rewrite mapM_map.
  rewrite (mapM_Ok _ (fun j => zip_with add (column (of_Z 0) trellis (n - 1))
                                  (column (of_Z 0) (transition_prob h) j))).
  2: { intros j _. apply np_add_same. rewrite !column_length. lia. }
  cbn [bind].
  rewrite (getitem_total 0 ex n) by lia. cbn [bind].
  rewrite <- (Z2Nat.id (nth n ex 0)) by lia. fold w.
  rewrite (getcol_total (of_Z 0) _ _ _ _ Hem) by (unfold w; lia). cbn [bind].
  rewrite add_mat_col_same by (rewrite length_map, length_seq, column_length; lia).
  cbn [bind].
  set (prob := zip_with _ _ _).
  assert (prob = map (cands h trellis n w) (seq 0 S')) as ->.
  { unfold prob. rewrite (column_as_seq _ (emission_prob h)), Heml.
    rewrite zip_with_map_same. apply map_ext. intros j.
    unfold cands. fold S'.
    rewrite (column_as_seq _ trellis), Htl.
    rewrite (column_as_seq _ (transition_prob h)), Htrl.
    rewrite zip_with_map_same, map_map. done. }
  assert (forall x : list num, x ∈ map (cands h trellis n w) (seq 0 S') -> x <> []) as Hne.
  { intros x Hx. apply list_elem_of_fmap in Hx as (j & -> & Hj).
    apply elem_of_seq in Hj. unfold cands. fold S'.
    destruct S'; [lia|]. done. }
  rewrite (mapM_Ok _ max_of) by (intros x Hx; by apply np_max_of, Hne).
  cbn [bind].
  rewrite (setcol_total _ _ _ _ _ Htrellis) by (rewrite ?length_map, ?length_seq; lia).
  cbn [bind].
  rewrite (mapM_Ok _ argmax_of) by (intros x Hx; by apply np_argmax_of, Hne).
  cbn [bind].
  rewrite (setcol_total _ _ _ _ _ Hback) by (rewrite ?length_map, ?length_seq; lia).
  done.
Qed.

End FastColumn.

(** ** The two decoders fill the same matrices *)

Section Fill.
Context {num : Type} `{Numeric num}.
Variables (h : HMM num) (ex : list Z).
Hypothesis Hwf : wf_hmm h.
Hypothesis Hex : ex <> [].
Hypothesis Hids : Forall (fun i => 0 <= i < Z.of_nat (length (emissions h))) ex.

Lemma word_in_range (n : nat) :
  (n < length ex)%nat -> 0 <= nth n ex 0 < Z.of_nat (length (emissions h)).
Proof.
  intros Hn. rewrite Forall_forall in Hids. apply Hids.
  apply list_elem_of_In, nth_In. done.
Qed.

Lemma viterbi_start_spec : viterbi_start h ex = Ok (start_spec h ex).
Proof.
  pose proof Hwf as [_ _ _ Hini Hem _].
  assert (0 < length ex)%nat as HT by (destruct ex; [done | simpl; lia]).
  unfold viterbi_start.
  change 0 with (Z.of_nat 0).
  rewrite (getitem_total [] (init_prob h) 0) by (destruct Hini; lia). cbn [bind].
  rewrite (getitem_total 0 ex 0) by done. cbn [bind].
  pose proof (word_in_range 0 HT) as Hw0.
  rewrite <- (Z2Nat.id (nth 0 ex 0)) by lia.
  rewrite (getcol_total (of_Z 0) _ _ _ _ Hem) by lia. cbn [bind].
  rewrite np_add_same.
  2: { rewrite column_length. rewrite (shaped_nth _ _ _ _ Hini) by lia.
       by destruct Hem. }
  cbn [bind].
  rewrite (setcol_total (length (states h)) (length ex)); [|apply shaped_full| |done].
  2: { rewrite length_zip_with, column_length.
       rewrite (shaped_nth _ _ _ _ Hini) by lia. destruct Hem. lia. }
  cbn [bind]. reflexivity.
Qed.

Lemma start_spec_filled : filled h ex 1 (start_spec h ex).
Proof.
  pose proof Hwf as [_ _ _ Hini Hem _].
  split; [|split]; cbn [fst snd start_spec].
  - apply set_column_shaped; [apply shaped_full|].
    rewrite length_zip_with, column_length.
    rewrite (shaped_nth _ _ _ _ Hini) by lia. destruct Hem. lia.
  - apply shaped_full.
  - intros r c Hc. lia.
Qed.

Lemma viterbi_start_filled :
  exists st, viterbi_start h ex = Ok st /\ filled h ex 1 st.
Proof.
  exists (start_spec h ex). split; [apply viterbi_start_spec | apply start_spec_filled].
Qed.

Lemma column_spec_filled (st : list (list num) * list (list Z)) (n : nat) :
  (1 <= n < length ex)%nat -> filled h ex n st ->
  filled h ex (S n) (column_spec h ex st n).
Proof.
  intros Hn (Ht & Hb & Hvalid). unfold column_spec.
  set (w := Z.to_nat (nth n ex 0)).
  set (xs := map (cands h st.1 n w) (seq 0 (length (states h)))).
  assert (length xs = length (states h)) as Hxs
    by (unfold xs; by rewrite length_map, length_seq).
  split; [|split]; cbn [fst snd].
  - apply set_column_shaped; [done|]. by rewrite length_map.
  - apply set_column_shaped; [done|]. by rewrite length_map.
  - intros r c Hc Hr. destruct (decide (c = n)) as [->|Hne].
    + rewrite (cell_set_column_eq _ _ _ _ _ _ _ Hb); [|by rewrite length_map|done|lia].
      rewrite (nth_map_lt _ _ _ _ []) by lia.
      unfold xs. rewrite (nth_map_lt _ _ _ _ 0%nat) by (rewrite length_seq; lia).
      rewrite seq_nth by lia. simpl.
      pose proof (argmax_of_range (cands h st.1 n w r)) as Hrange.
      assert (length (cands h st.1 n w r) = length (states h)) as Hlen
        by (unfold cands; by rewrite length_map, length_seq).
      rewrite Hlen in Hrange. apply Hrange.
      intros Hnil. rewrite Hnil in Hlen. simpl in Hlen. lia.
    + rewrite cell_set_column_ne; [|rewrite length_map; destruct Hb; lia|done].
      apply Hvalid; lia.
Qed.

Lemma columns_filled (p : nat) (st0 : list (list num) * list (list Z)) :
  (1 <= p <= length ex)%nat -> filled h ex 1 st0 ->
  exists st,
    foldM (viterbi_column h ex) (range 1 p) st0 = Ok st /\
    foldM (fast_viterbi_column h ex) (range 1 p) st0 = Ok st /\
    filled h ex p st.
Proof.
  intros Hp Hst0. induction p as [|p IH]; [lia|].
  destruct (decide (p = 0%nat)) as [->|Hp0].
  - exists st0. split; [done|]. split; done.
  - destruct IH as (st & Hloop & Hfast & Hst); [lia|].
    rewrite range_S by lia. rewrite !foldM_app, Hloop, Hfast. cbn [bind foldM].
    exists (column_spec h ex st p). destruct st as [trellis back_pointers].
    pose proof Hst as (Ht & Hb & _).
    rewrite viterbi_column_spec, fast_viterbi_column_spec;
      try done; try lia; try (apply word_in_range; lia).
    split; [done|]. split; [done|]. apply column_spec_filled; [lia | done].
Qed.

(** Both decoders hand the same trellis and the same back pointers to
    [extract_output]. *)
Lemma fills_agree :
  exists st,
    viterbi_fill h ex = Ok st /\
    fast_viterbi_fill h ex = Ok st /\
    filled h ex (length ex) st.
Proof.
  destruct viterbi_start_filled as (st0 & Hstart & Hst0).
  unfold viterbi_fill, fast_viterbi_fill. rewrite Hstart. cbn [bind].
  apply columns_filled; [|done]. destruct ex; [done | simpl; lia].
Qed.

End Fill.

(** ** Path extraction *)

Lemma rev_seq_1 (k : nat) :
  (1 <= k)%nat -> rev (seq 1 k) = k :: rev (seq 1 (k - 1)).
Proof.
  intros Hk. destruct k as [|k]; [lia|].
  rewrite seq_S, rev_app_distr, Nat.sub_succ, Nat.sub_0_r. done.
Qed.

Section Extract.
Context {num : Type} `{Numeric num}.
Variables (h : HMM num) (ex : list Z).
Variables (trellis : list (list num)) (back_pointers : list (list Z)).
Hypothesis HS : states h <> [].
Hypothesis Hex : ex <> [].
Hypothesis Hfilled : filled h ex (length ex) (trellis, back_pointers).

Lemma extract_loop_spec (fuel : nat) (output : list Z) (reads : list (Z * Z)) :
  output <> [] -> (length output <= length ex)%nat ->
  (length ex - length output <= fuel)%nat ->
  Forall (valid_state h) output ->
  exists out' reads',
    extract_loop fuel back_pointers ex output reads = Ok (out', reads ++ reads') /\
    length out' = length ex /\
    Forall (valid_state h) out' /\
    map snd reads' = map Z.of_nat (rev (seq 1 (length ex - length output))) /\
    Forall (fun rc => valid_state h rc.1) reads'.
Proof.
  destruct Hfilled as (_ & Hb & Hvalid). cbn [fst snd] in Hb, Hvalid.
  revert output reads.
  induction fuel as [|fuel IH]; intros output reads Hne Hle Hfuel Hout.
  - assert (length output = length ex) as Hlen by lia.
    exists output, []. simpl. rewrite decide_False by lia.
    rewrite app_nil_r, Hlen, Nat.sub_diag.
    split; [done|]. split; [done|]. split; [done|]. split; [done | constructor].
  - cbn [extract_loop]. case_decide as Hlt.
    + induction output as [|x0 o _] using rev_ind; [done|].
      rewrite getitem_last. cbn [bind].
      assert (valid_state h x0) as Hx.
      { apply (proj1 (Forall_forall _ _) Hout). apply elem_of_app. right.
        by apply list_elem_of_singleton. }
      unfold valid_state in Hx.
      rewrite length_app in *. simpl in *.
      set (c := (length ex - (length o + 1))%nat).
      replace (Z.of_nat (length ex) - Z.of_nat (length o + 1)) with (Z.of_nat c)
        by (unfold c; lia).
      replace (getitem2 back_pointers x0 (Z.of_nat c))
        with (getitem2 back_pointers (Z.of_nat (Z.to_nat x0)) (Z.of_nat c))
        by (by rewrite Z2Nat.id by lia).
      rewrite (getitem2_total (-1) back_pointers (Z.to_nat x0) c).
      2: { destruct Hb. lia. }
      2: { rewrite (shaped_nth _ _ _ _ Hb) by lia. unfold c. lia. }
      cbn [bind].
      set (p := cell (-1) back_pointers (Z.to_nat x0) c).
      assert (valid_state h p) as Hp by (apply Hvalid; unfold c; lia).
      destruct (IH ((o ++ [x0]) ++ [p]) (reads ++ [(x0, Z.of_nat c)]))
        as (out' & reads' & Hloop & Hlen & Hall & Hcols & Hrows).
      * by destruct o.
      * rewrite !length_app. simpl. lia.
      * rewrite !length_app. simpl. lia.
      * apply Forall_app. split; [done|]. by constructor.
      * exists out', ((x0, Z.of_nat c) :: reads').
        rewrite Hloop, <- app_assoc. simpl. repeat split; try done.
        -- rewrite Hcols, !length_app. cbn [length].
           replace (length ex - (length o + 1 + 1))%nat with (c - 1)%nat
             by (unfold c; lia).
           rewrite (rev_seq_1 c) by (unfold c; lia). done.
        -- constructor; [|done]. done.
    + exists output, []. rewrite app_nil_r.
      replace (length ex - length output)%nat with 0%nat by lia.
      split; [done|]. split; [lia|]. split; [done|]. split; [done | constructor].
Qed.

Lemma last_column (d : num) :
  getcol trellis (-1) = Ok (column d trellis (length ex - 1)) /\
  column d trellis (length ex - 1) <> [].
Proof.
  destruct Hfilled as (Ht & _). cbn [fst] in Ht. split.
  - apply (getcol_last d _ _ _ Ht). destruct ex; [done | simpl; lia].
  - intros Hnil. apply (f_equal length) in Hnil. rewrite column_length in Hnil.
    destruct Ht as [Hlen _]. rewrite Hlen in Hnil. by destruct (states h).
Qed.

(** The walk along the back pointers ends, reads them at the columns
    [len(ex) - 1] down to 1 and nowhere else, and yields states only. *)
Lemma extract_path_spec :
  exists path reads,
    extract_path trellis back_pointers ex = Ok (path, reads) /\
    length path = length ex /\
    Forall (valid_state h) path /\
    map snd reads = map Z.of_nat (rev (seq 1 (length ex - 1))) /\
    Forall (fun rc => valid_state h rc.1) reads.
Proof.
  destruct (last_column (of_Z 0)) as [Hcol Hne].
  unfold extract_path. rewrite Hcol. cbn [bind].
  rewrite (np_argmax_of _ Hne). cbn [bind].
  pose proof (argmax_of_range _ Hne) as Ha. rewrite column_length in Ha.
  destruct Hfilled as (Ht & _). cbn [fst] in Ht. destruct Ht as [Hlen _].
  rewrite Hlen in Ha.
  destruct (extract_loop_spec (length ex) [argmax_of (column (of_Z 0) trellis (length ex - 1))] [])
    as (out' & reads' & Hloop & Hrest); try done.
  - simpl. destruct ex; [done | simpl; lia].
  - simpl. lia.
  - by constructor.
  - exists out', reads'. by rewrite Hloop.
Qed.

Lemma extract_output_spec (ws : list string) :
  mapM (fun i => getitem (i2w h) i) ex = Ok ws ->
  exists tagged log_prob,
    extract_output h trellis back_pointers ex = Ok (tagged, log_prob) /\
    map fst tagged = ws.
Proof.
  intros Hws. destruct (last_column (of_Z 0)) as [Hcol Hne].
  destruct extract_path_spec as (path & reads & Hpath & Hlen & Hall & _).
  unfold extract_output. rewrite Hcol. cbn [bind].
  rewrite (np_max_of _ Hne). cbn [bind]. rewrite Hpath. cbn [bind fst].
  destruct (tag_output_total h ex (rev path) ws Hws) as (tagged & -> & Hfst & _).
  - by rewrite length_rev.
  - by apply Forall_rev.
  - cbn [bind]. eauto.
Qed.

End Extract.

(** ** The decoders on a trained model *)

Section Decode.
Context {num : Type} `{Numeric num}.
Variables (h : HMM num) (ex : list string).
Hypothesis Hwf : wf_hmm h.
Hypothesis HS : states h <> [].
Hypothesis Hex : ex <> [].

(** What the two Viterbi decoders do on a non-empty sentence: they encode
    it, fill the same matrices, walk the same path and return the same
    tagged sentence with the same log-probability. *)
Lemma viterbi_run :
  exists ids trellis back_pointers path reads tagged log_prob,
    data2i_words h [ex] = Ok [ids] /\
    length ids = length ex /\
    viterbi_fill h ids = Ok (trellis, back_pointers) /\
    fast_viterbi_fill h ids = Ok (trellis, back_pointers) /\
    extract_path trellis back_pointers ids = Ok (path, reads) /\
    length path = length ex /\
    Forall (valid_state h) path /\
    map snd reads = map Z.of_nat (rev (seq 1 (length ex - 1))) /\
    viterbi_decode h ex = Ok (tagged, log_prob) /\
    fast_viterbi_decode h ex = Ok (tagged, log_prob) /\
    map fst tagged = map (shown h) ex.
Proof.
  destruct (data2i_words_wf h ex Hwf Hex) as (ids & Hd & Hlen & Hids & Hws).
  assert (ids <> []) as Hne by (intros ->; by destruct ex).
  destruct (fills_agree h ids Hwf Hne Hids) as ([trellis back_pointers] & Hloop & Hfast & Hf).
  destruct (extract_path_spec h ids trellis back_pointers HS Hne Hf)
    as (path & reads & Hpath & Hplen & Hpall & Hcols & _).
  destruct (extract_output_spec h ids trellis back_pointers HS Hne Hf _ Hws)
    as (tagged & log_prob & Hout & Hfst).
  exists ids, trellis, back_pointers, path, reads, tagged, log_prob.
  unfold viterbi_decode, fast_viterbi_decode.
  rewrite Hd. cbn [bind]. rewrite getitem_head. cbn [bind].
  rewrite Hloop, Hfast. cbn [bind fst snd]. rewrite <- Hlen.
  by repeat split.
Qed.

End Decode.

(** C1. On a trained model and a non-empty sentence the vectorized
    decoder and the loop decoder both return, and they agree on the
    trellis, on the back pointers (so on every choice between equal
    candidates), on the tagged sentence and on its log-probability. *)
Theorem viterbi_decoders_agree {num : Type} `{Numeric num} (h : HMM num)
  (ex : list string) :
  trained h -> ex <> [] ->
  exists ids trellis back_pointers tagged log_prob,
    data2i_words h [ex] = Ok [ids] /\
    viterbi_fill h ids = Ok (trellis, back_pointers) /\
    fast_viterbi_fill h ids = Ok (trellis, back_pointers) /\
    viterbi_decode h ex = Ok (tagged, log_prob) /\
    fast_viterbi_decode h ex = Ok (tagged, log_prob).
Proof.
  intros [Hwf HS]%trained_wf Hex.
  destruct (viterbi_run h ex Hwf HS Hex)
    as (ids & trellis & back_pointers & path & reads & tagged & log_prob &
        Hd & _ & Hloop & Hfast & _ & _ & _ & _ & Hv & Hf & _).
  by exists ids, trellis, back_pointers, tagged, log_prob.
Qed.

Lemma viterbi_decoders_agree_witness :
  exists h : HMM xreal,
    train (HMM_init ["the"; "dog"; "barks"] ["DET"; "NOUN"; "VERB"])
      [[("the", "DET"); ("dog", "NOUN"); ("barks", "VERB")]] = Ok h /\
    exists ids trellis back_pointers tagged log_prob,
      data2i_words h [["the"; "dog"; "barks"]] = Ok [ids] /\
      viterbi_fill h ids = Ok (trellis, back_pointers) /\
      fast_viterbi_fill h ids = Ok (trellis, back_pointers) /\
      viterbi_decode h ["the"; "dog"; "barks"] = Ok (tagged, log_prob) /\
      fast_viterbi_decode h ["the"; "dog"; "barks"] = Ok (tagged, log_prob).
Proof.
  eexists. split; [vm_compute; reflexivity|].
  apply viterbi_decoders_agree; [|discriminate].
  exists ["the"; "dog"; "barks"], ["DET"; "NOUN"; "VERB"],
    [[("the", "DET"); ("dog", "NOUN"); ("barks", "VERB")]].
  vm_compute. reflexivity.
Defined.

(** C2, as the code has it. On a trained model and a non-empty sentence
    each decoder returns a tagged sentence that shows, position by
    position, every word of the vocabulary (the unknown symbol included)
    as it was given and every other word as [UNK]. *)
Theorem decoders_show_words {num : Type} `{Numeric num} (h : HMM num)
  (ex : list string) :
  trained h -> ex <> [] ->
  exists g v f lg lv lf,
    greedy_decode h ex = Ok (g, lg) /\
    viterbi_decode h ex = Ok (v, lv) /\
    fast_viterbi_decode h ex = Ok (f, lf) /\
    map fst g = map (fun w => if decide (w ∈ emissions h) then w else UNK) ex /\
    map fst v = map (fun w => if decide (w ∈ emissions h) then w else UNK) ex /\
    map fst f = map (fun w => if decide (w ∈ emissions h) then w else UNK) ex.
Proof.
  intros [Hwf HS]%trained_wf Hex.
  destruct (greedy_decode_words h ex Hwf HS Hex) as (g & lg & Hg & Hgw).
  destruct (viterbi_run h ex Hwf HS Hex)
    as (ids & trellis & back_pointers & path & reads & tagged & log_prob &
        _ & _ & _ & _ & _ & _ & _ & _ & Hv & Hf & Hw).
  by exists g, tagged, tagged, lg, log_prob, log_prob.
Qed.

Lemma decoders_show_words_witness :
  exists h : HMM xreal,
    train (HMM_init ["a"] ["T"]) [[("a", "T")]] = Ok h /\
    exists g v f lg lv lf,
      greedy_decode h ["a"; "zzz"] = Ok (g, lg) /\
      viterbi_decode h ["a"; "zzz"] = Ok (v, lv) /\
      fast_viterbi_decode h ["a"; "zzz"] = Ok (f, lf) /\
      map fst g = map (fun w => if decide (w ∈ emissions h) then w else UNK) ["a"; "zzz"] /\
      map fst v = map (fun w => if decide (w ∈ emissions h) then w else UNK) ["a"; "zzz"] /\
      map fst f = map (fun w => if decide (w ∈ emissions h) then w else UNK) ["a"; "zzz"].
Proof.
  eexists. split; [vm_compute; reflexivity|].
  apply decoders_show_words; [|discriminate].
  exists ["a"], ["T"], [[("a", "T")]]. vm_compute. reflexivity.
Defined.

(** C2 as stated fails: a word that is not in the vocabulary comes back
    as [UNK]. *)
Lemma decoders_unknown_word_counterexample :
  exists (h : HMM xreal) tagged log_prob,
    train (HMM_init ["a"] ["T"]) [[("a", "T")]] = Ok h /\
    viterbi_decode h ["zzz"] = Ok (tagged, log_prob) /\
    map fst tagged = ["<UNK>"] /\
    map fst tagged <> ["zzz"].
Proof.
  assert (exists h : HMM xreal, train (HMM_init ["a"] ["T"]) [[("a", "T")]] = Ok h)
    as [h Hh] by (eexists; vm_compute; reflexivity).
  assert (trained h) as [Hwf HS]%trained_wf by (by exists ["a"], ["T"], [[("a", "T")]]).
  destruct (viterbi_run h ["zzz"] Hwf HS)
    as (ids & trellis & back_pointers & path & reads & tagged & log_prob &
        _ & _ & _ & _ & _ & _ & _ & _ & Hv & _ & Hw); [done|].
  destruct (train_frame _ _ _ Hh) as (He & _).
  assert (map fst tagged = ["<UNK>"]) as Hunk.
  { rewrite Hw. unfold shown. rewrite He. reflexivity. }
  exists h, tagged, log_prob. rewrite Hunk. by repeat split.
Qed.

(** C10. On a trained model and a non-empty sentence, path extraction
    walks the completed matrices of either decoder reading the back
    pointers at the columns [T - 1] down to 1 and at no other column, in
    particular never at column 0, and every state of the path it yields
    is a state of the model, so never the sentinel [-1]. *)
Theorem extraction_reads_valid_columns {num : Type} `{Numeric num} (h : HMM num)
  (ex : list string) :
  trained h -> ex <> [] ->
  exists ids trellis back_pointers path reads,
    data2i_words h [ex] = Ok [ids] /\
    viterbi_fill h ids = Ok (trellis, back_pointers) /\
    fast_viterbi_fill h ids = Ok (trellis, back_pointers) /\
    extract_path trellis back_pointers ids = Ok (path, reads) /\
    map snd reads = map Z.of_nat (rev (seq 1 (length ex - 1))) /\
    Forall (fun rc => 1 <= rc.2 <= Z.of_nat (length ex) - 1) reads /\
    length path = length ex /\
    Forall (fun s => 0 <= s < Z.of_nat (length (states h))) path /\
    -1 ∉ path.
Proof.
  intros [Hwf HS]%trained_wf Hex.
  destruct (viterbi_run h ex Hwf HS Hex)
    as (ids & trellis & back_pointers & path & reads & tagged & log_prob &
        Hd & _ & Hloop & Hfast & Hpath & Hlen & Hall & Hcols & _).
  exists ids, trellis, back_pointers, path, reads.
  repeat split; try done.
  - apply Forall_forall. intros [r c] Hrc. cbn [snd].
    assert (c ∈ map snd reads) as Hc.
    { apply list_elem_of_fmap. by exists (r, c). }
    rewrite Hcols in Hc. apply list_elem_of_fmap in Hc as (k & -> & Hk).
    apply list_elem_of_In, in_rev, list_elem_of_In, elem_of_seq in Hk. lia.
  - intros Hin. rewrite Forall_forall in Hall. apply Hall in Hin.
    unfold valid_state in Hin. lia.
Qed.

Lemma extraction_reads_valid_columns_witness :
  exists h : HMM xreal,
    train (HMM_init ["the"; "dog"; "barks"] ["DET"; "NOUN"; "VERB"])
      [[("the", "DET"); ("dog", "NOUN"); ("barks", "VERB")]] = Ok h /\
    exists ids trellis back_pointers path reads,
      data2i_words h [["the"; "dog"; "barks"]] = Ok [ids] /\
      viterbi_fill h ids = Ok (trellis, back_pointers) /\
      fast_viterbi_fill h ids = Ok (trellis, back_pointers) /\
      extract_path trellis back_pointers ids = Ok (path, reads) /\
      map snd reads = [2; 1] /\
      Forall (fun rc => 1 <= rc.2 <= 2) reads /\
      length path = 3%nat /\
      Forall (fun s => 0 <= s < Z.of_nat (length (states h))) path /\
      -1 ∉ path.
Proof.
  eexists. split; [vm_compute; reflexivity|].
  apply (extraction_reads_valid_columns _ ["the"; "dog"; "barks"]); [|discriminate].
  exists ["the"; "dog"; "barks"], ["DET"; "NOUN"; "VERB"],
    [[("the", "DET"); ("dog", "NOUN"); ("barks", "VERB")]].
  vm_compute. reflexivity.
Defined.

(** ** What [train] computes *)

Lemma insert_fmap_take_drop {A : Type} (f : A -> A) (m : list A) (p : nat) (x : A) :
  m !! p = Some x ->
  <[p:=f x]> (map f (take p m) ++ drop p m) = map f (take (S p) m) ++ drop (S p) m.
Proof.
  intros Hx. rewrite (take_S_r m p x Hx), (drop_S m x p Hx), map_app. simpl.
  assert (length (map f (take p m)) = p) as Hlen.
  { rewrite length_map, length_take. apply lookup_lt_Some in Hx. lia. }
  rewrite insert_app_r_alt by lia. rewrite Hlen, Nat.sub_diag. simpl.
  by rewrite <- app_assoc.
Qed.

Section TrainSpec.
Context {num : Type} `{Numeric num}.

Lemma normalize_rows_prefix (m : list (list num)) (p : nat) :
  (p <= length m)%nat ->
  foldM (fun m i => row <- getitem m i ;; setitem m i (log2_div row (np_sum row)))
        (range 0 p) m =
  Ok (map normalize_row (take p m) ++ drop p m).
Proof.
  induction p as [|p IH]; intros Hp; [done|].
  rewrite range_S by lia. rewrite foldM_app, IH by lia. cbn [bind foldM].
  destruct (lookup_lt_is_Some_2 m p) as [row Hrow]; [lia|].
  assert ((map normalize_row (take p m) ++ drop p m) !! p = Some row) as Hp'.
  { rewrite lookup_app_r; rewrite length_map, length_take; [|lia].
    replace (p - p `min` length m)%nat with 0%nat by lia.
    by rewrite lookup_drop, Nat.add_0_r. }
  rewrite (getitem_nat _ _ _ Hp'). cbn [bind].
  unfold setitem. rewrite norm_index_nat.
  2: { apply lookup_lt_Some in Hp'. done. }
  cbn [bind]. f_equal. by apply (insert_fmap_take_drop normalize_row).
Qed.

Lemma normalize_rows_map (m : list (list num)) :
  normalize_rows m = Ok (map normalize_row m).
Proof.
  unfold normalize_rows. rewrite normalize_rows_prefix by lia.
  by rewrite firstn_all, skipn_all, app_nil_r.
Qed.

(** The tables of the trained model, from the counts. *)
Lemma train_tables (h h1 : HMM num) data :
  train h data = Ok h1 ->
  exists idx t,
    data2i_pairs h data = Ok idx /\
    foldM train_sentence idx
      {| t_init := fill_zero (init_prob h);
         t_emission := fill_zero (emission_prob h);
         t_transition := fill_zero (transition_prob h) |} = Ok t /\
    init_prob h1 = map (fun row => log2_div row (np_sum (concat (add_one (t_init t)))))
                       (add_one (t_init t)) /\
    emission_prob h1 = map normalize_row (add_one (t_emission t)) /\
    transition_prob h1 = map normalize_row (add_one (t_transition t)).
Proof.
  unfold train. intros Ht. inv_bind Ht as idx Hidx. inv_bind Ht as t Hcount.
  rewrite !normalize_rows_map in Ht. cbn [bind] in Ht. inversion Ht; subst.
  exists idx, t. by repeat split.
Qed.

End TrainSpec.

(** ** Counts and probabilities in exact arithmetic *)

Section Counts.
Open Scope R_scope.

Lemma is_count_zero : is_count (of_Z 0).
Proof. by exists 0%nat. Qed.

Lemma is_count_incr (x : xreal) : is_count x -> pos_count (add x (of_Z 1)).
Proof.
  intros [n ->]. exists (S n). split; [lia|]. by rewrite S_INR.
Qed.

Lemma pos_count_is_count (x : xreal) : pos_count x -> is_count x.
Proof. intros (n & _ & ->). by exists n. Qed.

Lemma ln_2_pos : 0 < ln 2.
Proof. rewrite <- ln_1. apply ln_increasing; lra. Qed.

Lemma Rpower_2_log2R (q : R) : 0 < q -> Rpower 2 (log2R q) = q.
Proof.
  intros Hq. unfold Rpower, log2R.
  replace (ln q / ln 2 * ln 2) with (ln q) by (field; pose proof ln_2_pos; lra).
  by apply exp_ln.
Qed.

Lemma log2R_nonpos (q : R) : 0 < q <= 1 -> log2R q <= 0.
Proof.
  intros [Hq Hq1]. unfold log2R. pose proof ln_2_pos as H2.
  assert (ln q <= 0) as Hln.
  { rewrite <- ln_1. destruct Hq1 as [Hlt | ->]; [|lra].
    left. by apply ln_increasing. }
  apply Rmult_le_reg_r with (ln 2); [done|].
  replace (ln q / ln 2 * ln 2) with (ln q) by (field; lra). lra.
Qed.

Lemma div_fin (a b : R) : b <> 0 -> div (Fin a) (Fin b) = Fin (a / b).
Proof. intros Hb. simpl. by destruct (Req_dec_T b 0). Qed.

Lemma log2_fin (q : R) : 0 < q -> log2 (Fin q) = Fin (log2R q).
Proof. intros Hq. simpl. by destruct (Rlt_dec 0 q). Qed.

(** A row of counts is the image of a list of natural numbers. *)
Lemma counts_of_row (P : nat -> Prop) (row : list xreal) :
  Forall (fun x => exists n, P n /\ x = Fin (INR n)) row ->
  exists ns, Forall P ns /\ row = map (fun n => Fin (INR n)) ns.
Proof.
  induction 1 as [|x row (n & Hn & ->) _ (ns & Hns & ->)].
  - by exists [].
  - exists (n :: ns). split; [by constructor | done].
Qed.

Lemma np_sum_counts (ns : list nat) (a : nat) :
  fold_left add (map (fun n => Fin (INR n)) ns) (Fin (INR a)) =
  Fin (INR (a + list_sum ns)).
Proof.
  revert a. induction ns as [|n ns IH]; intros a; simpl.
  - by rewrite Nat.add_0_r.
  - rewrite <- plus_INR, IH. do 2 f_equal. lia.
Qed.

Lemma np_sum_quotients (ns : list nat) (d a : R) :
  fold_left add (map (fun n => Fin (INR n / d)) ns) (Fin a) =
  Fin (a + INR (list_sum ns) / d).
Proof.
  revert a. induction ns as [|n ns IH]; intros a; simpl.
  - f_equal. unfold Rdiv. lra.
  - rewrite IH. f_equal. rewrite plus_INR. unfold Rdiv. lra.
Qed.

Lemma list_sum_ge (ns : list nat) (n : nat) : n ∈ ns -> (n <= list_sum ns)%nat.
Proof.
  induction ns as [|m ns IH]; intros Hn; [by apply elem_of_nil in Hn|].
  simpl. apply elem_of_cons in Hn as [->|Hn]; [lia|]. apply IH in Hn. lia.
Qed.

(** Normalizing a non-empty row of positive counts gives logarithms of
    probabilities: finite, not above 0, and with powers of 2 that sum
    to 1. *)
Lemma normalize_row_counts (row : list xreal) :
  row <> [] -> Forall pos_count row ->
  np_sum (map exp2 (normalize_row row)) = Fin 1 /\
  Forall (fun x => exists r, x = Fin r /\ r <= 0) (normalize_row row).
Proof.
  intros Hne Hrow.
  destruct (counts_of_row (fun n => (1 <= n)%nat) row Hrow) as (ns & Hns & ->).
  set (total := list_sum ns).
  assert (1 <= total)%nat as Htotal.
  { destruct ns as [|n ns]; [done|]. apply Forall_cons in Hns as [Hn _].
    unfold total. simpl. lia. }
  assert (0 < INR total) as Hpos by (apply lt_0_INR; lia).
  assert (np_sum (map (fun n => Fin (INR n)) ns) = Fin (INR total)) as Hsum.
  { unfold np_sum. change (of_Z 0) with (Fin (INR 0)). by rewrite np_sum_counts. }
  assert (normalize_row (map (fun n => Fin (INR n)) ns) =
          map (fun n => Fin (log2R (INR n / INR total))) ns) as ->.
  { unfold normalize_row, log2_div. rewrite Hsum, map_map.
    apply map_ext_in. intros n Hn. apply list_elem_of_In in Hn.
    rewrite Forall_forall in Hns. specialize (Hns n Hn).
    rewrite div_fin by lra. apply log2_fin.
    apply Rdiv_lt_0_compat; [apply lt_0_INR; lia | done]. }
  split.
  - rewrite map_map.
    assert (map (fun n => exp2 (Fin (log2R (INR n / INR total)))) ns =
            map (fun n => Fin (INR n / INR total)) ns) as ->.
    { apply map_ext_in. intros n Hn. apply list_elem_of_In in Hn.
      rewrite Forall_forall in Hns. specialize (Hns n Hn). simpl. f_equal.
      apply Rpower_2_log2R. apply Rdiv_lt_0_compat; [apply lt_0_INR; lia | done]. }
    unfold np_sum. change (of_Z 0) with (Fin 0).
    rewrite np_sum_quotients. f_equal. fold total. field. lra.
  - apply Forall_forall. intros x Hx.
    apply list_elem_of_fmap in Hx as (n & -> & Hn).
    eexists. split; [done|]. apply log2R_nonpos.
    rewrite Forall_forall in Hns. pose proof (Hns n Hn) as Hn1.
    pose proof (list_sum_ge ns n Hn) as Hle. fold total in Hle.
    split.
    + apply Rdiv_lt_0_compat; [apply lt_0_INR; lia | done].
    + apply Rmult_le_reg_r with (INR total); [done|].
      replace (INR n / INR total * INR total) with (INR n) by (field; lra).
      rewrite Rmult_1_l. by apply le_INR.
Qed.

End Counts.

(** ** The trained tables hold logarithms of probabilities *)

Section TrainedValues.

Lemma fill_zero_counts (m : list (list xreal)) : Forall (Forall is_count) (fill_zero m).
Proof.
  unfold fill_zero. apply Forall_forall. intros row Hrow.
  apply list_elem_of_fmap in Hrow as (row0 & -> & _).
  apply Forall_forall. intros x Hx. apply list_elem_of_fmap in Hx as (x0 & -> & _).
  apply is_count_zero.
Qed.

Lemma incr_counts (m m' : list (list xreal)) (r c : Z) :
  Forall (Forall is_count) m -> incr m r c = Ok m' -> Forall (Forall is_count) m'.
Proof.
  intros Hm Hincr. unfold incr in Hincr. inv_bind Hincr as v Hv.
  apply setitem2_Ok_inv in Hincr as (k & row & j & _ & Hrow & _ & ->).
  assert (Forall is_count row) as Hr.
  { rewrite Forall_forall in Hm. apply Hm. by eapply list_elem_of_lookup_2. }
  assert (is_count v) as Hcv.
  { unfold getitem2 in Hv. inv_bind Hv as row' Hrow'.
    apply getitem_elem_of in Hrow', Hv.
    rewrite Forall_forall in Hm. specialize (Hm row' Hrow').
    rewrite Forall_forall in Hm. by apply Hm. }
  apply Forall_insert; [done|]. apply Forall_insert; [done|].
  by apply pos_count_is_count, is_count_incr.
Qed.

Lemma train_step_counts st ws st' :
  tcounts st.1 -> train_step st ws = Ok st' -> tcounts st'.1.
Proof.
  destruct st as [t flag], ws as [word state]. unfold train_step. cbn [fst].
  intros (Hi & He & Ht) Hs. inv_bind Hs as em Hem.
  apply (incr_counts _ _ _ _ He) in Hem.
  inv_bind Hs as st1 Hst1. destruct st1 as [t1 flag1].
  assert (tcounts t1) as (Hi1 & He1 & Ht1).
  { destruct (decide (flag <> -1)).
    - inv_bind Hst1 as tr Htr. inversion Hst1; subst.
      apply (incr_counts _ _ _ _ Ht) in Htr. by repeat split.
    - inversion Hst1; subst. by repeat split. }
  destruct (decide (flag1 = -1)).
  - inv_bind Hs as ini Hini. inversion Hs; subst.
    apply (incr_counts _ _ _ _ Hi1) in Hini. by repeat split.
  - inversion Hs; subst. by repeat split.
Qed.

Lemma train_sentence_counts t sentence t' :
  tcounts t -> train_sentence t sentence = Ok t' -> tcounts t'.
Proof.
  unfold train_sentence. intros Ht Hs. inv_bind Hs as st Hst. inversion Hs; subst.
  eapply (foldM_invariant (fun st => tcounts st.1)) in Hst; [done| |done].
  intros s x s' Hs' Hstep. by eapply train_step_counts.
Qed.

Lemma add_one_counts (m : list (list xreal)) :
  Forall (Forall is_count) m -> Forall (Forall pos_count) (add_one m).
Proof.
  intros Hm. unfold add_one. apply Forall_forall. intros row Hrow.
  apply list_elem_of_fmap in Hrow as (row0 & -> & Hrow0).
  rewrite Forall_forall in Hm. specialize (Hm row0 Hrow0).
  apply Forall_forall. intros x Hx. apply list_elem_of_fmap in Hx as (x0 & -> & Hx0).
  apply is_count_incr. rewrite Forall_forall in Hm. by apply Hm.
Qed.

(** Every row of a trained table is a normalized row of positive
    counts, and is not empty. *)
Lemma trained_rows (h : HMM xreal) (row : list xreal) :
  trained h ->
  row ∈ init_prob h ++ emission_prob h ++ transition_prob h ->
  exists row0, row0 <> [] /\ Forall pos_count row0 /\ row = normalize_row row0.
Proof.
  intros Htr Hrow. destruct (trained_wf h Htr) as [Hwf HS].
  destruct Htr as (emissions0 & states0 & data & Ht).
  destruct (train_tables _ _ _ Ht) as (idx & t & _ & Hcount & Hini & Hem & Htrans).
  assert (tcounts t) as (Hci & Hce & Hct).
  { eapply (foldM_invariant tcounts) in Hcount; [done| |].
    - intros s x s' Hs Hstep. by eapply train_sentence_counts.
    - split; [|split]; cbn [t_init t_emission t_transition]; apply fill_zero_counts. }
  apply add_one_counts in Hci, Hce, Hct.
  destruct Hwf as [_ _ Hunk Hsi Hse Hst].
  assert (0 < length (states h))%nat as HSpos by (destruct (states h); [done | simpl; lia]).
  assert (0 < length (emissions h))%nat as HVpos.
  { destruct (emissions h); [by apply elem_of_nil in Hunk | simpl; lia]. }
  assert (forall (m : list (list xreal)) c, (0 < c)%nat ->
            Forall (fun r => length r = c) (map normalize_row m) ->
            Forall (Forall pos_count) m -> row ∈ map normalize_row m ->
            exists row0, row0 <> [] /\ Forall pos_count row0 /\ row = normalize_row row0)
    as Hgen.
  { intros m c Hc Hlen Hm Hin. apply list_elem_of_fmap in Hin as (row0 & -> & Hrow0).
    exists row0. split; [|split; [|done]].
    - rewrite Forall_forall in Hlen.
      assert (length (normalize_row row0) = c) as Hl.
      { apply Hlen. apply list_elem_of_fmap. eauto. }
      unfold normalize_row in Hl. rewrite log2_div_length in Hl.
      intros ->. simpl in Hl. lia.
    - rewrite Forall_forall in Hm. by apply Hm. }
  apply elem_of_app in Hrow as [Hrow | Hrow]; [|apply elem_of_app in Hrow as [Hrow | Hrow]].
  - destruct Hsi as [Hlen Hall].
    destruct (add_one (t_init t)) as [|row0 [|? ?]] eqn:Hadd;
      rewrite Hini in Hlen; simpl in Hlen; try lia.
    rewrite Hini in Hrow, Hall. simpl in Hrow, Hall. rewrite app_nil_r in Hrow, Hall.
    apply list_elem_of_singleton in Hrow as ->.
    apply Forall_cons in Hall as [Hl _]. rewrite log2_div_length in Hl.
    apply Forall_cons in Hci as [Hc0 _].
    exists row0. split; [|split; [done|done]].
    intros ->. simpl in Hl. lia.
  - rewrite Hem in Hrow, Hse. destruct Hse as [_ Hall].
    by apply (Hgen _ _ HVpos Hall Hce).
  - rewrite Htrans in Hrow, Hst. destruct Hst as [_ Hall].
    by apply (Hgen _ _ HSpos Hall Hct).
Qed.

End TrainedValues.

(** C4. In every trained model each row of the three tables, raised to
    the powers of 2, sums to 1, and every entry is a finite number (not
    an infinity, not NaN) that is at most 0: the row is [log2(c / sum)]
    of a row of counts [c] that are all at least 1 after add-one
    smoothing, so every entry is the logarithm of a positive
    probability. *)
Theorem trained_tables_normalized (h : HMM xreal) (row : list xreal) :
  trained h ->
  row ∈ init_prob h ++ emission_prob h ++ transition_prob h ->
  np_sum (map exp2 row) = Fin 1 /\
  Forall (fun x => exists r : R, x = Fin r /\ (r <= 0)%R) row /\
  exists counts,
    Forall (fun x => exists n : nat, (1 <= n)%nat /\ x = Fin (INR n)) counts /\
    row = map (fun x => log2 (div x (np_sum counts))) counts.
Proof.
  intros Htr Hrow.
  destruct (trained_rows h row Htr Hrow) as (row0 & Hne & Hpos & ->).
  destruct (normalize_row_counts row0 Hne Hpos) as [Hsum Hfin].
  split; [done|]. split; [done|]. by exists row0.
Qed.

Lemma trained_tables_normalized_witness :
  exists (h : HMM xreal) (row : list xreal),
    train (HMM_init ["the"; "dog"; "barks"] ["DET"; "NOUN"; "VERB"])
      [[("the", "DET"); ("dog", "NOUN"); ("barks", "VERB")]] = Ok h /\
    getitem (transition_prob h) 2 = Ok row /\
    np_sum (map exp2 row) = Fin 1 /\
    Forall (fun x => exists r : R, x = Fin r /\ (r <= 0)%R) row /\
    exists counts,
      Forall (fun x => exists n : nat, (1 <= n)%nat /\ x = Fin (INR n)) counts /\
      row = map (fun x => log2 (div x (np_sum counts))) counts.
Proof.
  eexists _, _. split; [vm_compute; reflexivity|]. split; [vm_compute; reflexivity|].
  eapply trained_tables_normalized.
  - exists ["the"; "dog"; "barks"], ["DET"; "NOUN"; "VERB"],
      [[("the", "DET"); ("dog", "NOUN"); ("barks", "VERB")]].
    vm_compute. reflexivity.
  - apply elem_of_app. right. apply elem_of_app. right. repeat constructor.
Defined.

(** ** The tiny supervised fit *)

Section TinyFit.
Open Scope R_scope.

Lemma log2R_half : log2R (2 / 4) = -1.
Proof.
  unfold log2R. replace (2 / 4) with (/ 2) by lra.
  rewrite ln_Rinv by lra. field. pose proof ln_2_pos. lra.
Qed.

Lemma log2R_quarter : log2R (1 / 4) = -2.
Proof.
  unfold log2R. replace (1 / 4) with (/ (2 * 2)) by lra.
  rewrite ln_Rinv by lra. rewrite ln_mult by lra. field. pose proof ln_2_pos. lra.
Qed.

(** Comparing powers of integers bounds a quotient of logarithms. *)
Lemma ln_lt_of_pow (a b : Z) (m n : nat) :
  (1 < a)%Z -> (1 < b)%Z -> (a ^ Z.of_nat m < b ^ Z.of_nat n)%Z ->
  INR m * ln (IZR a) < INR n * ln (IZR b).
Proof.
  intros Ha Hb Hlt.
  assert (0 < IZR a) as Ha0 by (apply IZR_lt; lia).
  assert (0 < IZR b) as Hb0 by (apply IZR_lt; lia).
  rewrite <- !ln_pow by done. apply ln_increasing.
  - by apply pow_lt.
  - rewrite !pow_IZR. by apply IZR_lt.
Qed.

Lemma ln_5_lower : 1832 * ln 2 < 789 * ln 5.
Proof.
  pose proof (ln_lt_of_pow 2 5 1832 789) as Hlt.
  rewrite !INR_IZR_INZ in Hlt. apply Hlt; [lia | lia |].
  vm_compute. reflexivity.
Qed.

Lemma ln_5_upper : 497 * ln 5 < 1154 * ln 2.
Proof.
  pose proof (ln_lt_of_pow 5 2 497 1154) as Hlt.
  rewrite !INR_IZR_INZ in Hlt. apply Hlt; [lia | lia |].
  vm_compute. reflexivity.
Qed.

Lemma log2R_two_fifths : Rabs (log2R (2 / 5) - -1.32193) < 0.000005.
Proof.
  unfold log2R. unfold Rdiv at 2. rewrite ln_mult, ln_Rinv by lra.
  pose proof ln_2_pos as H2. pose proof ln_5_lower as Hlo. pose proof ln_5_upper as Hhi.
  replace ((ln 2 + - ln 5) / ln 2) with (1 - ln 5 / ln 2) by (field; lra).
  assert (1832 / 789 < ln 5 / ln 2) as Hl.
  { apply Rmult_lt_reg_r with (ln 2); [done|].
    replace (ln 5 / ln 2 * ln 2) with (ln 5) by (field; lra). lra. }
  assert (ln 5 / ln 2 < 1154 / 497) as Hu.
  { apply Rmult_lt_reg_r with (ln 2); [done|].
    replace (ln 5 / ln 2 * ln 2) with (ln 5) by (field; lra). lra. }
  apply Rabs_def1; lra.
Qed.

Lemma normalize_row_fin (rs : list R) :
  0 < Rsum rs -> Forall (fun r => 0 < r) rs ->
  normalize_row (map Fin rs) = map (fun r => Fin (log2R (r / Rsum rs))) rs.
Proof.
  intros Hpos Hall.
  assert (forall a, fold_left add (map Fin rs) (Fin a) = Fin (a + Rsum rs)) as Hsum.
  { clear. induction rs as [|r rs IH]; intros a; simpl.
    - f_equal. lra.
    - rewrite IH. f_equal. lra. }
  unfold normalize_row, log2_div, np_sum. change (of_Z 0) with (Fin 0).
  rewrite Hsum, Rplus_0_l, map_map. apply map_ext_in. intros r Hr.
  apply list_elem_of_In in Hr. rewrite Forall_forall in Hall. specialize (Hall r Hr).
  rewrite div_fin by lra. apply log2_fin. by apply Rdiv_lt_0_compat.
Qed.

(** The smoothed count rows of the tiny fit, normalized. *)
Ltac normalize_tiny :=
  rewrite normalize_row_fin;
  [ cbv [map Rsum fold_right]; repeat f_equal; lra
  | cbv [Rsum fold_right]; lra
  | repeat constructor; lra ].

(** C3. Training on the one sentence the/DET dog/NOUN barks/VERB gives
    the tables of the specification: the emission row of DET is the
    logarithm of [2,1,1,1]/5, the transition row of DET that of [1,2,1]/4,
    the transition row of VERB that of [1,1,1]/3 and the initial row that
    of [2,1,1]/4; and P(the|DET) = 0.4 has logarithm -1.32193 to five
    decimals, 0.5 has logarithm -1 and 0.25 has logarithm -2. *)
Theorem tiny_supervised_fit :
  exists h : HMM xreal,
    train (HMM_init ["the"; "dog"; "barks"] ["DET"; "NOUN"; "VERB"])
      [[("the", "DET"); ("dog", "NOUN"); ("barks", "VERB")]] = Ok h /\
    i2w h = ["the"; "dog"; "barks"; UNK] /\
    i2s h = ["DET"; "NOUN"; "VERB"] /\
    getitem (emission_prob h) 0%Z =
      Ok (map (fun p => Fin (log2R p)) [2 / 5; 1 / 5; 1 / 5; 1 / 5]) /\
    getitem (transition_prob h) 0%Z =
      Ok (map (fun p => Fin (log2R p)) [1 / 4; 2 / 4; 1 / 4]) /\
    getitem (transition_prob h) 2%Z =
      Ok (map (fun p => Fin (log2R p)) [1 / 3; 1 / 3; 1 / 3]) /\
    init_prob h = [map (fun p => Fin (log2R p)) [2 / 4; 1 / 4; 1 / 4]] /\
    (2 / 5 = 0.4 /\ Rabs (log2R (2 / 5) - -1.32193) < 0.000005) /\
    (2 / 4 = 0.5 /\ log2R (2 / 4) = -1) /\
    (1 / 4 = 0.25 /\ log2R (1 / 4) = -2).
Proof.
  assert (exists h : HMM xreal,
            train (HMM_init ["the"; "dog"; "barks"] ["DET"; "NOUN"; "VERB"])
              [[("the", "DET"); ("dog", "NOUN"); ("barks", "VERB")]] = Ok h)
    as [h Ht] by (eexists; vm_compute; reflexivity).
  exists h. split; [done|].
  destruct (train_frame _ _ _ Ht) as (He & Hs & _).
  destruct (train_tables _ _ _ Ht) as (idx & t & Hidx & Hcount & Hini & Hem & Htr).
  vm_compute in Hidx. injection Hidx as <-.
  cbv -[Rplus IZR] in Hcount. injection Hcount as <-.
  cbv [t_init t_emission t_transition add_one map add of_Z xreal_numeric X.add concat app]
    in Hini, Hem, Htr.
  split; [done|]. split; [done|].
  rewrite Hini, Hem, Htr.
  change (getitem ?l 0%Z) with (getitem l (Z.of_nat 0)).
  change (getitem ?l 2%Z) with (getitem l (Z.of_nat 2)).
  split; [|split; [|split; [|split]]].
  - erewrite getitem_nat by reflexivity. f_equal.
    change [Fin (0 + 1 + 1); Fin (0 + 1); Fin (0 + 1); Fin (0 + 1)]
      with (map Fin [0 + 1 + 1; 0 + 1; 0 + 1; 0 + 1]).
    normalize_tiny.
  - erewrite getitem_nat by reflexivity. f_equal.
    change [Fin (0 + 1); Fin (0 + 1 + 1); Fin (0 + 1)]
      with (map Fin [0 + 1; 0 + 1 + 1; 0 + 1]).
    normalize_tiny.
  - erewrite getitem_nat by reflexivity. f_equal.
    change [Fin (0 + 1); Fin (0 + 1); Fin (0 + 1)]
      with (map Fin [0 + 1; 0 + 1; 0 + 1]).
    normalize_tiny.
  - f_equal.
    change (log2_div ?row ?s) with (normalize_row row).
    change [Fin (0 + 1 + 1); Fin (0 + 1); Fin (0 + 1)]
      with (map Fin [0 + 1 + 1; 0 + 1; 0 + 1]).
    normalize_tiny.
  - split; [split; [lra | apply log2R_two_fifths]|].
    split; (split; [lra|]); [apply log2R_half | apply log2R_quarter].
Qed.

End TinyFit.

(** ** Perplexity *)

Section Perplexity.
Open Scope R_scope.

Lemma perplexity_sum (data : list (list (string * string) * R)) (a : R) :
  Forall (fun d => (1 <= length d.1)%nat) data ->
  fold_left perplexity_step (map (fun d => (d.1, Fin d.2)) data) (Fin a) =
  Fin (a + Rsum (map (fun d => d.2 / INR (length d.1)) data)).
Proof.
  intros Hall. revert a.
  induction Hall as [|d data Hd _ IH]; intros a; cbn [map fold_left Rsum fold_right].
  - f_equal. lra.
  - assert (perplexity_step (Fin a) (d.1, Fin d.2) = Fin (a + d.2 / INR (length d.1)))
      as ->.
    { unfold perplexity_step. cbn [fst snd].
      change (of_Z ?z) with (Fin (IZR z)).
      rewrite div_fin by (apply not_0_IZR; lia).
      by rewrite INR_IZR_INZ. }
    rewrite IH. f_equal. fold (Rsum (map (fun d => d.2 / INR (length d.1)) data)). lra.
Qed.

End Perplexity.

(** C7. For N >= 1 scored sentences, each of length >= 1 and with a
    finite log-probability, [get_perplexity] returns
    [2^(-(1/N) * sum_i logProb_i / |sentence_i|)]. *)
Theorem get_perplexity_formula (data : list (list (string * string) * R)) :
  (1 <= length data)%nat ->
  Forall (fun d => (1 <= length d.1)%nat) data ->
  get_perplexity (map (fun d => (d.1, Fin d.2)) data) = Ok (Fin (perplexity_spec data)).
Proof.
  intros HN Hall. unfold get_perplexity. rewrite length_map.
  rewrite decide_False by lia. f_equal.
  change (of_Z 0) with (Fin 0%R). rewrite perplexity_sum by done.
  change (of_Z ?z) with (Fin (IZR z)).
  rewrite div_fin by (apply not_0_IZR; lia).
  unfold perplexity_spec. cbn [mul exp2 xreal_numeric X.mul X.exp2].
  do 2 f_equal. rewrite INR_IZR_INZ.
  assert (IZR (Z.of_nat (length data)) <> 0%R) by (apply not_0_IZR; lia).
  field. done.
Qed.

Lemma get_perplexity_formula_witness :
  get_perplexity
    (map (fun d => (d.1, Fin d.2))
         [([("the", "DET"); ("dog", "NOUN")], (-4)%R); ([("barks", "VERB")], (-3)%R)]) =
  Ok (Fin (perplexity_spec
             [([("the", "DET"); ("dog", "NOUN")], (-4)%R); ([("barks", "VERB")], (-3)%R)])).
Proof.
  apply get_perplexity_formula.
  - simpl. lia.
  - repeat constructor.
Defined.

(** ** The Viterbi score of a trained model is finite *)

Lemma foldM_range_invariant {S : Type} (P : nat -> S -> Prop) (f : S -> Z -> res S)
  (a b : nat) :
  (forall n s s', (a <= n < b)%nat -> P n s -> f s (Z.of_nat n) = Ok s' -> P (Datatypes.S n) s') ->
  (a <= b)%nat ->
  forall s s', P a s -> foldM f (range a b) s = Ok s' -> P b s'.
Proof.
  intros Hstep Hab. induction b as [|b IH]; intros s s' Hs Hfold.
  - assert (a = 0)%nat as -> by lia. by inversion Hfold; subst.
  - destruct (decide (a = Datatypes.S b)) as [->|Hne].
    + unfold range in Hfold. rewrite Nat.sub_diag in Hfold. by inversion Hfold; subst.
    + rewrite range_S in Hfold by lia. rewrite foldM_app in Hfold.
      inv_bind Hfold as s1 Hs1. cbn [foldM] in Hfold. inv_bind Hfold as s2 Hs2.
      inversion Hfold; subst.
      apply (Hstep b s1); [lia| |done].
      apply (IH ltac:(intros; apply (Hstep n s0); [lia|done|done]) ltac:(lia) s); done.
Qed.

Section FiniteScores.

Lemma finite_add (a b : xreal) : finite a -> finite b -> finite (add a b).
Proof. intros [r ->] [s ->]. by eexists. Qed.

Lemma finite_maximum (a b : xreal) : finite a -> finite b -> finite (maximum a b).
Proof. intros Ha Hb. unfold maximum. by destruct (leb b a || isnan a). Qed.

Lemma finite_max_of (x : list xreal) : Forall finite x -> finite (max_of x).
Proof.
  destruct x as [|a t]; [by eexists|]. intros [Ha Ht]%Forall_cons. simpl.
  revert a Ha. induction Ht as [|b t Hb _ IH]; intros a Ha; simpl; [done|].
  apply IH. by apply finite_maximum.
Qed.

Lemma finite_nth (x : list xreal) (k : nat) : Forall finite x -> finite (nth k x (of_Z 0)).
Proof.
  intros Hx. rewrite nth_lookup. destruct (x !! k) as [a|] eqn:Hk; simpl.
  - rewrite Forall_forall in Hx. apply Hx. by eapply list_elem_of_lookup_2.
  - by eexists.
Qed.

Lemma finite_cell (m : list (list xreal)) (r c : nat) :
  fin_matrix m -> finite (cell (of_Z 0) m r c).
Proof.
  intros Hm. unfold cell. apply finite_nth.
  rewrite nth_lookup. destruct (m !! r) as [row|] eqn:Hr; simpl; [|constructor].
  unfold fin_matrix in Hm. rewrite Forall_forall in Hm. apply Hm.
  by eapply list_elem_of_lookup_2.
Qed.

Lemma trained_finite (h : HMM xreal) :
  trained h ->
  fin_matrix (init_prob h) /\ fin_matrix (emission_prob h) /\
  fin_matrix (transition_prob h).
Proof.
  intros Htr.
  assert (forall row, row ∈ init_prob h ++ emission_prob h ++ transition_prob h ->
            Forall finite row) as Hrows.
  { intros row Hrow.
    destruct (trained_rows h row Htr Hrow) as (row0 & Hne & Hpos & ->).
    destruct (normalize_row_counts row0 Hne Hpos) as [_ Hall].
    eapply Forall_impl; [exact Hall|]. intros x (r & -> & _). by eexists. }
  repeat split; apply Forall_forall; intros row Hrow; apply Hrows;
    rewrite !elem_of_app; tauto.
Qed.

Variables (h : HMM xreal) (ex : list Z).
Hypothesis Hwf : wf_hmm h.
Hypothesis Hex : ex <> [].
Hypothesis Hids : Forall (fun i => 0 <= i < Z.of_nat (length (emissions h))) ex.
Hypothesis Hini : fin_matrix (init_prob h).
Hypothesis Hem : fin_matrix (emission_prob h).
Hypothesis Htrans : fin_matrix (transition_prob h).

Lemma start_spec_finite : fin_cols (length (states h)) 1 (start_spec h ex).1.
Proof.
  intros r c Hr Hc. assert (c = 0)%nat as -> by lia.
  destruct (start_spec_filled h ex Hwf) as (Ht & _).
  pose proof Hwf as [_ _ _ Hsi Hse _].
  cbn [fst start_spec] in *.
  assert (length (zip_with add (nth 0 (init_prob h) [])
            (column (of_Z 0) (emission_prob h) (Z.to_nat (nth 0 ex 0)))) =
          length (states h)) as Hlen.
  { rewrite length_zip_with, column_length.
    rewrite (shaped_nth _ _ _ _ Hsi) by lia. destruct Hse. lia. }
  rewrite (cell_set_column_eq _ (length (states h)) (length ex));
    [|apply shaped_full|done|done|destruct ex; [done | simpl; lia]].
  apply finite_nth. apply Forall_forall. intros x Hx.
  apply elem_of_lookup_zip_with in Hx as (i & a & b & -> & Ha & Hb).
  apply finite_add.
  - pose proof (finite_cell (init_prob h) 0 i Hini) as Hc0.
    unfold cell in Hc0. by rewrite (nth_lookup _ i), Ha in Hc0.
  - unfold column in Hb. change (map ?f ?l) with (f <$> l) in Hb.
    rewrite list_lookup_fmap in Hb.
    destruct (emission_prob h !! i) as [row|] eqn:Hrow; [|done].
    simpl in Hb. injection Hb as <-.
    pose proof (finite_cell (emission_prob h) i (Z.to_nat (nth 0 ex 0)) Hem) as Hc0.
    unfold cell in Hc0. by rewrite (nth_lookup _ i), Hrow in Hc0.
Qed.

Lemma column_spec_finite (st : list (list xreal) * list (list Z)) (n : nat) :
  (1 <= n < length ex)%nat -> filled h ex n st ->
  fin_cols (length (states h)) n st.1 ->
  fin_cols (length (states h)) (S n) (column_spec h ex st n).1.
Proof.
  intros Hn (Ht & Hb & _) Hfin r c Hr Hc. unfold column_spec. cbn [fst].
  destruct (decide (c = n)) as [->|Hne].
  - rewrite (cell_set_column_eq _ _ _ _ _ _ _ Ht);
      [|by rewrite !length_map, length_seq|done|lia].
    rewrite (nth_map_lt _ _ _ _ []) by (rewrite length_map, length_seq; lia).
    apply finite_max_of.
    rewrite (nth_map_lt _ _ _ _ 0%nat) by (rewrite length_seq; lia).
    unfold cands. apply Forall_forall. intros x Hx.
    apply list_elem_of_fmap in Hx as (k & -> & Hk). apply elem_of_seq in Hk.
    apply finite_add; [apply finite_add|].
    + apply Hfin; lia.
    + by apply finite_cell.
    + by apply finite_cell.
  - rewrite cell_set_column_ne; [|rewrite !length_map, length_seq; destruct Ht; lia|done].
    apply Hfin; lia.
Qed.

Lemma viterbi_fill_finite (st : list (list xreal) * list (list Z)) :
  viterbi_fill h ex = Ok st ->
  filled h ex (length ex) st /\ fin_cols (length (states h)) (length ex) st.1.
Proof.
  unfold viterbi_fill. rewrite (viterbi_start_spec h ex Hwf Hex Hids). cbn [bind].
  apply (foldM_range_invariant
           (fun n st => filled h ex n st /\ fin_cols (length (states h)) n st.1)).
  - intros n [trellis back_pointers] s' Hn [Hf Hfin] Hstep.
    pose proof Hf as (Ht & Hb & _). cbn [fst snd] in Ht, Hb.
    rewrite viterbi_column_spec in Hstep; try done; try lia.
    2: { apply (word_in_range h ex Hids). lia. }
    injection Hstep as <-. split.
    + apply column_spec_filled; try done; lia.
    + apply column_spec_finite; [lia | done | done].
  - destruct ex; [done | simpl; lia].
  - split; [by apply start_spec_filled | apply start_spec_finite].
Qed.

End FiniteScores.

(** ** What a decoder returns, read back from its result *)

Section DecodeInversion.
Context {num : Type} `{Numeric num}.

Lemma tag_output_tags (h : HMM num) (ex output : list Z) tagged :
  tag_output h ex output = Ok tagged -> Forall (fun ws => ws.2 ∈ states h) tagged.
Proof.
  unfold tag_output. generalize (zip ex output). intros l. revert tagged.
  induction l as [|ws l IH]; intros tagged Hm; simpl in Hm.
  - injection Hm as <-. constructor.
  - inv_bind Hm as p Hp. inv_bind Hm as rest Hrest. injection Hm as <-.
    inv_bind Hp as w Hw. inv_bind Hp as s Hs. injection Hp as <-.
    constructor; [|by apply IH]. simpl. by apply getitem_elem_of in Hs.
Qed.

Lemma viterbi_decode_tags (h : HMM num) (ex : list string) tagged log_prob :
  viterbi_decode h ex = Ok (tagged, log_prob) ->
  Forall (fun ws => ws.2 ∈ states h) tagged.
Proof.
  unfold viterbi_decode, extract_output. intros Hd.
  inv_bind Hd as idx Hidx. inv_bind Hd as ids Hids. inv_bind Hd as st Hst.
  inv_bind Hd as col Hcol. inv_bind Hd as lp Hlp. inv_bind Hd as p Hp.
  inv_bind Hd as tg Htg. injection Hd as <- <-. by eapply tag_output_tags.
Qed.

End DecodeInversion.

Lemma viterbi_decode_finite (h : HMM xreal) (ex : list string) tagged log_prob :
  trained h -> ex <> [] ->
  viterbi_decode h ex = Ok (tagged, log_prob) -> finite log_prob.
Proof.
  intros Htr Hex Hdec. destruct (trained_wf h Htr) as [Hwf HS].
  destruct (trained_finite h Htr) as (Hi & He & Ht).
  destruct (data2i_words_wf h ex Hwf Hex) as (ids & Hd & Hlen & Hids & _).
  assert (ids <> []) as Hne by (intros ->; by destruct ex).
  unfold viterbi_decode in Hdec. rewrite Hd in Hdec. cbn [bind] in Hdec.
  rewrite getitem_head in Hdec. cbn [bind] in Hdec.
  inv_bind Hdec as st Hst.
  destruct (viterbi_fill_finite h ids Hwf Hne Hids Hi He Ht st Hst) as [Hf Hfin].
  destruct st as [trellis back_pointers]. cbn [fst snd] in *.
  destruct (last_column h ids trellis back_pointers HS Hne Hf (of_Z 0)) as [Hcol Hcne].
  unfold extract_output in Hdec. rewrite Hcol in Hdec. cbn [bind] in Hdec.
  rewrite (np_max_of _ Hcne) in Hdec. cbn [bind] in Hdec.
  inv_bind Hdec as p Hp. inv_bind Hdec as tg Htg. injection Hdec as <- <-.
  apply finite_max_of. rewrite column_as_seq.
  apply Forall_forall. intros x Hx. apply list_elem_of_fmap in Hx as (r & -> & Hr).
  apply elem_of_seq in Hr. destruct Hf as ([Hl _] & _). cbn [fst] in Hl.
  apply Hfin; [lia|]. destruct ids; [done | simpl; lia].
Qed.

(** ** Hard EM with one word and one tag *)

Section EMRun.
Open Scope R_scope.

Lemma get_perplexity_finite (data : list (list (string * string) * R)) :
  (1 <= length data)%nat ->
  Forall (fun d => (1 <= length d.1)%nat) data ->
  exists p, get_perplexity (map (fun d => (d.1, Fin d.2)) data) = Ok (Fin p).
Proof.
  intros HN Hall. unfold get_perplexity. rewrite length_map.
  rewrite decide_False by lia.
  change (of_Z 0) with (Fin 0%R). rewrite perplexity_sum by done.
  change (of_Z ?z) with (Fin (IZR z)).
  rewrite div_fin by (apply not_0_IZR; lia). by eexists.
Qed.

Lemma threshold_value : PERPLEXITY_TH = Fin (1 / 10).
Proof. unfold PERPLEXITY_TH. change (of_Z ?z) with (Fin (IZR z)). apply div_fin. lra. Qed.

Lemma delta_seed_above : ltb PERPLEXITY_TH (inf : xreal) = true.
Proof. by rewrite threshold_value. Qed.

Lemma delta_zero_not_above : ltb PERPLEXITY_TH (Fin 0) = false.
Proof.
  rewrite threshold_value. simpl. destruct (Rlt_dec (1 / 10) 0); [lra | done].
Qed.

Lemma delta_zero_below : leb (Fin 0) PERPLEXITY_TH = true.
Proof.
  rewrite threshold_value. simpl. destruct (Rle_dec 0 (1 / 10)); [done | lra].
Qed.

(** The model of the run: one word, one tag. *)
Lemma decode_one_tag (h : HMM xreal) :
  train (HMM_init ["a"] ["T"]) [[("a", "T")]; [("a", "T")]] = Ok h ->
  exists r, viterbi_decode h ["a"] = Ok ([("a", "T")], Fin r).
Proof.
  intros Ht.
  assert (trained h) as Htr by (by exists ["a"], ["T"], [[("a", "T")]; [("a", "T")]]).
  destruct (trained_wf h Htr) as [Hwf HS].
  destruct (train_frame _ _ _ Ht) as (He & Hs & _).
  destruct (viterbi_run h ["a"] Hwf HS)
    as (ids & trellis & back_pointers & path & reads & tagged & log_prob &
        _ & _ & _ & _ & _ & _ & _ & _ & Hv & _ & Hw); [done|].
  pose proof (viterbi_decode_tags _ _ _ _ Hv) as Htags.
  assert (["a"] <> @nil string) as Hne by done.
  destruct (viterbi_decode_finite h ["a"] tagged log_prob Htr Hne Hv) as [r ->].
  exists r. rewrite Hv. do 2 f_equal.
  unfold shown in Hw. rewrite He, Hs in *. cbn in Hw.
  destruct tagged as [|[w t] [|? ?]]; try done.
  cbn in Hw. injection Hw as ->.
  apply Forall_cons in Htags as [Ht1 _]. cbn in Ht1.
  apply list_elem_of_singleton in Ht1 as ->. done.
Qed.

End EMRun.

(** ** Ties: the position [np.argmax] returns *)

Section Ties.
Open Scope R_scope.

Lemma argmax_scan_lowest (p t : list R) (mp : R) (best : nat) :
  (best < length p)%nat ->
  nth best p 0 = mp ->
  (forall k, (k < length p)%nat -> nth k p 0 <= mp) ->
  (forall k, (k < best)%nat -> nth k p 0 < mp) ->
  let a := Z.to_nat (argmax_scan (map Fin t) (Z.of_nat (length p)) (Fin mp) (Z.of_nat best)) in
  (a < length (p ++ t))%nat /\
  (forall k, (k < length (p ++ t))%nat -> nth k (p ++ t) 0 <= nth a (p ++ t) 0) /\
  (forall k, (k < a)%nat -> nth k (p ++ t) 0 < nth a (p ++ t) 0).
Proof.
  revert p mp best. induction t as [|x t IH]; intros p mp best Hb Hmp Hle Hlt; cbn [map argmax_scan].
  - rewrite app_nil_r, Nat2Z.id. cbn zeta. rewrite Hmp. by repeat split.
  - assert (Z.of_nat (length p) + 1 = Z.of_nat (length (p ++ [x])))%Z as ->
      by (rewrite length_app; simpl; lia).
    replace (p ++ x :: t) with ((p ++ [x]) ++ t) by (by rewrite <- app_assoc).
    assert (forall k, (k < length p)%nat -> nth k (p ++ [x]) 0 = nth k p 0) as Hnth
      by (intros k Hk; by rewrite app_nth1).
    assert (nth (length p) (p ++ [x]) 0 = x) as Hx
      by (by rewrite app_nth2, Nat.sub_diag by lia).
    change (leb (Fin x) (Fin mp)) with (if Rle_dec x mp then true else false).
    destruct (Rle_dec x mp) as [Hxle|Hxgt]; cbn [negb isnan xreal_numeric X.isnan].
    + apply IH.
      * rewrite length_app. simpl. lia.
      * by rewrite Hnth.
      * intros k Hk. rewrite length_app in Hk. simpl in Hk.
        destruct (decide (k = length p)) as [->|Hne]; [by rewrite Hx|].
        rewrite Hnth by lia. apply Hle. lia.
      * intros k Hk. rewrite Hnth by lia. by apply Hlt.
    + apply IH.
      * rewrite length_app. simpl. lia.
      * done.
      * intros k Hk. rewrite length_app in Hk. simpl in Hk.
        destruct (decide (k = length p)) as [->|Hne]; [rewrite Hx; lra|].
        rewrite Hnth by lia. specialize (Hle k ltac:(lia)). lra.
      * intros k Hk. rewrite Hnth by lia. specialize (Hle k Hk). lra.
Qed.

(** Among finite candidates [np.argmax] returns the lowest position that
    holds the maximum: no candidate is larger than the chosen one, and
    every earlier candidate is smaller. *)
Lemma argmax_of_lowest (rs : list R) :
  rs <> [] ->
  let a := Z.to_nat (argmax_of (map Fin rs)) in
  (a < length rs)%nat /\
  (forall k, (k < length rs)%nat -> nth k rs 0 <= nth a rs 0) /\
  (forall k, (k < a)%nat -> nth k rs 0 < nth a rs 0).
Proof.
  destruct rs as [|r rs]; [done|]. intros _.
  cbn [map argmax_of isnan xreal_numeric X.isnan].
  apply (argmax_scan_lowest [r] rs r 0).
  - simpl. lia.
  - done.
  - intros [|k] Hk; simpl in *; [lra | lia].
  - intros k Hk. lia.
Qed.

End Ties.

(** ** Training a trained model again *)

Lemma retrained_trained {num : Type} `{Numeric num} (h h' : HMM num) data :
  trained h -> train h data = Ok h' -> trained h'.
Proof.
  intros (emissions0 & states0 & data0 & Ht0) Ht.
  exists emissions0, states0, data. rewrite <- Ht. symmetry.
  destruct (train_frame _ _ _ Ht0) as (He & Hs & Hw & Hsi & Hi & Hem & Htr).
  by apply train_ext.
Qed.

(** ** The shape of every run of the hard-EM loop *)

Section EMShape.
Context {num : Type} `{Numeric num}.
Variable list_set : list string -> list string.
Variables (vocab : list string) (train_input test_input : list (list string)).

Lemma em_body_log (st st' : em_state) :
  em_body list_set vocab train_input test_input st = Ok st' ->
  exists p,
    em_log st' = em_log st ++ [Decoded; Evaluated p (delta st'); Retrained] /\
    delta st' = sub (old_perplexity st) p /\
    old_perplexity st' = p /\
    trained (em_hmm st').
Proof.
  unfold em_body. intros Hb.
  inv_bind Hb as pred_train Htrain. inv_bind Hb as pred_test Htest.
  inv_bind Hb as p Hp. inv_bind Hb as hmm Hhmm. injection Hb as <-.
  exists p. cbn. repeat split. by eexists _, _, _.
Qed.

(** The loop stops only on a delta that is not above the threshold. *)
Lemma em_loop_stops (fuel : nat) (st st' : em_state) :
  em_loop list_set vocab train_input test_input fuel st = Ok st' ->
  ltb PERPLEXITY_TH (delta st') = false.
Proof.
  revert st. induction fuel as [|fuel IH]; intros st; cbn [em_loop];
    destruct (ltb PERPLEXITY_TH (delta st)) eqn:Hd; intros Hl.
  - done.
  - by injection Hl as <-.
  - inv_bind Hl as st1 Hst1. by eapply IH.
  - by injection Hl as <-.
Qed.

(** Whenever the loop runs at all and stops, the last thing it did is
    this: it evaluated a delta that is not above the threshold, and then
    it retrained. *)
Lemma em_loop_ends_with_retrain (fuel : nat) (st st' : em_state) :
  em_loop list_set vocab train_input test_input fuel st = Ok st' ->
  ltb PERPLEXITY_TH (delta st) = true ->
  exists pre p,
    em_log st' = pre ++ [Decoded; Evaluated p (delta st'); Retrained] /\
    ltb PERPLEXITY_TH (delta st') = false.
Proof.
  revert st. induction fuel as [|fuel IH]; intros st Hl Hd; cbn [em_loop] in Hl;
    rewrite Hd in Hl; [done|].
  inv_bind Hl as st1 Hst1.
  destruct (em_body_log _ _ Hst1) as (p & Hlog & _).
  destruct (ltb PERPLEXITY_TH (delta st1)) eqn:Hd1.
  - by apply (IH st1).
  - destruct fuel; cbn [em_loop] in Hl; rewrite Hd1 in Hl; injection Hl as <-; eauto.
Qed.

End EMShape.

(** ** A run of hard EM: the loop retrains once more *)

Section OneTagRun.
Open Scope R_scope.

(** One pass of the loop body on the model of the run: the pseudo-labels
    are the seed corpus again, so retraining gives the same model. *)
Lemma em_body_one_tag (h : HMM xreal) :
  train (HMM_init ["a"] ["T"]) [[("a", "T")]; [("a", "T")]] = Ok h ->
  exists p,
    forall (old d : xreal) (log : list (@event xreal)),
      em_body remove_dups ["a"] [["a"]] [["a"]]
        {| em_hmm := h; old_perplexity := old; delta := d; em_log := log |} =
      Ok {| em_hmm := h;
            old_perplexity := Fin p;
            delta := sub old (Fin p);
            em_log := log ++ [Decoded; Evaluated (Fin p) (sub old (Fin p)); Retrained] |}.
Proof.
  intros Ht. destruct (decode_one_tag h Ht) as [r Hdec].
  destruct (get_perplexity_finite [([("a", "T")], r)]) as [p Hp];
    [simpl; lia | repeat constructor |].
  exists p. intros old' d' log'. unfold em_body. cbn [em_hmm old_perplexity em_log mapM].
  rewrite Hdec. cbn [bind]. cbn [map fst snd] in Hp. rewrite Hp. cbn [bind].
  change (train _ _) with (train (HMM_init (num := xreal) ["a"] ["T"]) [[("a", "T")]; [("a", "T")]]).
  rewrite Ht. done.
Qed.

End OneTagRun.

(** C9 on the code. A run of the hard-EM cell with one word and one tag:
    the seed [float("inf")] makes the first pass run; the second pass finds
    the same perplexity, so its delta is 0, which is not above
    [PERPLEXITY_TH]; the loop still retrains after that evaluation and
    only then stops. *)
Theorem em_retrains_after_convergence :
  exists (st : @em_state xreal) (p : R),
    hard_em remove_dups ["a"] [["a"]] [["a"]] 2 ["T"] [[("a", "T")]; [("a", "T")]] = Ok st /\
    em_log st = [Decoded; Evaluated (Fin p) PInf; Retrained;
                 Decoded; Evaluated (Fin p) (Fin 0); Retrained] /\
    delta st = Fin 0 /\
    ltb PERPLEXITY_TH (inf : xreal) = true /\
    ltb PERPLEXITY_TH (delta st) = false /\
    leb (delta st) PERPLEXITY_TH = true.
Proof.
  assert (exists h : HMM xreal,
            train (HMM_init ["a"] ["T"]) [[("a", "T")]; [("a", "T")]] = Ok h)
    as [h Ht] by (eexists; vm_compute; reflexivity).
  destruct (em_body_one_tag h Ht) as [p Hbody].
  assert (sub (Fin p) (Fin p) = Fin 0) as Hzero by (simpl; f_equal; lra).
  eexists _, p. unfold hard_em. rewrite Ht. cbn [bind em_loop delta].
  rewrite delta_seed_above, Hbody. cbn [bind em_loop delta].
  change (sub inf (Fin p)) with (inf : xreal).
  rewrite delta_seed_above, Hbody. cbn [bind em_loop delta].
  rewrite Hzero, delta_zero_not_above.
  split; [done|]. cbn [em_log delta app].
  split; [done|]. split; [done|]. split; [done|].
  split; [apply delta_zero_not_above | apply delta_zero_below].
Qed.

(** ** What every decoder returns *)

Section DecoderResults.
Context {num : Type} `{Numeric num}.

Lemma greedy_decode_tags (h : HMM num) (ex : list string) tagged log_prob :
  greedy_decode h ex = Ok (tagged, log_prob) ->
  Forall (fun ws => ws.2 ∈ states h) tagged.
Proof.
  unfold greedy_decode. intros Hd.
  inv_bind Hd as idx Hidx. inv_bind Hd as ids Hids. inv_bind Hd as st Hst.
  destruct st as [[sd output] lp].
  inv_bind Hd as tg Htg. injection Hd as <- <-. by eapply tag_output_tags.
Qed.

Lemma shown_known (h : HMM num) (ex : list string) :
  Forall (fun w => w ∈ emissions h) ex -> map (shown h) ex = ex.
Proof.
  induction 1 as [|w ex Hw _ IH]; [done|]. simpl. rewrite IH. f_equal.
  unfold shown. by rewrite decide_True.
Qed.

Lemma column_set_column {A : Type} (d : A) (r c : nat) (m : list (list A)) (n : nat)
  (v : list A) :
  shaped r c m -> length v = r -> (n < c)%nat -> column d (set_column m n v) n = v.
Proof.
  intros Hm Hv Hn. rewrite column_as_seq.
  destruct (set_column_shaped r c m n v Hm Hv) as [-> _].
  etrans; [|symmetry; apply (list_as_seq d v)]. rewrite Hv.
  apply map_ext_in. intros k Hk. apply in_seq in Hk.
  apply (cell_set_column_eq d r c); try done; lia.
Qed.

End DecoderResults.

(** X1. On a trained model and a non-empty sentence the three decoders
    return one pair for every word of the sentence, every tag they give
    is one of the states of the model, and a sentence whose words are all
    in the vocabulary comes back with its words unchanged. *)
Theorem decoders_tag_every_word {num : Type} `{Numeric num} (h : HMM num)
  (ex : list string) :
  trained h -> ex <> [] ->
  exists g v lg lv,
    greedy_decode h ex = Ok (g, lg) /\
    viterbi_decode h ex = Ok (v, lv) /\
    fast_viterbi_decode h ex = Ok (v, lv) /\
    length g = length ex /\
    length v = length ex /\
    Forall (fun wt => wt.2 ∈ states h) g /\
    Forall (fun wt => wt.2 ∈ states h) v /\
    (Forall (fun w => w ∈ emissions h) ex -> map fst g = ex /\ map fst v = ex).
Proof.
  intros Htr Hex. destruct (trained_wf h Htr) as [Hwf HS].
  destruct (greedy_decode_words h ex Hwf HS Hex) as (g & lg & Hg & Hgw).
  destruct (viterbi_run h ex Hwf HS Hex)
    as (ids & t & b & path & reads & v & lv & _ & _ & _ & _ & _ & _ & _ & _ & Hv & Hf & Hvw).
  exists g, v, lg, lv. split; [done|]. split; [done|]. split; [done|].
  split; [by rewrite <- (length_map fst), Hgw, length_map|].
  split; [by rewrite <- (length_map fst), Hvw, length_map|].
  split; [by eapply greedy_decode_tags|].
  split; [by eapply viterbi_decode_tags|].
  intros Hknown. by rewrite Hgw, Hvw, shown_known.
Qed.

Lemma decoders_tag_every_word_witness :
  exists h : HMM xreal,
    train (HMM_init ["the"; "dog"; "barks"] ["DET"; "NOUN"; "VERB"])
      [[("the", "DET"); ("dog", "NOUN"); ("barks", "VERB")]] = Ok h /\
    exists g v lg lv,
      greedy_decode h ["dog"; "barks"] = Ok (g, lg) /\
      viterbi_decode h ["dog"; "barks"] = Ok (v, lv) /\
      fast_viterbi_decode h ["dog"; "barks"] = Ok (v, lv) /\
      length g = length ["dog"; "barks"] /\
      length v = length ["dog"; "barks"] /\
      Forall (fun wt => wt.2 ∈ states h) g /\
      Forall (fun wt => wt.2 ∈ states h) v /\
      (Forall (fun w => w ∈ emissions h) ["dog"; "barks"] ->
       map fst g = ["dog"; "barks"] /\ map fst v = ["dog"; "barks"]).
Proof.
  eexists. split; [vm_compute; reflexivity|].
  apply decoders_tag_every_word; [|discriminate].
  exists ["the"; "dog"; "barks"], ["DET"; "NOUN"; "VERB"],
    [[("the", "DET"); ("dog", "NOUN"); ("barks", "VERB")]].
  vm_compute. reflexivity.
Defined.

Section OneWord.
Context {num : Type} `{Numeric num}.

Lemma one_word_decoders (h : HMM num) (w : string) :
  wf_hmm h -> states h <> [] ->
  exists i col,
    data2i_words h [[w]] = Ok [[i]] /\
    col <> [] /\
    greedy_decode h [w] =
      (tagged <- tag_output h [i] [argmax_of col] ;; Ok (tagged, max_of col)) /\
    viterbi_decode h [w] =
      (tagged <- tag_output h [i] [argmax_of col] ;; Ok (tagged, max_of col)).
Proof.
  intros Hwf HS.
  destruct (data2i_words_wf h [w] Hwf ltac:(done)) as (ids & Hd & Hlen & Hids & _).
  destruct ids as [|i [|? ?]]; try done. clear Hlen.
  apply Forall_inv in Hids.
  pose proof (wf_init h Hwf) as Hini.
  pose proof (wf_emission h Hwf) as Hem.
  pose proof (wf_transition h Hwf) as Htr.
  set (S' := length (states h)) in *.
  assert (0 < S')%nat as HS' by (subst S'; destruct (states h); [done | simpl; lia]).
  set (e := column (of_Z 0) (emission_prob h) (Z.to_nat i)).
  assert (getcol (emission_prob h) i = Ok e) as He.
  { rewrite <- (Z2Nat.id i) at 1 by lia. apply (getcol_total _ S' (length (emissions h))); [done | lia]. }
  assert (length e = S') as Hel by (unfold e; rewrite column_length; by destruct Hem).
  destruct (init_prob h) as [|ini [|? ?]] eqn:Hip; try (destruct Hini as [? ?]; simpl in *; lia).
  assert (length ini = S') as Hil.
  { destruct Hini as [_ Hall]. by apply Forall_inv in Hall. }
  set (col := zip_with add ini e).
  assert (length col = S') as Hcl by (unfold col; rewrite length_zip_with; lia).
  assert (col <> []) as Hcne by (intros Hc; rewrite Hc in Hcl; simpl in Hcl; lia).
  exists i, col. split; [done|]. split; [done|]. split.
  - unfold greedy_decode. rewrite Hd. cbn [bind]. rewrite getitem_head. cbn [bind foldM].
    rewrite Hip. unfold greedy_step. rewrite He. cbn [bind].
    unfold iadd_rows. cbn [mapM bind]. unfold broadcast.
    rewrite decide_True by lia. cbn [bind concat]. rewrite app_nil_r.
    fold col. rewrite (np_argmax_of _ Hcne), (np_max_of _ Hcne). cbn [bind].
    change ([] ++ [argmax_of col]) with ([] ++ [argmax_of col]).
    rewrite (getitem_last []).
    cbn [bind]. pose proof (argmax_of_range col Hcne) as Ha.
    rewrite <- (Z2Nat.id (argmax_of col)) at 1 by lia.
    rewrite (getitem_total [] (transition_prob h)) by (destruct Htr as [-> _]; lia).
    cbn [bind app]. done.
  - unfold viterbi_decode. rewrite Hd. cbn [bind]. rewrite getitem_head. cbn [bind].
    unfold viterbi_fill.
    rewrite (viterbi_start_spec h [i] Hwf) by (done || by apply Forall_singleton).
    cbn [bind]. change (range 1 (length [i])) with (@nil Z). cbn [foldM].
    unfold start_spec. cbn [fst snd nth]. rewrite Hip. cbn [nth length].
    fold S'. fold e. fold col.
    assert (shaped S' 1 (set_column (np_full S' 1 (neg inf)) 0 col)) as Hsh.
    { apply set_column_shaped; [apply shaped_full | done]. }
    cbn [bind fst snd]. unfold extract_output, extract_path.
    rewrite (getcol_last (of_Z 0) S' 1) by (done || lia).
    change (1 - 1)%nat with 0%nat.
    rewrite (column_set_column (of_Z 0) S' 1) by (apply shaped_full || done || lia).
    cbn [bind]. rewrite (np_max_of _ Hcne), (np_argmax_of _ Hcne). cbn [bind].
    cbn [extract_loop length]. rewrite decide_False by lia. cbn [bind fst rev app].
    done.
Qed.

End OneWord.

(** X2. On a sentence of one word the greedy decoder and the Viterbi
    decoder of a trained model return the same tagged sentence and the
    same log-probability. *)
Theorem one_word_greedy_is_viterbi {num : Type} `{Numeric num} (h : HMM num)
  (w : string) :
  trained h -> greedy_decode h [w] = viterbi_decode h [w].
Proof.
  intros Htr. destruct (trained_wf h Htr) as [Hwf HS].
  destruct (one_word_decoders h w Hwf HS) as (i & col & _ & _ & -> & ->). done.
Qed.

Lemma one_word_greedy_is_viterbi_witness :
  exists h : HMM xreal,
    train (HMM_init ["the"; "dog"; "barks"] ["DET"; "NOUN"; "VERB"])
      [[("the", "DET"); ("dog", "NOUN"); ("barks", "VERB")]] = Ok h /\
    greedy_decode h ["dog"] = viterbi_decode h ["dog"].
Proof.
  eexists. split; [vm_compute; reflexivity|].
  apply one_word_greedy_is_viterbi.
  exists ["the"; "dog"; "barks"], ["DET"; "NOUN"; "VERB"],
    [[("the", "DET"); ("dog", "NOUN"); ("barks", "VERB")]].
  vm_compute. reflexivity.
Defined.

(** ** The score of the decoded state sequence *)

Section ScoreGeneric.
Context {num : Type} `{Numeric num}.

Lemma score_from_app (h : HMM num) (ids1 ids2 p1 p2 : list Z) (acc : num) (prev : Z) :
  length ids1 = length p1 ->
  score_from h acc prev (ids1 ++ ids2) (p1 ++ p2) =
  score_from h (score_from h acc prev ids1 p1) (List.last p1 prev) ids2 p2.
Proof.
  revert p1 acc prev. induction ids1 as [|w ids1 IH]; intros [|s p1] acc prev Hl;
    try done.
  simpl in Hl. cbn [app score_from]. rewrite IH by lia.
  f_equal. clear. generalize prev. revert s.
  induction p1 as [|x p1 IH]; intros s d; [done|].
  change (List.last (s :: x :: p1) d) with (List.last (x :: p1) d).
  by rewrite <- (IH x s), <- (IH x d).
Qed.

Lemma path_score_snoc (h : HMM num) (ids q : list Z) (w k s : Z) :
  length ids = S (length q) ->
  path_score h (ids ++ [w]) ((q ++ [k]) ++ [s]) =
  add (add (path_score h ids (q ++ [k]))
           (cell (of_Z 0) (transition_prob h) (Z.to_nat k) (Z.to_nat s)))
      (cell (of_Z 0) (emission_prob h) (Z.to_nat s) (Z.to_nat w)).
Proof.
  intros Hl. destruct ids as [|w0 ids]; [done|].
  destruct q as [|s0 q].
  - destruct ids; [|done]. done.
  - simpl in Hl. cbn [app path_score].
    rewrite (score_from_app h ids [w] (q ++ [k]) [s]) by (rewrite length_app; simpl; lia).
    cbn [score_from]. by rewrite last_last.
Qed.

Lemma backtrace_length (B : list (list Z)) (r : Z) (c : nat) :
  length (backtrace B r c) = S c.
Proof.
  revert r. induction c as [|c IH]; intros r; [done|].
  cbn [backtrace]. rewrite length_app, IH. simpl. lia.
Qed.

Lemma backtrace_ext (B B' : list (list Z)) (r : Z) (c : nat) :
  (forall r' c', (1 <= c' <= c)%nat -> cell (-1) B' r' c' = cell (-1) B r' c') ->
  backtrace B' r c = backtrace B r c.
Proof.
  revert r. induction c as [|c IH]; intros r Hc; [done|].
  cbn [backtrace]. rewrite Hc by lia. rewrite IH; [done|].
  intros r' c' Hc'. apply Hc. lia.
Qed.

End ScoreGeneric.

Section ScoreValues.

Lemma finite_to_R (x : xreal) : finite x -> x = Fin (to_R x).
Proof. by intros [r ->]. Qed.

Lemma to_R_add (a b : xreal) :
  finite a -> finite b -> to_R (add a b) = (to_R a + to_R b)%R.
Proof. by intros [r ->] [s ->]. Qed.

Lemma score_from_finite (h : HMM xreal) (acc : xreal) (prev : Z) (ids path : list Z) :
  fin_matrix (emission_prob h) -> fin_matrix (transition_prob h) ->
  finite acc -> finite (score_from h acc prev ids path).
Proof.
  intros Hem Htr. revert path acc prev.
  induction ids as [|w ids IH]; intros [|s path] acc prev Hacc; try done.
  cbn [score_from]. apply IH.
  apply finite_add; [apply finite_add|]; (done || by apply finite_cell).
Qed.

Lemma path_score_finite (h : HMM xreal) (ids path : list Z) :
  fin_matrix (init_prob h) -> fin_matrix (emission_prob h) ->
  fin_matrix (transition_prob h) ->
  finite (path_score h ids path).
Proof.
  intros Hini Hem Htr. destruct ids as [|w ids], path as [|s path]; try (by eexists).
  cbn [path_score]. apply score_from_finite; try done.
  apply finite_add; by apply finite_cell.
Qed.

Lemma finite_list (x : list xreal) : Forall finite x -> x = map Fin (map to_R x).
Proof.
  induction 1 as [|a x Ha _ IH]; [done|]. simpl. by rewrite <- IH, <- finite_to_R.
Qed.

Lemma fold_maximum_fin (t : list R) (a : R) :
  exists m, fold_left maximum (map Fin t) (Fin a) = Fin m /\
            (a <= m)%R /\ (forall r, r ∈ t -> (r <= m)%R) /\ m ∈ a :: t.
Proof.
  revert a. induction t as [|b t IH]; intros a.
  - exists a. simpl. repeat split; [lra | | left]. intros r Hr. by apply elem_of_nil in Hr.
  - cbn [map fold_left]. unfold maximum at 2. cbn [leb isnan xreal_numeric X.leb X.isnan].
    destruct (Rle_dec b a) as [Hba|Hba]; cbn [orb].
    + destruct (IH a) as (m & -> & Ham & Hall & Hin). exists m.
      repeat split; [done | |].
      * intros r Hr. apply elem_of_cons in Hr as [->|Hr]; [lra | by apply Hall].
      * apply elem_of_cons in Hin as [->|Hin]; [left | right; by right].
    + destruct (IH b) as (m & -> & Hbm & Hall & Hin). exists m.
      repeat split; [lra | |].
      * intros r Hr. apply elem_of_cons in Hr as [->|Hr]; [lra | by apply Hall].
      * right. done.
Qed.

Lemma max_at_argmax (x : list xreal) :
  x <> [] -> Forall finite x ->
  max_of x = nth (Z.to_nat (argmax_of x)) x (of_Z 0) /\
  forall k, (k < length x)%nat -> (to_R (nth k x (of_Z 0)) <= to_R (max_of x))%R.
Proof.
  intros Hne Hfin. rewrite (finite_list x Hfin). set (rs := map to_R x).
  assert (rs <> []) as Hrs by (unfold rs; by destruct x).
  destruct (argmax_of_lowest rs Hrs) as (Ha & Hmax & _).
  set (a := Z.to_nat (argmax_of (map Fin rs))) in *.
  assert (exists m, max_of (map Fin rs) = Fin m /\
                    (forall r, r ∈ rs -> (r <= m)%R) /\ m ∈ rs) as (m & Hm & Hall & Hin).
  { destruct rs as [|r0 rs']; [done|]. cbn [map max_of].
    destruct (fold_maximum_fin rs' r0) as (m & Hm & H0 & Hall & Hin).
    exists m. split; [done|]. split; [|done].
    intros r Hr. apply elem_of_cons in Hr as [->|Hr]; [done | by apply Hall]. }
  assert (m = nth a rs 0%R) as Hma.
  { apply Rle_antisym.
    - apply list_elem_of_lookup in Hin as [k Hk].
      pose proof (lookup_lt_Some _ _ _ Hk) as Hlt.
      rewrite <- (nth_lookup_Some _ _ 0%R _ Hk). by apply Hmax.
    - apply Hall. by apply nth_elem_of. }
  split.
  - rewrite Hm, Hma. change (of_Z 0) with (Fin 0%R). by rewrite map_nth.
  - intros k Hk. rewrite length_map in Hk. rewrite Hm.
    change (of_Z 0) with (Fin 0%R). rewrite map_nth. cbn [to_R].
    apply Hall. by apply nth_elem_of.
Qed.

End ScoreValues.

Section Optimal.
Variables (h : HMM xreal) (ids : list Z).
Hypothesis Hwf : wf_hmm h.
Hypothesis Hne : ids <> [].
Hypothesis Hids : Forall (fun i => 0 <= i < Z.of_nat (length (emissions h))) ids.
Hypothesis Hini : fin_matrix (init_prob h).
Hypothesis Hem : fin_matrix (emission_prob h).
Hypothesis Htrans : fin_matrix (transition_prob h).

(** Column [c] of the trellis holds, in row [r], the score of the state
    sequence the back pointers give from there, and no state sequence
    that ends in [r] at position [c] scores more. *)
Let best (n : nat) (st : list (list xreal) * list (list Z)) : Prop :=
  forall c r, (c < n)%nat -> (r < length (states h))%nat ->
    Forall (valid_state h) (backtrace st.2 (Z.of_nat r) c) /\
    cell (of_Z 0) st.1 r c =
      path_score h (take (S c) ids) (backtrace st.2 (Z.of_nat r) c) /\
    forall q, length q = c -> Forall (valid_state h) q ->
      (to_R (path_score h (take (S c) ids) (q ++ [Z.of_nat r])) <=
       to_R (cell (of_Z 0) st.1 r c))%R.

Lemma start_best : best 1 (start_spec h ids).
Proof.
  intros c r Hc Hr. assert (c = 0)%nat as -> by lia.
  pose proof Hwf as [_ _ _ Hsi Hse _].
  cbn [fst snd start_spec backtrace].
  assert (length (zip_with add (nth 0 (init_prob h) [])
            (column (of_Z 0) (emission_prob h) (Z.to_nat (nth 0 ids 0)))) =
          length (states h)) as Hlen.
  { rewrite length_zip_with, column_length.
    rewrite (shaped_nth _ _ _ _ Hsi) by lia. destruct Hse. lia. }
  assert (cell (of_Z 0)
            (set_column (np_full (length (states h)) (length ids) (neg inf)) 0
               (zip_with add (nth 0 (init_prob h) [])
                  (column (of_Z 0) (emission_prob h) (Z.to_nat (nth 0 ids 0))))) r 0 =
          path_score h (take 1 ids) [Z.of_nat r]) as Hcell.
  { rewrite (cell_set_column_eq _ (length (states h)) (length ids));
      [|apply shaped_full|done|done|destruct ids; [done | simpl; lia]].
    destruct ids as [|w ids']; [done|]. cbn [take path_score score_from nth].
    rewrite Nat2Z.id.
    assert (r < length (nth 0 (init_prob h) []))%nat as Hr1
      by (rewrite (shaped_nth _ _ _ _ Hsi); lia).
    assert (r < length (emission_prob h))%nat as Hr2 by (destruct Hse; lia).
    destruct (nth_lookup_or_length (nth 0 (init_prob h) []) r (of_Z 0)) as [Ha|?]; [|lia].
    destruct (nth_lookup_or_length (emission_prob h) r []) as [Hb|?]; [|lia].
    apply nth_lookup_Some. rewrite lookup_zip_with. rewrite Ha. cbn [mbind option_bind].
    unfold column. change (map ?f ?l) with (f <$> l).
    rewrite list_lookup_fmap, Hb. done. }
  split; [|split].
  - constructor; [|constructor]. unfold valid_state. lia.
  - done.
  - intros q Hq _. destruct q; [|done]. cbn [app]. rewrite Hcell. lra.
Qed.

Lemma column_best (st : list (list xreal) * list (list Z)) (n : nat) :
  (1 <= n < length ids)%nat -> filled h ids n st -> best n st ->
  best (S n) (column_spec h ids st n).
Proof.
  intros Hn (Ht & Hb & Hvalid) Hbest c r Hc Hr.
  set (S' := length (states h)) in *.
  set (w := Z.to_nat (nth n ids 0)).
  assert (forall r' c', (1 <= c' < n)%nat ->
            cell (-1) (column_spec h ids st n).2 r' c' = cell (-1) st.2 r' c') as Hsame.
  { intros r' c' Hc'. unfold column_spec. cbn [snd].
    apply cell_set_column_ne; [|lia].
    rewrite !length_map, length_seq. by destruct Hb. }
  assert (forall r' c', (c' < n)%nat ->
            backtrace (column_spec h ids st n).2 r' c' = backtrace st.2 r' c') as Hbt.
  { intros r' c' Hc'. apply backtrace_ext. intros r'' c'' Hc''. apply Hsame. lia. }
  destruct (decide (c = n)) as [->|Hcn].
  2: { rewrite Hbt by lia.
       assert (cell (of_Z 0) (column_spec h ids st n).1 r c = cell (of_Z 0) st.1 r c) as ->.
       { unfold column_spec. cbn [fst]. apply cell_set_column_ne; [|done].
         rewrite !length_map, length_seq. by destruct Ht. }
       apply Hbest; [lia | done]. }
  (* the new column *)
  set (x := cands h st.1 n w r).
  assert (length x = S') as Hxl by (unfold x, cands; by rewrite length_map, length_seq).
  assert (x <> []) as Hxne by (intros Hx; rewrite Hx in Hxl; simpl in Hxl; lia).
  assert (forall k, (k < S')%nat -> finite (cell (of_Z 0) st.1 k (n - 1))) as Hprev.
  { intros k Hk. destruct (Hbest (n - 1)%nat k ltac:(lia) Hk) as (_ & -> & _).
    by apply path_score_finite. }
  assert (forall k, (k < S')%nat ->
            nth k x (of_Z 0) =
            add (add (cell (of_Z 0) st.1 k (n - 1))
                     (cell (of_Z 0) (transition_prob h) k r))
                (cell (of_Z 0) (emission_prob h) r w)) as Hxk.
  { intros k Hk. unfold x, cands.
    rewrite (nth_map_lt _ _ _ _ 0%nat) by (rewrite length_seq; lia).
    by rewrite seq_nth by lia. }
  assert (Forall finite x) as Hxfin.
  { unfold x, cands. apply Forall_forall. intros y Hy.
    apply list_elem_of_fmap in Hy as (k & -> & Hk). apply elem_of_seq in Hk.
    apply finite_add; [apply finite_add|]; try by apply finite_cell.
    apply Hprev. lia. }
  destruct (max_at_argmax x Hxne Hxfin) as [Hmax Hle].
  pose proof (argmax_of_range x Hxne) as Ha. rewrite Hxl in Ha.
  set (a := argmax_of x) in *.
  assert (cell (of_Z 0) (column_spec h ids st n).1 r n = max_of x) as Hcell.
  { unfold column_spec. cbn [fst].
    rewrite (cell_set_column_eq _ _ _ _ _ _ _ Ht);
      [|by rewrite !length_map, length_seq|done|lia].
    rewrite (nth_map_lt _ _ _ _ []) by (rewrite length_map, length_seq; lia).
    rewrite (nth_map_lt _ _ _ _ 0%nat) by (rewrite length_seq; lia).
    by rewrite seq_nth by lia. }
  assert (cell (-1) (column_spec h ids st n).2 r n = a) as Hptr.
  { unfold column_spec. cbn [snd].
    rewrite (cell_set_column_eq _ _ _ _ _ _ _ Hb);
      [|by rewrite !length_map, length_seq|done|lia].
    rewrite (nth_map_lt _ _ _ _ []) by (rewrite length_map, length_seq; lia).
    rewrite (nth_map_lt _ _ _ _ 0%nat) by (rewrite length_seq; lia).
    by rewrite seq_nth by lia. }
  assert (take (S n) ids = take n ids ++ [nth n ids 0]) as Htake.
  { destruct (nth_lookup_or_length ids n 0) as [Hl|?]; [|lia].
    by rewrite (take_S_r _ _ _ Hl). }
  assert (length (take n ids) = n) as Htl by (rewrite length_take; lia).
  destruct n as [|n']; [lia|]. cbn [backtrace]. rewrite Nat2Z.id, Hptr, Hbt by lia.
  replace (S n' - 1)%nat with n' in * by lia.
  destruct (Hbest n' (Z.to_nat a) ltac:(lia) ltac:(lia)) as (Hpv & Hps & _).
  rewrite Z2Nat.id in Hpv, Hps by lia.
  split; [|split].
  - apply Forall_app. split; [done|]. constructor; [|constructor].
    unfold valid_state. fold S'. lia.
  - rewrite Hcell, Hmax, Hxk by lia. rewrite Hps, Htake.
    pose proof (backtrace_length st.2 a n') as Hbl.
    destruct (backtrace st.2 a n') as [|s0 p] eqn:Hbq using rev_ind; [done|].
    clear IHp. rewrite length_app in Hbl. simpl in Hbl.
    rewrite path_score_snoc by lia. rewrite Nat2Z.id.
    assert (s0 = a) as ->; [|done].
    destruct n'; cbn [backtrace] in Hbq.
    + destruct p as [|? [|? ?]]; try done. by injection Hbq as <-.
    + by apply app_inj_tail in Hbq as [_ <-].
  - intros q Hq Hqv. rewrite Hcell.
    destruct q as [|k q0 _] using rev_ind; [done|].
    rewrite length_app in Hq. simpl in Hq.
    apply Forall_app in Hqv as [Hq0v Hkv]. apply Forall_inv in Hkv.
    unfold valid_state in Hkv. fold S' in Hkv.
    rewrite Htake, path_score_snoc by lia. rewrite Nat2Z.id.
    destruct (Hbest n' (Z.to_nat k) ltac:(lia) ltac:(lia)) as (_ & Hks & Hopt).
    specialize (Hopt q0 ltac:(lia) Hq0v). rewrite Z2Nat.id in Hopt by lia.
    specialize (Hle (Z.to_nat k) ltac:(lia)). rewrite Hxk in Hle by lia.
    pose proof (Hprev (Z.to_nat k) ltac:(lia)) as Hpk.
    pose proof (path_score_finite h (take (S n') ids) (q0 ++ [k]) Hini Hem Htrans) as Hfs.
    pose proof (finite_cell (transition_prob h) (Z.to_nat k) r Htrans) as Hft.
    pose proof (finite_cell (emission_prob h) r w Hem) as Hfe.
    rewrite !to_R_add in * by (done || by apply finite_add).
    fold w. lra.
Qed.

Lemma viterbi_fill_best (st : list (list xreal) * list (list Z)) :
  viterbi_fill h ids = Ok st ->
  filled h ids (length ids) st /\ best (length ids) st.
Proof.
  unfold viterbi_fill. rewrite (viterbi_start_spec h ids Hwf Hne Hids). cbn [bind].
  apply (foldM_range_invariant (fun n st => filled h ids n st /\ best n st)).
  - intros n [trellis back_pointers] s' Hn [Hf Hbest] Hstep.
    pose proof Hf as (Ht & Hb & _). cbn [fst snd] in Ht, Hb.
    rewrite viterbi_column_spec in Hstep; try done; try lia.
    2: { apply (word_in_range h ids Hids). lia. }
    injection Hstep as <-. split.
    + apply column_spec_filled; try done; lia.
    + apply column_best; [lia | done | done].
  - destruct ids; [done | simpl; lia].
  - split; [by apply start_spec_filled | apply start_best].
Qed.

End Optimal.

Section Backtrace.
Context {num : Type} `{Numeric num}.
Variables (h : HMM num) (ex : list Z).
Variables (trellis : list (list num)) (back_pointers : list (list Z)).
Hypothesis Hfilled : filled h ex (length ex) (trellis, back_pointers).

Lemma extract_loop_backtrace (c fuel : nat) (o : list Z) (r : Z) (reads : list (Z * Z)) :
  (length o + 1 + c = length ex)%nat -> (c <= fuel)%nat -> valid_state h r ->
  exists reads',
    extract_loop fuel back_pointers ex (o ++ [r]) reads =
    Ok (o ++ rev (backtrace back_pointers r c), reads') /\
    Forall (valid_state h) (backtrace back_pointers r c).
Proof.
  destruct Hfilled as (_ & Hb & Hvalid). cbn [fst snd] in Hb, Hvalid.
  revert fuel o r reads. induction c as [|c IH]; intros fuel o r reads Hlen Hfuel Hr.
  - exists reads. destruct fuel; cbn [extract_loop backtrace rev app];
      (rewrite decide_False by (rewrite length_app; simpl; lia));
      (split; [done | by constructor]).
  - destruct fuel as [|fuel]; [lia|]. cbn [extract_loop].
    rewrite decide_True by (rewrite length_app; simpl; lia).
    rewrite getitem_last. cbn [bind].
    replace (Z.of_nat (length ex) - Z.of_nat (length (o ++ [r]))) with (Z.of_nat (S c))
      by (rewrite length_app; simpl; lia).
    unfold valid_state in Hr.
    replace (getitem2 back_pointers r (Z.of_nat (S c)))
      with (getitem2 back_pointers (Z.of_nat (Z.to_nat r)) (Z.of_nat (S c)))
      by (by rewrite Z2Nat.id by lia).
    rewrite (getitem2_total (-1)).
    2: { destruct Hb as [-> _]. lia. }
    2: { rewrite (shaped_nth _ _ _ _ Hb) by lia. lia. }
    cbn [bind].
    set (p := cell (-1) back_pointers (Z.to_nat r) (S c)).
    assert (valid_state h p) as Hp by (apply Hvalid; lia).
    destruct (IH fuel (o ++ [r]) p (reads ++ [(r, Z.of_nat (S c))]))
      as (reads' & Hloop & Hall); [rewrite length_app; simpl; lia | lia | done |].
    exists reads'. rewrite Hloop. cbn [backtrace]. fold p.
    rewrite rev_app_distr. cbn [rev app]. rewrite <- app_assoc. split; [done|].
    apply Forall_app. split; [done|]. by constructor.
Qed.

End Backtrace.

Lemma leb_fin (x y : xreal) :
  finite x -> finite y -> (to_R x <= to_R y)%R -> leb x y = true.
Proof.
  intros [a ->] [b ->] Hab. cbn [to_R] in Hab. cbn [leb xreal_numeric X.leb].
  by destruct (Rle_dec a b).
Qed.

Lemma viterbi_decode_best (h : HMM xreal) (ex : list string) :
  trained h -> ex <> [] ->
  exists ids path tagged log_prob,
    data2i_words h [ex] = Ok [ids] /\
    length ids = length ex /\
    Forall (fun i => 0 <= i < Z.of_nat (length (emissions h))) ids /\
    viterbi_decode h ex = Ok (tagged, log_prob) /\
    fast_viterbi_decode h ex = Ok (tagged, log_prob) /\
    length path = length ex /\
    Forall (valid_state h) path /\
    tag_output h ids path = Ok tagged /\
    log_prob = path_score h ids path /\
    forall path', length path' = length ex -> Forall (valid_state h) path' ->
      leb (path_score h ids path') log_prob = true.
Proof.
  intros Htr Hex. destruct (trained_wf h Htr) as [Hwf HS].
  destruct (trained_finite h Htr) as (Hi & He & Ht).
  destruct (data2i_words_wf h ex Hwf Hex) as (ids & Hd & Hlen & Hids & Hws).
  assert (ids <> []) as Hne by (intros ->; by destruct ex).
  destruct (fills_agree h ids Hwf Hne Hids) as ([T B] & Hloop & Hfast & Hf).
  destruct (viterbi_fill_best h ids Hwf Hne Hids Hi He Ht _ Hloop) as [_ Hbest].
  cbn [fst snd] in Hbest.
  destruct (last_column h ids T B HS Hne Hf (of_Z 0)) as [Hcol Hcne].
  set (L := length ids) in *. set (S' := length (states h)) in *.
  assert (1 <= L)%nat as HL by (subst L; destruct ids; [done | simpl; lia]).
  set (lc := column (of_Z 0) T (L - 1)) in *.
  assert (length lc = S') as Hlc.
  { unfold lc. rewrite column_length. by destruct Hf as ([? _] & _). }
  assert (forall r, (r < S')%nat -> nth r lc (of_Z 0) = cell (of_Z 0) T r (L - 1)) as Hnth.
  { intros r Hr. unfold lc, column. rewrite (nth_map_lt _ _ _ _ []); [done|].
    destruct Hf as ([Hl _] & _). cbn [fst] in Hl. by rewrite Hl. }
  assert (Forall finite lc) as Hfin.
  { apply Forall_forall. intros x Hx. apply list_elem_of_lookup in Hx as [r Hr].
    pose proof (lookup_lt_Some _ _ _ Hr) as Hlt. rewrite Hlc in Hlt.
    rewrite <- (nth_lookup_Some _ _ (of_Z 0) _ Hr), Hnth by done.
    destruct (Hbest (L - 1)%nat r ltac:(lia) Hlt) as (_ & -> & _).
    by apply path_score_finite. }
  destruct (max_at_argmax lc Hcne Hfin) as [Hmax Hle].
  pose proof (argmax_of_range lc Hcne) as Ha. rewrite Hlc in Ha.
  set (a := argmax_of lc) in *.
  assert (valid_state h a) as Hav by done.
  destruct (extract_loop_backtrace h ids T B Hf (L - 1) L [] a [])
    as (reads & Hextract & Hpv); [simpl; lia | lia | done |].
  cbn [app] in Hextract.
  set (path := backtrace B a (L - 1)) in *.
  assert (length path = L) as Hpl by (unfold path; rewrite backtrace_length; lia).
  destruct (tag_output_total h ids path _ Hws) as (tagged & Htag & _); [done | done |].
  assert (extract_output h T B ids = Ok (tagged, max_of lc)) as Hout.
  { unfold extract_output, extract_path. rewrite Hcol. cbn [bind].
    rewrite (np_max_of _ Hcne), (np_argmax_of _ Hcne). cbn [bind].
    fold a. fold L. rewrite Hextract. cbn [bind fst]. rewrite rev_involutive.
    by rewrite Htag. }
  assert (take (S (L - 1)) ids = ids) as Htake by (apply take_ge; lia).
  exists ids, path, tagged, (max_of lc).
  split; [done|]. split; [done|]. split; [done|].
  split. { unfold viterbi_decode. rewrite Hd. cbn [bind]. rewrite getitem_head. cbn [bind].
           by rewrite Hloop. }
  split. { unfold fast_viterbi_decode. rewrite Hd. cbn [bind]. rewrite getitem_head.
           cbn [bind]. by rewrite Hfast. }
  split; [lia|]. split; [done|]. split; [done|].
  split.
  - rewrite Hmax, Hnth by lia.
    destruct (Hbest (L - 1)%nat (Z.to_nat a) ltac:(lia) ltac:(lia)) as (_ & Hps & _).
    rewrite Z2Nat.id, Htake in Hps by lia. done.
  - intros path' Hl' Hv'.
    apply leb_fin; [by apply path_score_finite | by apply finite_max_of |].
    destruct path' as [|r q _] using rev_ind; [simpl in Hl'; lia|].
    rewrite length_app in Hl'. simpl in Hl'.
    apply Forall_app in Hv' as [Hqv Hrv]. apply Forall_inv in Hrv.
    unfold valid_state in Hrv. fold S' in Hrv.
    destruct (Hbest (L - 1)%nat (Z.to_nat r) ltac:(lia) ltac:(lia)) as (_ & _ & Hopt).
    specialize (Hopt q ltac:(lia) Hqv). rewrite Z2Nat.id, Htake in Hopt by lia.
    specialize (Hle (Z.to_nat r) ltac:(lia)). rewrite Hnth in Hle by lia. lra.
Qed.

Lemma nth_zip_with {A B C : Type} (f : A -> B -> C) (l1 : list A) (l2 : list B)
  (k : nat) (d : C) (d1 : A) (d2 : B) :
  (k < length l1)%nat -> (k < length l2)%nat ->
  nth k (zip_with f l1 l2) d = f (nth k l1 d1) (nth k l2 d2).
Proof.
  intros H1 H2.
  destruct (nth_lookup_or_length l1 k d1) as [Ha|?]; [|lia].
  destruct (nth_lookup_or_length l2 k d2) as [Hb|?]; [|lia].
  apply nth_lookup_Some. by rewrite lookup_zip_with, Ha, Hb.
Qed.

Section GreedyScore.
Variable h : HMM xreal.
Hypothesis Hwf : wf_hmm h.
Hypothesis HS : states h <> [].
Hypothesis Hini : fin_matrix (init_prob h).
Hypothesis Hem : fin_matrix (emission_prob h).
Hypothesis Htrans : fin_matrix (transition_prob h).

(** One step of the greedy decoder on a row of scores [row]: the state
    it chooses and the score it keeps. *)
Lemma greedy_step_row (row : list xreal) (out : list Z) (lp : xreal) (w : Z) :
  0 <= w < Z.of_nat (length (emissions h)) ->
  length row = length (states h) -> Forall finite row ->
  exists a,
    valid_state h a /\
    greedy_step h ([row], out, lp) w =
    Ok ([map (fun x => add (add (nth (Z.to_nat a) row (of_Z 0))
                                (cell (of_Z 0) (emission_prob h) (Z.to_nat a) (Z.to_nat w))) x)
             (nth (Z.to_nat a) (transition_prob h) [])],
        out ++ [a],
        add (nth (Z.to_nat a) row (of_Z 0))
            (cell (of_Z 0) (emission_prob h) (Z.to_nat a) (Z.to_nat w))).
Proof.
  intros Hw Hrl Hrf.
  pose proof (wf_emission h Hwf) as Hse. pose proof (wf_transition h Hwf) as Hst.
  set (S' := length (states h)) in *.
  assert (0 < S')%nat as HS' by (subst S'; destruct (states h); [done | simpl; lia]).
  set (e := column (of_Z 0) (emission_prob h) (Z.to_nat w)).
  assert (getcol (emission_prob h) w = Ok e) as He.
  { rewrite <- (Z2Nat.id w) at 1 by lia.
    apply (getcol_total _ S' (length (emissions h))); [done | lia]. }
  assert (length e = S') as Hel by (unfold e; rewrite column_length; by destruct Hse).
  set (col := zip_with add row e).
  assert (length col = S') as Hcl by (unfold col; rewrite length_zip_with; lia).
  assert (col <> []) as Hcne by (intros Hc; rewrite Hc in Hcl; simpl in Hcl; lia).
  assert (forall k, (k < S')%nat ->
            nth k col (of_Z 0) =
            add (nth k row (of_Z 0)) (cell (of_Z 0) (emission_prob h) k (Z.to_nat w))) as Hk.
  { intros k Hlt. unfold col. rewrite (nth_zip_with _ _ _ _ _ (of_Z 0) (of_Z 0)) by lia.
    f_equal. unfold e, column. rewrite (nth_map_lt _ _ _ _ []); [done|].
    destruct Hse as [-> _]. done. }
  assert (Forall finite col) as Hcf.
  { apply Forall_forall. intros x Hx. apply list_elem_of_lookup in Hx as [k Hx].
    pose proof (lookup_lt_Some _ _ _ Hx) as Hlt. rewrite Hcl in Hlt.
    rewrite <- (nth_lookup_Some _ _ (of_Z 0) _ Hx), Hk by done.
    apply finite_add; [by apply finite_nth | by apply finite_cell]. }
  destruct (max_at_argmax col Hcne Hcf) as [Hmax _].
  pose proof (argmax_of_range col Hcne) as Ha. rewrite Hcl in Ha.
  exists (argmax_of col). split; [done|].
  unfold greedy_step. rewrite He. cbn [bind].
  unfold iadd_rows. cbn [mapM bind]. unfold broadcast.
  rewrite decide_True by lia. cbn [bind concat]. rewrite app_nil_r.
  fold col. rewrite (np_argmax_of _ Hcne), (np_max_of _ Hcne). cbn [bind].
  rewrite getitem_last. cbn [bind].
  rewrite <- (Z2Nat.id (argmax_of col)) at 1 by lia.
  rewrite (getitem_total [] (transition_prob h)) by (destruct Hst as [-> _]; lia).
  cbn [bind]. rewrite Hmax, Hk by lia. done.
Qed.

Lemma greedy_loop_score (ids2 ids1 q : list Z) (k : Z) :
  Forall (fun i => 0 <= i < Z.of_nat (length (emissions h))) ids2 ->
  length ids1 = S (length q) -> Forall (valid_state h) (q ++ [k]) ->
  exists sd path,
    foldM (greedy_step h) ids2
      ([map (fun x => add (path_score h ids1 (q ++ [k])) x)
            (nth (Z.to_nat k) (transition_prob h) [])],
       q ++ [k], path_score h ids1 (q ++ [k])) =
    Ok (sd, path, path_score h (ids1 ++ ids2) path) /\
    length path = length (ids1 ++ ids2) /\
    Forall (valid_state h) path.
Proof.
  pose proof (wf_transition h Hwf) as Hst.
  revert ids1 q k. induction ids2 as [|w ids2 IH]; intros ids1 q k Hids Hl Hv.
  - eexists _, (q ++ [k]). cbn [foldM]. rewrite app_nil_r.
    split; [done|]. split; [|done]. rewrite length_app. simpl. lia.
  - apply Forall_cons in Hids as [Hw Hids]. cbn [foldM].
    pose proof Hv as Hkv. apply Forall_app in Hkv as [_ Hkv]. apply Forall_inv in Hkv.
    unfold valid_state in Hkv.
    set (trow := nth (Z.to_nat k) (transition_prob h) []).
    pose proof (path_score_finite h ids1 (q ++ [k]) Hini Hem Htrans) as Hlp.
    destruct (greedy_step_row
                (map (fun x => add (path_score h ids1 (q ++ [k])) x) trow)
                (q ++ [k]) (path_score h ids1 (q ++ [k])) w Hw)
      as (a & Hav & ->).
    { rewrite length_map. unfold trow. apply (shaped_nth _ _ _ _ Hst). lia. }
    { apply Forall_forall. intros x Hx. apply list_elem_of_fmap in Hx as (y & -> & Hy).
      apply finite_add; [done|].
      apply list_elem_of_lookup in Hy as [j Hy].
      pose proof (finite_cell (transition_prob h) (Z.to_nat k) j Htrans) as Hc.
      unfold cell in Hc. fold trow in Hc. by rewrite (nth_lookup_Some _ _ _ _ Hy) in Hc. }
    cbn [bind].
    assert (add (nth (Z.to_nat a)
                   (map (fun x => add (path_score h ids1 (q ++ [k])) x) trow) (of_Z 0))
                (cell (of_Z 0) (emission_prob h) (Z.to_nat a) (Z.to_nat w)) =
            path_score h (ids1 ++ [w]) ((q ++ [k]) ++ [a])) as ->.
    { rewrite path_score_snoc by done. f_equal.
      unfold valid_state in Hav.
      rewrite (nth_map_lt _ _ _ _ (of_Z 0)); [done|].
      unfold trow. rewrite (shaped_nth _ _ _ _ Hst) by lia. lia. }
    destruct (IH (ids1 ++ [w]) (q ++ [k]) a Hids) as (sd & path & Hloop & Hpl & Hpv).
    { rewrite !length_app. simpl. lia. }
    { apply Forall_app. split; [done|]. by constructor. }
    exists sd, path. rewrite <- (app_assoc ids1 [w] ids2) in Hloop, Hpl.
    by rewrite Hloop.
Qed.

Lemma greedy_decode_score (ex : list string) (ids : list Z) :
  ex <> [] -> data2i_words h [ex] = Ok [ids] ->
  Forall (fun i => 0 <= i < Z.of_nat (length (emissions h))) ids ->
  mapM (fun i => getitem (i2w h) i) ids = Ok (map (shown h) ex) ->
  length ids = length ex ->
  exists path tagged,
    greedy_decode h ex = Ok (tagged, path_score h ids path) /\
    length path = length ex /\
    Forall (valid_state h) path /\
    tag_output h ids path = Ok tagged.
Proof.
  intros Hex Hd Hids Hws Hlen.
  pose proof (wf_init h Hwf) as Hsi.
  destruct ids as [|w ids]; [by destruct ex|].
  apply Forall_cons in Hids as [Hw Hids].
  assert (exists ini, init_prob h = [ini]) as [ini Hip].
  { destruct (init_prob h) as [|ini [|? ?]];
      try (destruct Hsi as [? ?]; simpl in *; lia). by exists ini. }
  pose proof Hini as Hini'. rewrite Hip in Hsi, Hini'.
  assert (length ini = length (states h)) as Hil.
  { destruct Hsi as [_ Hall]. by apply Forall_inv in Hall. }
  assert (Forall finite ini) as Hif by (by apply Forall_inv in Hini').
  unfold greedy_decode. rewrite Hd. cbn [bind]. rewrite getitem_head. cbn [bind foldM].
  rewrite Hip.
  destruct (greedy_step_row ini [] (of_Z 0) w Hw Hil Hif) as (a & Hav & ->).
  cbn [bind app].
  assert (add (nth (Z.to_nat a) ini (of_Z 0))
              (cell (of_Z 0) (emission_prob h) (Z.to_nat a) (Z.to_nat w)) =
          path_score h [w] ([] ++ [a])) as ->.
  { cbn [app path_score score_from]. unfold cell at 1. by rewrite Hip. }
  destruct (greedy_loop_score ids [w] [] a Hids) as (sd & path & Hloop & Hpl & Hpv).
  { done. }
  { by constructor. }
  cbn [app] in Hloop, Hpl |- *. rewrite Hloop. cbn [bind].
  destruct (tag_output_total h (w :: ids) path _ Hws) as (tagged & Htag & _);
    [done | done |].
  rewrite Htag. cbn [bind]. exists path, tagged.
  split; [done|]. split; [lia|]. done.
Qed.

End GreedyScore.

(** X3. Viterbi decoding is optimal.  On a trained model and a non-empty
    sentence both Viterbi decoders return the tags of a state sequence
    [path] together with the score of that sequence (the sum of its
    initial, transition and emission log-probabilities), and no state
    sequence of the same length has a higher score. *)
Theorem viterbi_decode_optimal (h : HMM xreal) (ex : list string) :
  trained h -> ex <> [] ->
  exists ids path tagged log_prob,
    data2i_words h [ex] = Ok [ids] /\
    viterbi_decode h ex = Ok (tagged, log_prob) /\
    fast_viterbi_decode h ex = Ok (tagged, log_prob) /\
    length path = length ex /\
    Forall (valid_state h) path /\
    tag_output h ids path = Ok tagged /\
    log_prob = path_score h ids path /\
    forall path', length path' = length ex -> Forall (valid_state h) path' ->
      leb (path_score h ids path') log_prob = true.
Proof.
  intros Htr Hex.
  destruct (viterbi_decode_best h ex Htr Hex)
    as (ids & path & tagged & log_prob & Hd & _ & _ & Hv & Hf & Hl & Hpv & Htag & Hlp & Hopt).
  by exists ids, path, tagged, log_prob.
Qed.

Lemma viterbi_decode_optimal_witness :
  exists h : HMM xreal,
    train (HMM_init ["the"; "dog"; "barks"] ["DET"; "NOUN"; "VERB"])
      [[("the", "DET"); ("dog", "NOUN"); ("barks", "VERB")]] = Ok h /\
    exists ids path tagged log_prob,
      data2i_words h [["the"; "dog"]] = Ok [ids] /\
      viterbi_decode h ["the"; "dog"] = Ok (tagged, log_prob) /\
      fast_viterbi_decode h ["the"; "dog"] = Ok (tagged, log_prob) /\
      length path = length ["the"; "dog"] /\
      Forall (valid_state h) path /\
      tag_output h ids path = Ok tagged /\
      log_prob = path_score h ids path /\
      forall path', length path' = length ["the"; "dog"] ->
        Forall (valid_state h) path' ->
        leb (path_score h ids path') log_prob = true.
Proof.
  eexists. split; [vm_compute; reflexivity|].
  apply viterbi_decode_optimal; [|discriminate].
  exists ["the"; "dog"; "barks"], ["DET"; "NOUN"; "VERB"],
    [[("the", "DET"); ("dog", "NOUN"); ("barks", "VERB")]].
  vm_compute. reflexivity.
Defined.

(** X4. The log-probability the greedy decoder returns is the score of
    the state sequence it has chosen, and it is never above the
    log-probability the Viterbi decoder returns for the same sentence. *)
Theorem greedy_never_beats_viterbi (h : HMM xreal) (ex : list string) :
  trained h -> ex <> [] ->
  exists ids path g lg v lv,
    data2i_words h [ex] = Ok [ids] /\
    greedy_decode h ex = Ok (g, lg) /\
    viterbi_decode h ex = Ok (v, lv) /\
    tag_output h ids path = Ok g /\
    lg = path_score h ids path /\
    leb lg lv = true.
Proof.
  intros Htr Hex. destruct (trained_wf h Htr) as [Hwf HS].
  destruct (trained_finite h Htr) as (Hi & He & Ht).
  destruct (viterbi_decode_best h ex Htr Hex)
    as (ids & vpath & v & lv & Hd & Hlen & Hids & Hv & _ & _ & _ & _ & _ & Hopt).
  destruct (data2i_words_wf h ex Hwf Hex) as (ids' & Hd' & _ & _ & Hws).
  rewrite Hd in Hd'. injection Hd' as <-.
  destruct (greedy_decode_score h Hwf HS Hi He Ht ex ids Hex Hd Hids Hws Hlen)
    as (path & g & Hg & Hpl & Hpv & Htag).
  exists ids, path, g, (path_score h ids path), v, lv.
  repeat (split; [done|]). by apply Hopt.
Qed.

Lemma greedy_never_beats_viterbi_witness :
  exists h : HMM xreal,
    train (HMM_init ["the"; "dog"; "barks"] ["DET"; "NOUN"; "VERB"])
      [[("the", "DET"); ("dog", "NOUN"); ("barks", "VERB")]] = Ok h /\
    exists ids path g lg v lv,
      data2i_words h [["dog"; "the"]] = Ok [ids] /\
      greedy_decode h ["dog"; "the"] = Ok (g, lg) /\
      viterbi_decode h ["dog"; "the"] = Ok (v, lv) /\
      tag_output h ids path = Ok g /\
      lg = path_score h ids path /\
      leb lg lv = true.
Proof.
  eexists. split; [vm_compute; reflexivity|].
  apply greedy_never_beats_viterbi; [|discriminate].
  exists ["the"; "dog"; "barks"], ["DET"; "NOUN"; "VERB"],
    [[("the", "DET"); ("dog", "NOUN"); ("barks", "VERB")]].
  vm_compute. reflexivity.
Defined.

(** ** Log-probabilities and perplexity of the predictions *)

Lemma mapM_total {A B : Type} (P : A -> B -> Prop) (f : A -> res B) (l : list A) :
  (forall x, x ∈ l -> exists y, f x = Ok y /\ P x y) ->
  exists ys, mapM f l = Ok ys /\ Forall2 P l ys.
Proof.
  induction l as [|x l IH]; intros Hf.
  - exists []. split; [done | constructor].
  - destruct (Hf x ltac:(left)) as (y & Hy & HP).
    destruct IH as (ys & Hys & Hall); [intros z Hz; apply Hf; by right|].
    exists (y :: ys). cbn [mapM]. rewrite Hy, Hys. split; [done | by constructor].
Qed.

Lemma mapM_Forall2 {A B : Type} (P : A -> B -> Prop) (f : A -> res B) (l : list A) ys :
  (forall x y, x ∈ l -> f x = Ok y -> P x y) ->
  mapM f l = Ok ys -> Forall2 P l ys.
Proof.
  revert ys. induction l as [|x l IH]; intros ys Hf Hm; cbn [mapM] in Hm.
  - injection Hm as <-. constructor.
  - inv_bind Hm as y Hy. inv_bind Hm as ys' Hys. injection Hm as <-.
    constructor; [apply Hf; [left | done]|].
    apply IH; [|done]. intros z y' Hz. apply Hf. by right.
Qed.

Section NonPositive.
Open Scope R_scope.

Lemma trained_nonpos (h : HMM xreal) :
  trained h ->
  forall m, m ∈ [init_prob h; emission_prob h; transition_prob h] ->
  forall r c, to_R (cell (of_Z 0) m r c) <= 0.
Proof.
  intros Htr m Hm r c.
  assert (forall row, row ∈ m -> Forall (fun x => exists t, x = Fin t /\ t <= 0) row) as Hrows.
  { intros row Hrow.
    destruct (trained_rows h row Htr) as (row0 & Hne & Hpos & ->).
    - rewrite !elem_of_app. rewrite !elem_of_cons in Hm.
      destruct Hm as [->|[->|[->|Hm]]]; auto. by apply elem_of_nil in Hm.
    - by apply normalize_row_counts. }
  unfold cell.
  destruct (nth_lookup_or_length m r []) as [Hr|Hr].
  - apply list_elem_of_lookup_2 in Hr. apply Hrows in Hr.
    destruct (nth_lookup_or_length (nth r m []) c (of_Z 0)) as [Hc|Hc].
    + apply list_elem_of_lookup_2 in Hc.
      apply (proj1 (Forall_forall _ _) Hr) in Hc as (t & -> & Ht). done.
    + rewrite nth_overflow by lia. simpl. lra.
  - rewrite (nth_overflow m) by lia. destruct c; simpl; lra.
Qed.

Lemma score_from_nonpos (h : HMM xreal) (acc : xreal) (prev : Z) (ids path : list Z) :
  trained h -> finite acc ->
  to_R (score_from h acc prev ids path) <= to_R acc.
Proof.
  intros Htr. destruct (trained_finite h Htr) as (Hi & He & Ht).
  revert path acc prev. induction ids as [|w ids IH]; intros [|s path] acc prev Hacc;
    cbn [score_from]; try lra.
  pose proof (finite_cell (transition_prob h) (Z.to_nat prev) (Z.to_nat s) Ht) as Hft.
  pose proof (finite_cell (emission_prob h) (Z.to_nat s) (Z.to_nat w) He) as Hfe.
  etrans; [apply IH; by repeat apply finite_add|].
  rewrite !to_R_add by (done || by apply finite_add).
  pose proof (trained_nonpos h Htr (transition_prob h)
                ltac:(set_solver) (Z.to_nat prev) (Z.to_nat s)).
  pose proof (trained_nonpos h Htr (emission_prob h)
                ltac:(set_solver) (Z.to_nat s) (Z.to_nat w)).
  lra.
Qed.

Lemma path_score_nonpos (h : HMM xreal) (ids path : list Z) :
  trained h -> to_R (path_score h ids path) <= 0.
Proof.
  intros Htr. destruct (trained_finite h Htr) as (Hi & He & Ht).
  destruct ids as [|w ids], path as [|s path]; cbn [path_score]; try (simpl; lra).
  pose proof (finite_cell (init_prob h) 0 (Z.to_nat s) Hi) as Hfi.
  pose proof (finite_cell (emission_prob h) (Z.to_nat s) (Z.to_nat w) He) as Hfe.
  etrans; [apply score_from_nonpos; [done | by apply finite_add]|].
  rewrite to_R_add by done.
  pose proof (trained_nonpos h Htr (init_prob h) ltac:(set_solver) 0%nat (Z.to_nat s)).
  pose proof (trained_nonpos h Htr (emission_prob h)
                ltac:(set_solver) (Z.to_nat s) (Z.to_nat w)).
  lra.
Qed.

Lemma Rsum_nonpos (l : list R) : Forall (fun r => r <= 0) l -> Rsum l <= 0.
Proof.
  induction 1 as [|r l Hr _ IH]; simpl; [lra|]. unfold Rsum in *. simpl. lra.
Qed.

Lemma perplexity_spec_ge_1 (data : list (list (string * string) * R)) :
  (1 <= length data)%nat ->
  Forall (fun d => (1 <= length d.1)%nat /\ d.2 <= 0) data ->
  1 <= perplexity_spec data.
Proof.
  intros HN Hall. unfold perplexity_spec.
  assert (Rsum (map (fun d => d.2 / INR (length d.1)) data) <= 0) as Hsum.
  { apply Rsum_nonpos. apply Forall_forall. intros x Hx.
    apply list_elem_of_fmap in Hx as (d & -> & Hd).
    apply (proj1 (Forall_forall _ _) Hall) in Hd as [Hl Hd].
    assert (0 < INR (length d.1)) by (apply lt_0_INR; lia).
    apply Rmult_le_reg_r with (INR (length d.1)); [done|].
    unfold Rdiv. rewrite Rmult_assoc, Rinv_l by lra. lra. }
  assert (0 < INR (length data)) as HNR by (apply lt_0_INR; lia).
  assert (0 <= - (1 / INR (length data)) *
               Rsum (map (fun d => d.2 / INR (length d.1)) data)) as Hexp.
  { assert (0 < 1 / INR (length data)) by (apply Rdiv_lt_0_compat; lra).
    nra. }
  unfold Rpower. rewrite <- exp_0 at 1.
  destruct Hexp as [Hexp|<-].
  - left. apply exp_increasing. apply Rmult_lt_0_compat; [done | apply ln_2_pos].
  - right. by rewrite Rmult_0_l.
Qed.

End NonPositive.

Lemma get_perplexity_value (data : list (list (string * string) * R)) :
  (1 <= length data)%nat ->
  Forall (fun d => (1 <= length d.1)%nat) data ->
  get_perplexity (map (fun d => (d.1, Fin d.2)) data) = Ok (Fin (perplexity_spec data)).
Proof.
  intros HN Hall. unfold get_perplexity. rewrite length_map.
  rewrite decide_False by lia. f_equal.
  change (of_Z 0) with (Fin 0%R). rewrite perplexity_sum by done.
  change (of_Z ?z) with (Fin (IZR z)).
  rewrite div_fin by (apply not_0_IZR; lia).
  unfold perplexity_spec. cbn [mul exp2 xreal_numeric X.mul X.exp2].
  do 2 f_equal. rewrite INR_IZR_INZ.
  assert (IZR (Z.of_nat (length data)) <> 0%R) by (apply not_0_IZR; lia).
  field. done.
Qed.

(** What [viterbi_decode] returns on a trained model: one pair for every
    word and a log-probability that is a real number, at most 0. *)
Lemma viterbi_decode_result (h : HMM xreal) (ex : list string) :
  trained h -> ex <> [] ->
  exists tagged r,
    viterbi_decode h ex = Ok (tagged, Fin r) /\
    length tagged = length ex /\ (r <= 0)%R.
Proof.
  intros Htr Hex. destruct (trained_wf h Htr) as [Hwf HS].
  destruct (trained_finite h Htr) as (Hi & He & Ht).
  destruct (viterbi_decode_best h ex Htr Hex)
    as (ids & path & tagged & lp & _ & _ & _ & Hv & _ & _ & _ & _ & Hlp & _).
  destruct (viterbi_run h ex Hwf HS Hex)
    as (? & ? & ? & ? & ? & tagged' & lp' & _ & _ & _ & _ & _ & _ & _ & _ & Hv' & _ & Hw).
  rewrite Hv in Hv'. injection Hv' as <- <-.
  pose proof (path_score_nonpos h ids path Htr) as Hnp.
  destruct (path_score_finite h ids path Hi He Ht) as [r Hr].
  subst lp. rewrite Hr in Hv, Hnp. cbn [to_R] in Hnp. exists tagged, r.
  split; [done|]. split; [|done].
  by rewrite <- (length_map fst), Hw, length_map.
Qed.

Lemma decode_all_results (h : HMM xreal) (input : list (list string)) :
  trained h -> Forall (fun ex => ex <> []) input ->
  exists data : list (list (string * string) * R),
    mapM (viterbi_decode h) input = Ok (map (fun d => (d.1, Fin d.2)) data) /\
    Forall2 (fun ex d => length d.1 = length ex /\ (d.2 <= 0)%R) input data.
Proof.
  intros Htr Hall. induction Hall as [|ex input Hex _ (data & Hm & Hd)].
  - exists []. split; [done | constructor].
  - destruct (viterbi_decode_result h ex Htr Hex) as (tagged & r & Hv & Hl & Hr).
    exists ((tagged, r) :: data). cbn [mapM map]. rewrite Hv, Hm.
    split; [done|]. by constructor.
Qed.

(** X5. The perplexity of what a trained model predicts is a real number
    that is at least 1: when the Viterbi decoder is run on a non-empty
    collection of non-empty sentences, every sentence is decoded and
    [get_perplexity] of the results is neither an infinity nor NaN and
    not below 1. *)
Theorem predicted_perplexity_at_least_one (h : HMM xreal) (input : list (list string)) :
  trained h -> input <> [] -> Forall (fun ex => ex <> []) input ->
  exists preds p,
    mapM (viterbi_decode h) input = Ok preds /\
    get_perplexity preds = Ok (Fin p) /\
    (1 <= p)%R.
Proof.
  intros Htr Hne Hall.
  destruct (decode_all_results h input Htr Hall) as (data & Hm & Hd).
  assert (1 <= length data)%nat as HN.
  { rewrite <- (Forall2_length _ _ _ Hd). destruct input; [done | simpl; lia]. }
  assert (Forall (fun d => (1 <= length d.1)%nat /\ (d.2 <= 0)%R) data) as Hdata.
  { clear Hm HN Hne. induction Hd as [|ex d input data [Hl Hr] _ IH]; [constructor|].
    apply Forall_cons in Hall as [Hex Hall]. constructor; [|by apply IH].
    split; [|done]. rewrite Hl. destruct ex; [done | simpl; lia]. }
  exists (map (fun d => (d.1, Fin d.2)) data), (perplexity_spec data).
  split; [done|]. split.
  - apply get_perplexity_value; [done|]. eapply Forall_impl; [exact Hdata|].
    by intros d [? _].
  - by apply perplexity_spec_ge_1.
Qed.

Lemma predicted_perplexity_at_least_one_witness :
  exists h : HMM xreal,
    train (HMM_init ["the"; "dog"; "barks"] ["DET"; "NOUN"; "VERB"])
      [[("the", "DET"); ("dog", "NOUN"); ("barks", "VERB")]] = Ok h /\
    exists preds p,
      mapM (viterbi_decode h) [["the"; "dog"]; ["barks"]] = Ok preds /\
      get_perplexity preds = Ok (Fin p) /\
      (1 <= p)%R.
Proof.
  eexists. split; [vm_compute; reflexivity|].
  apply predicted_perplexity_at_least_one; [|discriminate|].
  - exists ["the"; "dog"; "barks"], ["DET"; "NOUN"; "VERB"],
      [[("the", "DET"); ("dog", "NOUN"); ("barks", "VERB")]].
    vm_compute. reflexivity.
  - repeat constructor; discriminate.
Defined.

(** ** When training returns *)

Section CountingLoop.
Context {num : Type} `{Numeric num}.

Lemma incr_bump (R C : nat) (m : list (list num)) (r c : nat) :
  shaped R C m -> (r < R)%nat -> (c < C)%nat ->
  incr m (Z.of_nat r) (Z.of_nat c) = Ok (bump m r c).
Proof.
  intros Hm Hr Hc. pose proof Hm as [Hl _].
  assert (length (nth r m []) = C) as Hrow by (by apply (shaped_nth R C)).
  unfold incr. rewrite (getitem2_total (of_Z 0)) by lia. cbn [bind].
  unfold setitem2. rewrite (getitem_total [] m r) by lia. cbn [bind].
  unfold setitem. rewrite !norm_index_nat by lia. done.
Qed.

Lemma bump_shaped (R C : nat) (m : list (list num)) (r c : nat) :
  shaped R C m -> (r < R)%nat -> (c < C)%nat -> shaped R C (bump m r c).
Proof.
  intros Hm Hr Hc. apply shaped_lengths.
  rewrite (incr_shape m (Z.of_nat r) (Z.of_nat c)); [by apply shaped_lengths|].
  by apply (incr_bump R C).
Qed.

Lemma train_step_token (S V : nat) (t : tables num) (flag : Z) (w s : nat) :
  tables_shaped S V t -> (w < V)%nat -> (s < S)%nat ->
  flag = -1 \/ 0 <= flag < Z.of_nat S ->
  train_step (t, flag) (Z.of_nat w, Z.of_nat s) = Ok (count_token (t, flag) w s) /\
  tables_shaped S V (count_token (t, flag) w s).1.
Proof.
  intros (Hi & He & Ht) Hw Hs Hflag. unfold train_step, count_token. cbn [fst snd].
  rewrite (incr_bump S V) by done. cbn [bind t_init t_emission t_transition].
  destruct Hflag as [->|Hflag].
  - rewrite decide_False by lia. cbn [bind]. rewrite !decide_True by done.
    change 0 with (Z.of_nat 0). rewrite (incr_bump 1 S) by (done || lia). cbn [bind].
    split; [done|]. split; [|split]; cbn [t_init t_emission t_transition]; try done.
    + apply bump_shaped; (done || lia).
    + by apply bump_shaped.
  - rewrite decide_True by lia.
    rewrite <- (Z2Nat.id flag) at 1 by lia. rewrite (incr_bump S S) by (done || lia).
    cbn [bind]. rewrite !decide_False by lia.
    split; [done|]. split; [|split]; cbn [t_init t_emission t_transition]; try done.
    + by apply bump_shaped.
    + apply bump_shaped; (done || lia).
Qed.

Lemma train_steps_count (S V : nat) (sentence : list (Z * Z)) (t : tables num) (flag : Z) :
  tables_shaped S V t -> Forall (valid_token S V) sentence ->
  flag = -1 \/ 0 <= flag < Z.of_nat S ->
  let st := fold_left (fun st ws => count_token st (Z.to_nat ws.1) (Z.to_nat ws.2))
                      sentence (t, flag) in
  foldM train_step sentence (t, flag) = Ok st /\ tables_shaped S V st.1.
Proof.
  revert t flag. induction sentence as [|[w s] sentence IH]; intros t flag Ht Hall Hflag.
  - by cbn.
  - apply Forall_cons in Hall as [[Hw Hs] Hall]. cbn [fst snd] in Hw, Hs.
    destruct (train_step_token S V t flag (Z.to_nat w) (Z.to_nat s) Ht) as [Hstep Hsh];
      [lia | lia | done |].
    rewrite !Z2Nat.id in Hstep by lia.
    cbn [foldM fold_left fst snd]. rewrite Hstep. cbn [bind].
    destruct (count_token (t, flag) (Z.to_nat w) (Z.to_nat s)) as [t' flag'] eqn:Hct.
    apply IH; [done | done |].
    right. unfold count_token in Hct. injection Hct as _ <-. lia.
Qed.

Lemma train_sentence_count (S V : nat) (sentence : list (Z * Z)) (t : tables num) :
  tables_shaped S V t -> Forall (valid_token S V) sentence ->
  train_sentence t sentence = Ok (count_sentence t sentence) /\
  tables_shaped S V (count_sentence t sentence).
Proof.
  intros Ht Hall. unfold train_sentence, count_sentence.
  destruct (train_steps_count S V sentence t (-1) Ht Hall ltac:(by left)) as [-> Hsh].
  done.
Qed.

Lemma train_corpus_count (S V : nat) (idx : list (list (Z * Z))) (t : tables num) :
  tables_shaped S V t -> Forall (Forall (valid_token S V)) idx ->
  foldM train_sentence idx t = Ok (count_corpus t idx) /\
  tables_shaped S V (count_corpus t idx).
Proof.
  revert t. induction idx as [|sentence idx IH]; intros t Ht Hall.
  - by cbn.
  - apply Forall_cons in Hall as [Hs Hall].
    destruct (train_sentence_count S V sentence t Ht Hs) as [Hstep Hsh].
    cbn [foldM]. rewrite Hstep. cbn [bind]. by apply IH.
Qed.

Lemma fill_zero_shaped (R C : nat) (m : list (list num)) :
  shaped R C m -> shaped R C (fill_zero m).
Proof.
  intros Hm. apply shaped_lengths. rewrite fill_zero_shape. by apply shaped_lengths.
Qed.

(** [data2i] on a tagged corpus: it returns exactly when the first
    sentence has a first token and every tag is a state. *)
Lemma data2i_pairs_total (h : HMM num) (data : list (list (string * string))) :
  wf_hmm h ->
  (exists wt sent rest, data = (wt :: sent) :: rest) ->
  Forall (Forall (fun wt => wt.2 ∈ states h)) data ->
  data2i_pairs h data =
    Ok (map (map (fun wt => (word_id h wt.1, state_id h wt.2))) data) /\
  Forall (Forall (valid_token (length (states h)) (length (emissions h))))
    (map (map (fun wt => (word_id h wt.1, state_id h wt.2))) data).
Proof.
  intros Hwf (wt & sent & rest & ->) Hall.
  unfold data2i_pairs, first_item. rewrite getitem_head. cbn [bind].
  rewrite getitem_head. cbn [bind].
  assert (forall w s, s ∈ states h ->
            (wi <- encode_word h w ;; si <- dict_get (s2i h) s ;; Ok (wi, si)) =
              Ok (word_id h w, state_id h s) /\
            valid_token (length (states h)) (length (emissions h))
              (word_id h w, state_id h s)) as Htok.
  { intros w s Hs. unfold word_id, state_id.
    destruct (encode_word_wf h w Hwf) as (i & -> & Hi & _). cbn [bind].
    rewrite (wf_s2i h Hwf). destruct (index_of_in (states h) s Hs) as [j Hj].
    unfold dict_get. rewrite Hj. cbn [bind]. split; [done|].
    split; [done|]. cbn [snd]. by apply index_of_Some in Hj as [? _]. }
  generalize ((wt :: sent) :: rest) Hall. clear Hall. intros l Hall.
  induction Hall as [|ex l Hex _ [IH1 IH2]].
  - split; [done | constructor].
  - assert (mapM (fun ws => wi <- encode_word h ws.1 ;;
                            si <- dict_get (s2i h) ws.2 ;; Ok (wi, si)) ex =
              Ok (map (fun wt => (word_id h wt.1, state_id h wt.2)) ex) /\
            Forall (valid_token (length (states h)) (length (emissions h)))
              (map (fun wt => (word_id h wt.1, state_id h wt.2)) ex)) as [Hex1 Hex2].
    { induction Hex as [|[w s] ex Hs _ [IHa IHb]]; [split; [done | constructor]|].
      destruct (Htok w s Hs) as [Ht1 Ht2]. cbn [mapM map fst snd].
      rewrite Ht1. cbn [bind]. rewrite IHa. split; [done | by constructor]. }
    cbn [mapM map]. rewrite Hex1. cbn [bind]. rewrite IH1.
    split; [done | by constructor].
Qed.

(** [train] on a corpus that [data2i] accepts: the tables it returns,
    from the counts. *)
Lemma train_counts (h : HMM num) (data : list (list (string * string))) :
  wf_hmm h ->
  (exists wt sent rest, data = (wt :: sent) :: rest) ->
  Forall (Forall (fun wt => wt.2 ∈ states h)) data ->
  let idx := map (map (fun wt => (word_id h wt.1, state_id h wt.2))) data in
  let t := count_corpus {| t_init := fill_zero (init_prob h);
                           t_emission := fill_zero (emission_prob h);
                           t_transition := fill_zero (transition_prob h) |} idx in
  tables_shaped (length (states h)) (length (emissions h)) t /\
  train h data =
    Ok {| emissions := emissions h;
          states := states h;
          w2i := w2i h;
          s2i := s2i h;
          init_prob := map (fun row => log2_div row (np_sum (concat (add_one (t_init t)))))
                           (add_one (t_init t));
          emission_prob := map normalize_row (add_one (t_emission t));
          transition_prob := map normalize_row (add_one (t_transition t)) |}.
Proof.
  intros Hwf Hfirst Hall idx t.
  destruct (data2i_pairs_total h data Hwf Hfirst Hall) as [Hd Hidx]. fold idx in Hd, Hidx.
  destruct (train_corpus_count (length (states h)) (length (emissions h)) idx
              {| t_init := fill_zero (init_prob h);
                 t_emission := fill_zero (emission_prob h);
                 t_transition := fill_zero (transition_prob h) |}) as [Hc Hsh];
    [|done|].
  { destruct Hwf. split; [|split]; by apply fill_zero_shaped. }
  fold t in Hc, Hsh. split; [done|].
  unfold train. rewrite Hd. cbn [bind]. rewrite Hc. cbn [bind].
  by rewrite !normalize_rows_map.
Qed.

End CountingLoop.

Lemma mapM_KeyError {A B : Type} (f : A -> res B) (l : list A) :
  (forall x, x ∈ l -> (exists y, f x = Ok y) \/ f x = Raise KeyError) ->
  Exists (fun x => f x = Raise KeyError) l ->
  mapM f l = Raise KeyError.
Proof.
  intros Hf Hex. induction Hex as [x l Hx|x l _ IH]; cbn [mapM].
  - by rewrite Hx.
  - destruct (Hf x ltac:(left)) as [[y ->]| ->]; [|done]. cbn [bind].
    rewrite IH; [done|]. intros z Hz. apply Hf. by right.
Qed.

Section TrainOutcome.
Context {num : Type} `{Numeric num}.

Lemma data2i_pairs_KeyError (h : HMM num) (data : list (list (string * string))) :
  wf_hmm h ->
  (exists wt sent rest, data = (wt :: sent) :: rest) ->
  ~ Forall (Forall (fun wt => wt.2 ∈ states h)) data ->
  data2i_pairs h data = Raise KeyError.
Proof.
  intros Hwf (wt & sent & rest & ->) Hnot.
  unfold data2i_pairs, first_item. rewrite getitem_head. cbn [bind].
  rewrite getitem_head. cbn [bind].
  set (tok := fun ws : string * string =>
                wi <- encode_word h ws.1 ;; si <- dict_get (s2i h) ws.2 ;; Ok (wi, si)).
  assert (forall ws, (ws.2 ∈ states h /\ exists y, tok ws = Ok y) \/
                     ((ws.2 ∉ states h) /\ tok ws = Raise KeyError)) as Htok.
  { intros [w s]. unfold tok. cbn [fst snd].
    destruct (encode_word_wf h w Hwf) as (i & -> & _). cbn [bind].
    rewrite (wf_s2i h Hwf). unfold dict_get.
    destruct (decide (s ∈ states h)) as [Hs|Hs].
    - left. split; [done|]. destruct (index_of_in (states h) s Hs) as [j ->]. by eexists.
    - right. split; [done|]. by rewrite index_of_notin. }
  assert (forall ex, (Forall (fun wt => wt.2 ∈ states h) ex /\ exists y, mapM tok ex = Ok y) \/
                     (~ Forall (fun wt => wt.2 ∈ states h) ex /\
                      mapM tok ex = Raise KeyError)) as Hsent.
  { intros ex. destruct (decide (Forall (fun wt => wt.2 ∈ states h) ex)) as [Hall|Hall].
    - left. split; [done|].
      induction Hall as [|ws ex Hs _ [ys IH]]; [by eexists|].
      destruct (Htok ws) as [[_ [y Hy]]|[? _]]; [|done].
      cbn [mapM]. rewrite Hy, IH. by eexists.
    - right. split; [done|]. apply mapM_KeyError.
      + intros ws _. destruct (Htok ws) as [[_ ?]|[_ ?]]; [left | right]; done.
      + apply not_Forall_Exists in Hall; [|apply _].
        eapply Exists_impl; [exact Hall|]. intros ws Hws. cbn beta in Hws.
        by destruct (Htok ws) as [[? _]|[_ ?]]. }
  apply mapM_KeyError.
  - intros ex _. destruct (Hsent ex) as [[_ ?]|[_ ?]]; [left | right]; done.
  - apply not_Forall_Exists in Hnot; [|apply _].
    eapply Exists_impl; [exact Hnot|]. intros ex Hex. cbn beta in Hex.
    by destruct (Hsent ex) as [[? _]|[_ ?]].
Qed.

End TrainOutcome.

(** X6. When [train] returns and when it raises.  On a model as
    [HMM.__init__] or [train] leaves it, training raises [IndexError] on
    an empty corpus and on one whose first sentence is empty; otherwise it
    returns a model if every tag of the corpus is a state of the model,
    and raises [KeyError] if some tag is not.  Words outside the
    vocabulary and empty sentences after the first never make it fail. *)
Theorem train_outcome {num : Type} `{Numeric num} (h : HMM num)
  (data : list (list (string * string))) :
  wf_hmm h ->
  ((data = [] \/ exists rest, data = [] :: rest) -> train h data = Raise IndexError) /\
  ((exists wt sent rest, data = (wt :: sent) :: rest) ->
   (Forall (Forall (fun wt => wt.2 ∈ states h)) data -> exists h', train h data = Ok h') /\
   (~ Forall (Forall (fun wt => wt.2 ∈ states h)) data -> train h data = Raise KeyError)).
Proof.
  intros Hwf. split.
  - intros [->|[rest ->]]; unfold train, data2i_pairs, first_item.
    + by rewrite getitem_nil.
    + rewrite getitem_head. cbn [bind]. by rewrite getitem_nil.
  - intros Hfirst. split.
    + intros Hall. destruct (train_counts h data Hwf Hfirst Hall) as [_ ->]. by eexists.
    + intros Hnot. unfold train. by rewrite data2i_pairs_KeyError.
Qed.

Lemma train_outcome_witness :
  let h : HMM xreal := HMM_init ["a"] ["T"] in
  let data := [[("a", "T"); ("zzz", "T")]; []] in
  ((data = [] \/ exists rest, data = [] :: rest) -> train h data = Raise IndexError) /\
  ((exists wt sent rest, data = (wt :: sent) :: rest) ->
   (Forall (Forall (fun wt => wt.2 ∈ states h)) data -> exists h', train h data = Ok h') /\
   (~ Forall (Forall (fun wt => wt.2 ∈ states h)) data -> train h data = Raise KeyError)).
Proof.
  apply train_outcome.
  split; [reflexivity | reflexivity | | | |].
  - vm_compute. right. left.
  - split; [reflexivity | repeat constructor].
  - split; [reflexivity | repeat constructor].
  - split; [reflexivity | repeat constructor].
Defined.

(** ** What training estimates *)

Section EventsOfLoop.
Context {num : Type} `{Numeric num}.

Lemma bump_all_app (m : list (list num)) (e1 e2 : list (nat * nat)) :
  bump_all m (e1 ++ e2) = bump_all (bump_all m e1) e2.
Proof. apply fold_left_app. Qed.

Lemma count_tokens_events (sentence : list (Z * Z)) (t : tables num) (flag : Z) :
  let st := fold_left (fun st ws => count_token st (Z.to_nat ws.1) (Z.to_nat ws.2))
                      sentence (t, flag) in
  t_emission st.1 = bump_all (t_emission t) (emission_events sentence) /\
  t_init st.1 = bump_all (t_init t) (if decide (flag = -1) then init_events sentence else []) /\
  t_transition st.1 =
    bump_all (t_transition t)
      (transition_events (if decide (flag = -1) then [] else [Z.to_nat flag]) sentence).
Proof.
  revert t flag. induction sentence as [|[w s] sentence IH]; intros t flag.
  - cbn. by repeat case_decide.
  - cbn [fold_left fst snd].
    destruct (IH (count_token (t, flag) (Z.to_nat w) (Z.to_nat s)).1
                 (Z.of_nat (Z.to_nat s))) as (He & Hi & Ht).
    assert (count_token (t, flag) (Z.to_nat w) (Z.to_nat s) =
            ((count_token (t, flag) (Z.to_nat w) (Z.to_nat s)).1,
             Z.of_nat (Z.to_nat s))) as Hct by done.
    rewrite <- Hct in He, Hi, Ht.
    rewrite (decide_False (P := Z.of_nat (Z.to_nat s) = -1)) in Hi by lia.
    rewrite (decide_False (P := Z.of_nat (Z.to_nat s) = -1)) in Ht by lia.
    cbn zeta. rewrite He, Hi, Ht.
    unfold count_token. cbn [fst snd t_init t_emission t_transition].
    rewrite Nat2Z.id.
    destruct (decide (flag = -1)); (split; [reflexivity|]); split; reflexivity.
Qed.

End EventsOfLoop.

Section EventsOfCorpus.
Context {num : Type} `{Numeric num}.

Lemma count_sentence_events (sentence : list (Z * Z)) (t : tables num) :
  t_emission (count_sentence t sentence) =
    bump_all (t_emission t) (emission_events sentence) /\
  t_init (count_sentence t sentence) = bump_all (t_init t) (init_events sentence) /\
  t_transition (count_sentence t sentence) =
    bump_all (t_transition t) (transition_events [] sentence).
Proof.
  unfold count_sentence.
  destruct (count_tokens_events sentence t (-1)) as (He & Hi & Ht).
  rewrite decide_True in Hi by done. rewrite decide_True in Ht by done. done.
Qed.

Lemma count_corpus_events (idx : list (list (Z * Z))) (t : tables num) :
  t_emission (count_corpus t idx) =
    bump_all (t_emission t) (concat (map emission_events idx)) /\
  t_init (count_corpus t idx) = bump_all (t_init t) (concat (map init_events idx)) /\
  t_transition (count_corpus t idx) =
    bump_all (t_transition t) (concat (map (transition_events []) idx)).
Proof.
  revert t. induction idx as [|sentence idx IH]; intros t; [done|].
  cbn [count_corpus fold_left map concat].
  destruct (IH (count_sentence t sentence)) as (He & Hi & Ht).
  unfold count_corpus in He, Hi, Ht. rewrite He, Hi, Ht.
  destruct (count_sentence_events sentence t) as (-> & -> & ->).
  by rewrite !bump_all_app.
Qed.

Lemma cell_bump (R C : nat) (m : list (list num)) (r c r' c' : nat) :
  shaped R C m -> (r < R)%nat -> (c < C)%nat ->
  cell (of_Z 0) (bump m r c) r' c' =
  if decide (r' = r /\ c' = c) then add (cell (of_Z 0) m r c) (of_Z 1)
  else cell (of_Z 0) m r' c'.
Proof.
  intros Hm Hr Hc. pose proof Hm as [Hl _].
  assert (length (nth r m []) = C) as Hrow by (by apply (shaped_nth R C)).
  unfold bump, cell. rewrite !(nth_lookup _ r').
  destruct (decide (r' = r)) as [->|Hne].
  - rewrite list_lookup_insert_eq by lia. cbn [default from_option]. unfold Datatypes.id.
    rewrite (nth_lookup _ c'). destruct (decide (c' = c)) as [->|Hne].
    + rewrite list_lookup_insert_eq by lia. by rewrite decide_True.
    + rewrite list_lookup_insert_ne by done. rewrite decide_False by tauto.
      by rewrite <- !nth_lookup.
  - rewrite list_lookup_insert_ne by done. by rewrite decide_False by tauto.
Qed.

End EventsOfCorpus.

Section CountLemmas.
Context {A : Type}.

Lemma count_cons (P : A -> Prop) `{forall x, Decision (P x)} (x : A) (l : list A) :
  count P (x :: l) = ((if decide (P x) then 1 else 0) + count P l)%nat.
Proof. unfold count. rewrite filter_cons. by case_decide. Qed.

Lemma count_app (P : A -> Prop) `{forall x, Decision (P x)} (l1 l2 : list A) :
  count P (l1 ++ l2) = (count P l1 + count P l2)%nat.
Proof. unfold count. by rewrite filter_app, length_app. Qed.

Lemma count_ext (P Q : A -> Prop) `{forall x, Decision (P x)} `{forall x, Decision (Q x)}
  (l : list A) :
  (forall x, x ∈ l -> P x <-> Q x) -> count P l = count Q l.
Proof.
  induction l as [|x l IH]; intros HPQ; [done|].
  rewrite !count_cons, IH by (intros y Hy; apply HPQ; by right).
  pose proof (HPQ x ltac:(left)). by repeat case_decide; tauto.
Qed.

Lemma count_concat (P : A -> Prop) `{forall x, Decision (P x)} (ls : list (list A)) :
  count P (concat ls) = list_sum (map (count P) ls).
Proof.
  induction ls as [|l ls IH]; [done|]. cbn [concat map list_sum].
  by rewrite count_app, IH.
Qed.

End CountLemmas.

Lemma count_map {A B : Type} (P : B -> Prop) `{forall x, Decision (P x)} (f : A -> B)
  (l : list A) :
  count P (map f l) = count (fun x => P (f x)) l.
Proof.
  induction l as [|x l IH]; [done|].
  change (map f (x :: l)) with (f x :: map f l). by rewrite !count_cons, IH.
Qed.


Section CountTables.
Open Scope R_scope.

Lemma Rsum_insert (l : list R) (c : nat) (v : R) :
  (c < length l)%nat -> Rsum (<[c:=v]> l) = Rsum l - nth c l 0 + v.
Proof.
  revert c. induction l as [|x l IH]; intros c Hc; [simpl in Hc; lia|].
  destruct c as [|c]; unfold Rsum in *; simpl.
  - lra.
  - simpl in Hc. rewrite IH by lia. lra.
Qed.

Lemma Rsum_zeros {A : Type} (l : list A) : Rsum (map (fun _ => 0) l) = 0.
Proof. induction l as [|x l IH]; [done|]. unfold Rsum in *. simpl. lra. Qed.

Lemma Rsum_add_one (l : list R) : Rsum (map (fun r => r + 1) l) = Rsum l + INR (length l).
Proof.
  induction l as [|x l IH]; [unfold Rsum; simpl; lra|].
  change (length (x :: l)) with (S (length l)). rewrite S_INR.
  unfold Rsum in *. simpl. lra.
Qed.

Lemma holds_counts_zero (R C : nat) (m0 : list (list xreal)) :
  shaped R C m0 -> holds_counts R C (fill_zero m0) [].
Proof.
  intros Hm. pose proof Hm as [Hl _]. split; [by apply fill_zero_shaped|]. split.
  - intros r c Hr Hc. unfold cell, fill_zero.
    rewrite (nth_map_lt _ _ _ _ []) by lia.
    rewrite (nth_map_lt _ _ _ _ (of_Z 0)) by (rewrite (shaped_nth R C); done).
    done.
  - intros r Hr. unfold fill_zero. rewrite (nth_map_lt _ _ _ _ []) by lia.
    rewrite map_map. cbn [to_R of_Z xreal_numeric]. apply Rsum_zeros.
Qed.

Lemma holds_counts_bump (R C : nat) (m : list (list xreal)) (events : list (nat * nat))
  (r c : nat) :
  holds_counts R C m events -> (r < R)%nat -> (c < C)%nat ->
  holds_counts R C (bump m r c) (events ++ [(r, c)]).
Proof.
  intros (Hm & Hcell & Hrow) Hr Hc. pose proof Hm as [Hl _].
  assert (length (nth r m []) = C) as Hlen by (by apply (shaped_nth R C)).
  split; [by apply bump_shaped|]. split.
  - intros r' c' Hr' Hc'. rewrite (cell_bump R C) by done.
    rewrite count_app, count_cons. unfold count at 2. cbn [filter list_filter length].
    rewrite Nat.add_0_r.
    destruct (decide (r' = r /\ c' = c)) as [[-> ->]|Hne].
    + rewrite Hcell by done. rewrite decide_True by done.
      rewrite plus_INR. done.
    + rewrite Hcell by done. rewrite decide_False by (intros [= -> ->]; tauto).
      by rewrite Nat.add_0_r.
  - intros r' Hr'. rewrite count_app, count_cons. unfold count at 2.
    cbn [filter list_filter length fst]. rewrite Nat.add_0_r.
    unfold bump. rewrite (nth_lookup _ r').
    destruct (decide (r' = r)) as [->|Hne].
    + rewrite list_lookup_insert_eq by lia. cbn [default from_option]. unfold Datatypes.id.
      change (map to_R ?l) with (to_R <$> l). rewrite list_fmap_insert.
      rewrite Rsum_insert by (rewrite length_fmap; lia).
      change (to_R <$> ?l) with (map to_R l).
      rewrite (Hrow r Hr). rewrite (Hcell r c Hr Hc).
      change 0 with (to_R (of_Z 0)) at 1. rewrite map_nth.
      fold (cell (of_Z 0) m r c). rewrite (Hcell r c Hr Hc). cbn [to_R add xreal_numeric X.add of_Z].
      rewrite decide_True by done. rewrite plus_INR. simpl. lra.
    + rewrite list_lookup_insert_ne by done. rewrite <- nth_lookup.
      rewrite (Hrow r' Hr'). rewrite decide_False by done. by rewrite Nat.add_0_r.
Qed.

Lemma holds_counts_all (R C : nat) (new : list (nat * nat)) (m : list (list xreal))
  (events : list (nat * nat)) :
  holds_counts R C m events ->
  Forall (fun e => (e.1 < R)%nat /\ (e.2 < C)%nat) new ->
  holds_counts R C (bump_all m new) (events ++ new).
Proof.
  revert m events. induction new as [|[r c] new IH]; intros m events Hm Hall.
  - by rewrite app_nil_r.
  - apply Forall_cons in Hall as [[Hr Hc] Hall]. cbn [fst snd] in Hr, Hc.
    cbn [bump_all fold_left fst snd].
    replace (events ++ (r, c) :: new) with ((events ++ [(r, c)]) ++ new)
      by (by rewrite <- app_assoc).
    apply IH; [|done]. by apply holds_counts_bump.
Qed.

(** The entry of a normalized table of counts: the logarithm of the
    count plus one over the number of events of the row plus the number
    of columns. *)
Lemma normalized_count (R C : nat) (m : list (list xreal)) (events : list (nat * nat))
  (j i : nat) :
  holds_counts R C m events -> (j < R)%nat -> (i < C)%nat ->
  cell (of_Z 0) (map normalize_row (add_one m)) j i =
  Fin (log2R ((INR (count (fun e => e = (j, i)) events) + 1) /
              (INR (count (fun e => e.1 = j) events) + INR C))).
Proof.
  intros (Hm & Hcell & Hrow) Hj Hi. pose proof Hm as [Hl _].
  assert (length (nth j m []) = C) as Hlen by (by apply (shaped_nth R C)).
  set (row := nth j m []) in *.
  assert (Forall finite row) as Hfin.
  { apply Forall_forall. intros x Hx. apply list_elem_of_lookup in Hx as [c Hx].
    pose proof (lookup_lt_Some _ _ _ Hx) as Hlt.
    rewrite <- (nth_lookup_Some _ _ (of_Z 0) _ Hx).
    change (nth c row (of_Z 0)) with (cell (of_Z 0) m j c).
    rewrite Hcell by lia. by eexists. }
  set (rs := map to_R row).
  assert (length rs = C) as Hrs by (unfold rs; by rewrite length_map).
  assert (Forall (fun r => 0 <= r) rs) as Hpos.
  { apply Forall_forall. intros x Hx. apply list_elem_of_lookup in Hx as [c Hx].
    pose proof (lookup_lt_Some _ _ _ Hx) as Hlt.
    rewrite <- (nth_lookup_Some _ _ 0 _ Hx). unfold rs.
    change 0 with (to_R (of_Z 0)) at 2. rewrite map_nth.
    change (nth c row (of_Z 0)) with (cell (of_Z 0) m j c).
    rewrite Hcell by lia. cbn [to_R]. apply pos_INR. }
  assert (0 <= Rsum rs) as Hsum.
  { clear -Hpos. induction Hpos as [|x l Hx _ IH]; unfold Rsum in *; simpl; lra. }
  unfold cell, add_one. rewrite (nth_map_lt _ _ _ _ []) by (rewrite length_map; lia).
  rewrite (nth_map_lt _ _ _ _ []) by lia. fold row.
  rewrite (finite_list row Hfin). fold rs. rewrite map_map.
  replace (map (fun x => add (Fin x) (of_Z 1)) rs) with (map Fin (map (fun r => r + 1) rs))
    by (by rewrite map_map).
  assert (0 < INR C) as HC by (apply lt_0_INR; lia).
  rewrite normalize_row_fin.
  - rewrite Rsum_add_one, Hrs.
    rewrite (nth_map_lt _ _ _ _ 0) by (rewrite length_map; lia).
    rewrite (nth_map_lt _ _ _ _ 0) by lia.
    unfold rs at 1. change 0 with (to_R (of_Z 0)) at 1. rewrite map_nth.
    change (nth i row (of_Z 0)) with (cell (of_Z 0) m j i).
    rewrite Hcell by done. cbn [to_R].
    unfold rs, row. by rewrite (Hrow j Hj).
  - rewrite Rsum_add_one, Hrs. lra.
  - apply Forall_forall. intros x Hx. apply list_elem_of_fmap in Hx as (y & -> & Hy).
    apply (proj1 (Forall_forall _ _) Hpos) in Hy. lra.
Qed.

End CountTables.

Section CorpusCounts.
Context {num : Type} `{Numeric num}.
Variable h : HMM num.
Hypothesis Hwf : wf_hmm h.

Lemma state_id_spec (s : string) :
  s ∈ states h ->
  s2i h !! s = Some (state_id h s) /\
  0 <= state_id h s < Z.of_nat (length (states h)) /\
  states h !! Z.to_nat (state_id h s) = Some s.
Proof.
  intros Hs. unfold state_id, dict_get. rewrite (wf_s2i h Hwf).
  destruct (index_of_in (states h) s Hs) as [j Hj]. rewrite Hj.
  split; [done|]. by apply index_of_Some.
Qed.

Lemma word_id_spec (w : string) :
  w2i h !! shown h w = Some (word_id h w) /\
  0 <= word_id h w < Z.of_nat (length (emissions h)) /\
  emissions h !! Z.to_nat (word_id h w) = Some (shown h w).
Proof.
  assert (w2i h !! shown h w = Some (word_id h w)) as Hid.
  { unfold word_id, encode_word, shown, dict_get. rewrite (wf_w2i h Hwf).
    destruct (decide (w ∈ emissions h)) as [Hin|Hin].
    - destruct (index_of_in (emissions h) w Hin) as [i Hi]. by rewrite !Hi.
    - rewrite (index_of_notin _ w Hin).
      destruct (index_of_in (emissions h) UNK (wf_unk h Hwf)) as [i Hi]. by rewrite !Hi. }
  split; [done|]. rewrite (wf_w2i h Hwf) in Hid. by apply index_of_Some.
Qed.

Lemma state_id_eq (s s' : string) (j : Z) :
  s2i h !! s = Some j -> s' ∈ states h ->
  Z.to_nat (state_id h s') = Z.to_nat j <-> s' = s.
Proof.
  intros Hj Hs'. destruct (state_id_spec s' Hs') as (Hid & Hrange & Hl).
  pose proof Hj as Hj'. rewrite (wf_s2i h Hwf) in Hj'.
  apply index_of_Some in Hj' as [Hjr Hjl]. split.
  - intros Heq. rewrite Heq in Hl. congruence.
  - intros ->. congruence.
Qed.

Lemma word_id_eq (w w' : string) (i : Z) :
  w2i h !! w = Some i ->
  Z.to_nat (word_id h w') = Z.to_nat i <-> shown h w' = w.
Proof.
  intros Hi. destruct (word_id_spec w') as (Hid & Hrange & Hl).
  pose proof Hi as Hi'. rewrite (wf_w2i h Hwf) in Hi'.
  apply index_of_Some in Hi' as [Hir Hil]. split.
  - intros Heq. rewrite Heq in Hl. congruence.
  - intros Hs. rewrite Hs in Hid. congruence.
Qed.

Let enc (wt : string * string) : Z * Z := (word_id h wt.1, state_id h wt.2).

Lemma emission_events_count (data : list (list (string * string))) (s w : string) (j i : Z) :
  Forall (Forall (fun wt => wt.2 ∈ states h)) data ->
  s2i h !! s = Some j -> w2i h !! w = Some i ->
  count (fun e => e = (Z.to_nat j, Z.to_nat i))
        (concat (map emission_events (map (map enc) data))) = n_emit h data s w /\
  count (fun e => e.1 = Z.to_nat j)
        (concat (map emission_events (map (map enc) data))) = n_tag data s.
Proof.
  intros Hall Hj Hi. unfold n_emit, n_tag.
  induction Hall as [|sent data Hsent _ [IH1 IH2]]; [done|].
  cbn [map concat]. rewrite !count_app, IH1, IH2. split; f_equal.
  - unfold emission_events. rewrite map_map, count_map. apply count_ext.
    intros wt Hwt. apply (proj1 (Forall_forall _ _) Hsent) in Hwt. cbn [enc fst snd].
    rewrite <- (state_id_eq s wt.2 j Hj Hwt), <- (word_id_eq w wt.1 i Hi).
    split; [by intros [= -> ->] | by intros [-> ->]].
  - unfold emission_events. rewrite map_map, count_map. apply count_ext.
    intros wt Hwt. apply (proj1 (Forall_forall _ _) Hsent) in Hwt. cbn [enc fst snd].
    by rewrite <- (state_id_eq s wt.2 j Hj Hwt).
Qed.

Lemma init_events_count (data : list (list (string * string))) (s : string) (j : Z) :
  Forall (Forall (fun wt => wt.2 ∈ states h)) data ->
  s2i h !! s = Some j ->
  count (fun e => e = (0%nat, Z.to_nat j))
        (concat (map init_events (map (map enc) data))) = n_start data s /\
  count (fun e => e.1 = 0%nat)
        (concat (map init_events (map (map enc) data))) = n_sent data.
Proof.
  intros Hall Hj. unfold n_start, n_sent.
  induction Hall as [|sent data Hsent _ [IH1 IH2]]; [done|].
  cbn [map concat]. rewrite !count_app, !count_cons, IH1, IH2.
  destruct sent as [|wt sent].
  - cbn [map init_events head]. unfold count at 1 3. cbn [filter list_filter length].
    rewrite !decide_False by (done || tauto). done.
  - apply Forall_cons in Hsent as [Hwt _].
    cbn [map init_events head enc fst snd]. rewrite !count_cons.
    unfold count at 1 3. cbn [filter list_filter length fst].
    rewrite (decide_True (P := 0%nat = 0%nat)) by done.
    rewrite (decide_True (P := wt :: sent <> [])) by done.
    split; [|done]. f_equal.
    destruct (decide (wt.2 = s)) as [Heq|Hne].
    + rewrite !decide_True; [done | by rewrite Heq |].
      f_equal. by apply (state_id_eq s wt.2 j Hj Hwt).
    + rewrite !decide_False; [done | by intros [= ?] |].
      intros [= Heq]. by apply (state_id_eq s wt.2 j Hj Hwt) in Heq.
Qed.

Lemma transition_events_pairs (sent : list (string * string)) :
  transition_events [] (map enc sent) =
  map (fun p => (Z.to_nat (state_id h p.1), Z.to_nat (state_id h p.2))) (tag_pairs sent).
Proof.
  unfold transition_events, tag_pairs. cbn [app]. rewrite map_map. cbn [enc snd].
  rewrite <- (map_map snd (fun s => Z.to_nat (state_id h s))).
  generalize (map snd sent). intros ts.
  destruct ts as [|t ts]; [done|]. cbn [map tail].
  revert t. induction ts as [|t' ts IH]; intros t; [done|].
  cbn [map zip zip_with fst snd]. f_equal. apply IH.
Qed.

Lemma tag_pairs_states (sent : list (string * string)) (p : string * string) :
  Forall (fun wt => wt.2 ∈ states h) sent -> p ∈ tag_pairs sent ->
  p.1 ∈ states h /\ p.2 ∈ states h.
Proof.
  intros Hall Hp. unfold tag_pairs in Hp.
  assert (Forall (fun t => t ∈ states h) (map snd sent)) as Hts.
  { apply Forall_forall. intros t Ht. apply list_elem_of_fmap in Ht as (wt & -> & Hwt).
    by apply (proj1 (Forall_forall _ _) Hall). }
  revert Hp Hts. generalize (map snd sent). intros ts Hp Hts.
  destruct p as [a b]. apply elem_of_zip_l in Hp as Ha. apply elem_of_zip_r in Hp as Hb.
  cbn [fst snd]. split.
  - by apply (proj1 (Forall_forall _ _) Hts).
  - apply (proj1 (Forall_forall _ _) Hts). destruct ts; [done|]. by right.
Qed.

Lemma transition_events_count (data : list (list (string * string))) (a b : string)
  (j k : Z) :
  Forall (Forall (fun wt => wt.2 ∈ states h)) data ->
  s2i h !! a = Some j -> s2i h !! b = Some k ->
  count (fun e => e = (Z.to_nat j, Z.to_nat k))
        (concat (map (transition_events []) (map (map enc) data))) = n_next data a b /\
  count (fun e => e.1 = Z.to_nat j)
        (concat (map (transition_events []) (map (map enc) data))) = n_prev data a.
Proof.
  intros Hall Hj Hk. unfold n_next, n_prev.
  induction Hall as [|sent data Hsent _ [IH1 IH2]]; [done|].
  cbn [map concat]. rewrite !count_app, IH1, IH2, transition_events_pairs.
  split; f_equal.
  - rewrite count_map. apply count_ext. intros p Hp.
    destruct (tag_pairs_states sent p Hsent Hp) as [H1 H2]. cbn [fst snd].
    split.
    + intros [= E1 E2]. apply (state_id_eq a p.1 j Hj H1) in E1.
      apply (state_id_eq b p.2 k Hk H2) in E2. destruct p. cbn [fst snd] in *. congruence.
    + intros ->. cbn [fst snd] in *.
      f_equal; [by apply (state_id_eq a a j) | by apply (state_id_eq b b k)].
  - rewrite count_map. apply count_ext. intros p Hp.
    destruct (tag_pairs_states sent p Hsent Hp) as [H1 _]. cbn [fst snd].
    by rewrite <- (state_id_eq a p.1 j Hj H1).
Qed.

End CorpusCounts.

Lemma events_in_range (S V : nat) (idx : list (list (Z * Z))) :
  Forall (Forall (valid_token S V)) idx ->
  Forall (fun e => (e.1 < S)%nat /\ (e.2 < V)%nat) (concat (map emission_events idx)) /\
  Forall (fun e => (e.1 < 1)%nat /\ (e.2 < S)%nat) (concat (map init_events idx)) /\
  Forall (fun e => (e.1 < S)%nat /\ (e.2 < S)%nat)
         (concat (map (transition_events []) idx)).
Proof.
  intros Hall.
  split; [|split]; apply Forall_concat, Forall_forall; intros evs Hevs;
    apply list_elem_of_fmap in Hevs as (sent & -> & Hsent);
    apply (proj1 (Forall_forall _ _) Hall) in Hsent.
  - unfold emission_events. apply Forall_forall. intros e He.
    apply list_elem_of_fmap in He as (ws & -> & Hws).
    apply (proj1 (Forall_forall _ _) Hsent) in Hws as [? ?]. cbn [fst snd]. lia.
  - destruct sent as [|ws sent]; [constructor|].
    apply Forall_cons in Hsent as [[? ?] _]. constructor; [|constructor].
    cbn [fst snd]. lia.
  - unfold transition_events. cbn [app].
    assert (Forall (fun s => (s < S)%nat) (map (fun ws : Z * Z => Z.to_nat ws.2) sent)) as Hss.
    { apply Forall_forall. intros s Hs. apply list_elem_of_fmap in Hs as (ws & -> & Hws).
      apply (proj1 (Forall_forall _ _) Hsent) in Hws as [? ?]. lia. }
    revert Hss. generalize (map (fun ws : Z * Z => Z.to_nat ws.2) sent). intros ss Hss.
    apply Forall_forall. intros [a b] He.
    apply elem_of_zip_l in He as Ha. apply elem_of_zip_r in He as Hb. cbn [fst snd].
    split; [by apply (proj1 (Forall_forall _ _) Hss)|].
    apply (proj1 (Forall_forall _ _) Hss). destruct ss; [done | by right].
Qed.

Lemma train_Ok_inv {num : Type} `{Numeric num} (h h' : HMM num)
  (data : list (list (string * string))) :
  wf_hmm h -> train h data = Ok h' ->
  (exists wt sent rest, data = (wt :: sent) :: rest) /\
  Forall (Forall (fun wt => wt.2 ∈ states h)) data.
Proof.
  intros Hwf Htrain.
  assert (exists wt sent rest, data = (wt :: sent) :: rest) as Hfirst.
  { destruct data as [|[|wt sent] rest]; [| |by eauto];
      unfold train, data2i_pairs, first_item in Htrain.
    - by rewrite getitem_nil in Htrain.
    - rewrite getitem_head in Htrain. cbn [bind] in Htrain.
      by rewrite getitem_nil in Htrain. }
  split; [done|].
  destruct (decide (Forall (Forall (fun wt => wt.2 ∈ states h)) data)) as [|Hnot]; [done|].
  unfold train in Htrain. by rewrite data2i_pairs_KeyError in Htrain.
Qed.

(** X7. What training estimates.  The tables [train] returns hold the
    add-one estimates of the corpus, as logarithms to base 2: for a tag
    [s], the start entry is (sentences that start with [s] + 1) /
    (non-empty sentences + number of states); the emission entry of a
    word [w] is (occurrences of [w] with tag [s] + 1) / (tokens with
    tag [s] + size of the vocabulary with the unknown symbol), words
    outside the vocabulary counting as the unknown symbol; the transition
    entry to a tag [b] is (times [b] follows [s] + 1) / (tokens with tag
    [s] that have a successor + number of states). *)
Theorem train_add_one_estimates (h h' : HMM xreal) (data : list (list (string * string))) :
  wf_hmm h -> train h data = Ok h' ->
  forall s j, s2i h !! s = Some j ->
    getitem2 (init_prob h') 0 j =
      Ok (Fin (log2R ((INR (n_start data s) + 1) /
                      (INR (n_sent data) + INR (length (states h)))))) /\
    (forall w i, w2i h !! w = Some i ->
       getitem2 (emission_prob h') j i =
         Ok (Fin (log2R ((INR (n_emit h data s w) + 1) /
                         (INR (n_tag data s) + INR (length (emissions h))))))) /\
    (forall b k, s2i h !! b = Some k ->
       getitem2 (transition_prob h') j k =
         Ok (Fin (log2R ((INR (n_next data s b) + 1) /
                         (INR (n_prev data s) + INR (length (states h))))))).
Proof.
  intros Hwf Htrain s j Hj.
  destruct (train_Ok_inv h h' data Hwf Htrain) as [Hfirst Hall].
  destruct (train_counts h data Hwf Hfirst Hall) as [Hsh Heq].
  rewrite Htrain in Heq. injection Heq as ->. clear Htrain.
  destruct (data2i_pairs_total h data Hwf Hfirst Hall) as [_ Hidx].
  set (idx := map (map (fun wt => (word_id h wt.1, state_id h wt.2))) data) in *.
  set (S' := length (states h)) in *. set (V := length (emissions h)) in *.
  destruct (events_in_range S' V idx Hidx) as (Hre & Hri & Hrt).
  set (t0 := {| t_init := fill_zero (init_prob h);
                t_emission := fill_zero (emission_prob h);
                t_transition := fill_zero (transition_prob h) |}) in *.
  destruct (count_corpus_events idx t0) as (He & Hi & Ht).
  pose proof (holds_counts_all 1 S' _ _ [] (holds_counts_zero 1 S' _ (wf_init h Hwf)) Hri)
    as Hci.
  pose proof (holds_counts_all S' V _ _ [] (holds_counts_zero S' V _ (wf_emission h Hwf)) Hre)
    as Hce.
  pose proof (holds_counts_all S' S' _ _ [] (holds_counts_zero S' S' _ (wf_transition h Hwf)) Hrt)
    as Hct.
  cbn [app] in Hci, Hce, Hct.
  change (fill_zero (init_prob h)) with (t_init t0) in Hci.
  change (fill_zero (emission_prob h)) with (t_emission t0) in Hce.
  change (fill_zero (transition_prob h)) with (t_transition t0) in Hct.
  rewrite <- Hi in Hci. rewrite <- He in Hce. rewrite <- Ht in Hct.
  set (t := count_corpus t0 idx) in *.
  assert (0 <= j < Z.of_nat S') as Hjr.
  { rewrite (wf_s2i h Hwf) in Hj. by apply index_of_Some in Hj as [? _]. }
  pose proof Hsh as (Hsi & Hse & Hst).
  assert (forall (R C : nat) m, shaped R C m -> shaped R C (map normalize_row (add_one m)))
    as Hnorm.
  { intros R C m Hm. apply shaped_lengths.
    rewrite <- (proj1 (shaped_lengths R C m) Hm), <- (add_one_shape m).
    rewrite map_map. apply map_ext. intros row. unfold normalize_row.
    by rewrite log2_div_length. }
  assert (map (fun row => log2_div row (np_sum (concat (add_one (t_init t)))))
              (add_one (t_init t)) = map normalize_row (add_one (t_init t))) as Hini.
  { destruct (t_init t) as [|row0 [|? ?]]; try (destruct Hsi as [? _]; simpl in *; lia).
    cbn [add_one map concat]. by rewrite app_nil_r. }
  cbn [init_prob emission_prob transition_prob]. rewrite Hini.
  split; [|split].
  - change 0 with (Z.of_nat 0). rewrite <- (Z2Nat.id j) by lia.
    rewrite (getitem2_total (of_Z 0)).
    + f_equal. rewrite (normalized_count 1 S' _ _ _ _ Hci) by lia.
      destruct (init_events_count h Hwf data s j Hall Hj) as [E1 E2].
      fold idx in E1, E2. by rewrite E1, E2.
    + destruct (Hnorm _ _ _ Hsi) as [-> _]. lia.
    + rewrite (shaped_nth _ _ _ _ (Hnorm _ _ _ Hsi)); lia.
  - intros w i Hi'.
    assert (0 <= i < Z.of_nat V) as Hir.
    { rewrite (wf_w2i h Hwf) in Hi'. by apply index_of_Some in Hi' as [? _]. }
    rewrite <- (Z2Nat.id j), <- (Z2Nat.id i) by lia.
    rewrite (getitem2_total (of_Z 0)).
    + f_equal. rewrite (normalized_count S' V _ _ _ _ Hce) by lia.
      destruct (emission_events_count h Hwf data s w j i Hall Hj Hi') as [E1 E2].
      fold idx in E1, E2. by rewrite E1, E2.
    + destruct (Hnorm _ _ _ Hse) as [-> _]. lia.
    + rewrite (shaped_nth _ _ _ _ (Hnorm _ _ _ Hse)); lia.
  - intros b k Hk.
    assert (0 <= k < Z.of_nat S') as Hkr.
    { rewrite (wf_s2i h Hwf) in Hk. by apply index_of_Some in Hk as [? _]. }
    rewrite <- (Z2Nat.id j), <- (Z2Nat.id k) by lia.
    rewrite (getitem2_total (of_Z 0)).
    + f_equal. rewrite (normalized_count S' S' _ _ _ _ Hct) by lia.
      destruct (transition_events_count h Hwf data s b j k Hall Hj Hk) as [E1 E2].
      fold idx in E1, E2. by rewrite E1, E2.
    + destruct (Hnorm _ _ _ Hst) as [-> _]. lia.
    + rewrite (shaped_nth _ _ _ _ (Hnorm _ _ _ Hst)); lia.
Qed.

Lemma train_add_one_estimates_witness :
  let h : HMM xreal := HMM_init ["a"] ["T"] in
  let data := [[("a", "T"); ("zzz", "T")]] in
  exists h' : HMM xreal,
    train h data = Ok h' /\
    forall s j, s2i h !! s = Some j ->
      getitem2 (init_prob h') 0 j =
        Ok (Fin (log2R ((INR (n_start data s) + 1) /
                        (INR (n_sent data) + INR (length (states h)))))) /\
      (forall w i, w2i h !! w = Some i ->
         getitem2 (emission_prob h') j i =
           Ok (Fin (log2R ((INR (n_emit h data s w) + 1) /
                           (INR (n_tag data s) + INR (length (emissions h))))))) /\
      (forall b k, s2i h !! b = Some k ->
         getitem2 (transition_prob h') j k =
           Ok (Fin (log2R ((INR (n_next data s b) + 1) /
                           (INR (n_prev data s) + INR (length (states h))))))).
Proof.
  intros h data. eexists. split; [vm_compute; reflexivity|].
  apply (train_add_one_estimates h).
  - split; [reflexivity | reflexivity | vm_compute; right; left | | |];
      (split; [reflexivity | repeat constructor]).
  - vm_compute. reflexivity.
Defined.

(** ** Hard EM: errors, tags and the last iteration *)

Lemma mapM_Raise {A B : Type} (e : exn) (f : A -> res B) (l : list A) :
  (forall x, x ∈ l -> (exists y, f x = Ok y) \/ f x = Raise e) ->
  Exists (fun x => f x = Raise e) l ->
  mapM f l = Raise e.
Proof.
  intros Hf Hex. induction Hex as [x l Hx|x l _ IH]; cbn [mapM].
  - by rewrite Hx.
  - destruct (Hf x ltac:(left)) as [[y ->]| ->]; [|done]. cbn [bind].
    rewrite IH; [done|]. intros z Hz. apply Hf. by right.
Qed.

Section EMOutcome.
Context {num : Type} `{Numeric num}.
Variable list_set : list string -> list string.
Variables (vocab : list string) (train_input test_input : list (list string)).
Hypothesis list_set_spec : forall l x, x ∈ list_set l <-> x ∈ l.

Lemma viterbi_decode_outcome (h : HMM num) (ex : list string) :
  trained h ->
  (ex = [] /\ viterbi_decode h ex = Raise IndexError) \/
  (ex <> [] /\ exists tagged lp,
     viterbi_decode h ex = Ok (tagged, lp) /\ tagged <> [] /\
     Forall (fun wt => wt.2 ∈ states h) tagged).
Proof.
  intros Htr. destruct (trained_wf h Htr) as [Hwf HS].
  destruct ex as [|w ex].
  - left. split; [done|]. unfold viterbi_decode. by rewrite data2i_words_empty.
  - right. split; [done|].
    destruct (viterbi_run h (w :: ex) Hwf HS ltac:(done))
      as (? & ? & ? & ? & ? & tagged & lp & _ & _ & _ & _ & _ & _ & _ & _ & Hv & _ & Hw).
    exists tagged, lp. split; [done|]. split.
    + intros ->. done.
    + by eapply viterbi_decode_tags.
Qed.

Lemma decode_all_outcome (h : HMM num) (input : list (list string)) :
  trained h ->
  (Exists (fun ex => ex = []) input /\
   mapM (viterbi_decode h) input = Raise IndexError) \/
  (Forall (fun ex => ex <> []) input /\ exists preds,
     mapM (viterbi_decode h) input = Ok preds /\
     length preds = length input /\
     Forall (fun p => p.1 <> [] /\ Forall (fun wt => wt.2 ∈ states h) p.1) preds).
Proof.
  intros Htr.
  destruct (decide (Forall (fun ex => ex <> []) input)) as [Hall|Hnot].
  - right. split; [done|]. induction Hall as [|ex input Hex _ (preds & Hm & Hl & Hp)].
    + exists []. by repeat split.
    + destruct (viterbi_decode_outcome h ex Htr) as [[? _]|(_ & tagged & lp & Hv & Hne & Htags)];
        [done|].
      exists ((tagged, lp) :: preds). cbn [mapM]. rewrite Hv, Hm.
      split; [done|]. split; [simpl; lia|]. by constructor.
  - left. apply not_Forall_Exists in Hnot; [|apply _].
    assert (Exists (fun ex => ex = []) input) as Hex.
    { eapply Exists_impl; [exact Hnot|]. intros ex Hne. cbn beta in Hne.
      by destruct (decide (ex = [])). }
    split; [done|]. apply mapM_Raise.
    + intros ex _. destruct (viterbi_decode_outcome h ex Htr)
        as [[_ ?]|(_ & tagged & lp & Hv & _)]; [by right | left; by eexists].
    + eapply Exists_impl; [exact Hex|]. intros ex ->.
      by destruct (viterbi_decode_outcome h [] Htr) as [[_ ?]|[? _]].
Qed.

Lemma em_body_returns (st : em_state) :
  trained (em_hmm st) ->
  Forall (fun ex => ex <> []) train_input -> Forall (fun ex => ex <> []) test_input ->
  test_input <> [] ->
  exists st', em_body list_set vocab train_input test_input st = Ok st'.
Proof.
  intros Htr Htrain Htest Hne.
  destruct (decode_all_outcome (em_hmm st) train_input Htr)
    as [[Hex _]|(_ & ptrain & Hm1 & Hl1 & Hp1)].
  { apply Exists_exists in Hex as (ex & Hin & ->).
    by apply (proj1 (Forall_forall _ _) Htrain) in Hin. }
  destruct (decode_all_outcome (em_hmm st) test_input Htr)
    as [[Hex _]|(_ & ptest & Hm2 & Hl2 & Hp2)].
  { apply Exists_exists in Hex as (ex & Hin & ->).
    by apply (proj1 (Forall_forall _ _) Htest) in Hin. }
  unfold em_body. rewrite Hm1, Hm2. cbn [bind].
  unfold get_perplexity. rewrite decide_False by (destruct test_input; simpl in *; [done|lia]).
  cbn [bind].
  set (new_train_set := map fst (ptrain ++ ptest)).
  assert (Forall (fun sent => sent <> []) new_train_set) as Hnonempty.
  { unfold new_train_set. apply Forall_forall. intros sent Hs.
    apply list_elem_of_fmap in Hs as (p & -> & Hp). apply elem_of_app in Hp as [Hp|Hp].
    - by apply (proj1 (Forall_forall _ _) Hp1) in Hp as [? _].
    - by apply (proj1 (Forall_forall _ _) Hp2) in Hp as [? _]. }
  assert (new_train_set <> []) as Hdata.
  { unfold new_train_set. destruct ptest; [destruct test_input; simpl in *; [done|lia]|].
    by destruct ptrain. }
  set (h0 := HMM_init vocab (list_set (tags_of new_train_set)) : HMM num).
  destruct (train_counts h0 new_train_set) as [_ Htrained].
  - apply HMM_init_wf.
  - destruct new_train_set as [|[|wt sent] rest]; [done| |by eauto].
    by apply Forall_cons in Hnonempty as [? _].
  - apply Forall_forall. intros sent Hs. apply Forall_forall. intros wt Hwt.
    cbn [h0 HMM_init states]. apply list_set_spec. unfold tags_of.
    apply list_elem_of_In, in_concat. exists (map snd sent).
    split; apply list_elem_of_In.
    + by apply (list_elem_of_fmap_2 (map snd)).
    + by apply (list_elem_of_fmap_2 snd).
  - fold h0. rewrite Htrained. cbn [bind]. by eexists.
Qed.

Lemma em_body_tags (st st' : em_state) :
  em_body list_set vocab train_input test_input st = Ok st' ->
  trained (em_hmm st') /\
  emissions (em_hmm st') = vocab ++ [UNK] /\
  forall s, s ∈ states (em_hmm st') -> s ∈ states (em_hmm st).
Proof.
  intros Hb. destruct (em_body_log _ _ _ _ _ _ Hb) as (_ & _ & _ & _ & Htr).
  split; [done|]. unfold em_body in Hb.
  inv_bind Hb as ptrain Hm1. inv_bind Hb as ptest Hm2. inv_bind Hb as p Hp.
  inv_bind Hb as hmm Hhmm. injection Hb as <-. cbn [em_hmm].
  destruct (train_frame _ _ _ Hhmm) as (He & Hs & _). rewrite He, Hs.
  split; [done|]. cbn [HMM_init states].
  intros s Hs'. apply (proj1 (list_set_spec _ _)) in Hs'. unfold tags_of in Hs'.
  apply (proj1 (list_elem_of_In _ _)) in Hs'.
  apply (proj1 (in_concat _ _)) in Hs' as (ts & Hts & Hin).
  apply (proj2 (list_elem_of_In _ _)) in Hts, Hin.
  apply list_elem_of_fmap in Hts as (sent & -> & Hsent).
  apply list_elem_of_fmap in Hin as (wt & -> & Hwt).
  apply list_elem_of_fmap in Hsent as ([tagged lp] & -> & Hpred). cbn [fst] in Hwt.
  assert (exists ex, viterbi_decode (em_hmm st) ex = Ok (tagged, lp)) as [ex Hv].
  { apply elem_of_app in Hpred as [Hpred|Hpred].
    - pose proof (mapM_Forall2 (fun ex p => viterbi_decode (em_hmm st) ex = Ok p)
                    _ _ _ (fun _ _ _ E => E) Hm1) as H2.
      apply list_elem_of_lookup in Hpred as [k Hk].
      destruct (Forall2_lookup_r _ _ _ _ _ H2 Hk) as (ex & _ & Hex). by exists ex.
    - pose proof (mapM_Forall2 (fun ex p => viterbi_decode (em_hmm st) ex = Ok p)
                    _ _ _ (fun _ _ _ E => E) Hm2) as H2.
      apply list_elem_of_lookup in Hpred as [k Hk].
      destruct (Forall2_lookup_r _ _ _ _ _ H2 Hk) as (ex & _ & Hex). by exists ex. }
  apply viterbi_decode_tags in Hv. by apply (proj1 (Forall_forall _ _) Hv) in Hwt.
Qed.

Lemma em_loop_tags (fuel : nat) (st st' : em_state) :
  em_loop list_set vocab train_input test_input fuel st = Ok st' ->
  trained (em_hmm st) -> emissions (em_hmm st) = vocab ++ [UNK] ->
  trained (em_hmm st') /\
  emissions (em_hmm st') = vocab ++ [UNK] /\
  forall s, s ∈ states (em_hmm st') -> s ∈ states (em_hmm st).
Proof.
  revert st. induction fuel as [|fuel IH]; intros st Hl Htr He; cbn [em_loop] in Hl;
    destruct (ltb PERPLEXITY_TH (delta st)); try done;
    try (injection Hl as <-; by repeat split).
  inv_bind Hl as st1 Hst1. destruct (em_body_tags _ _ Hst1) as (Htr1 & He1 & Hs1).
  destruct (IH st1 Hl Htr1 He1) as (Htr' & He' & Hs'). by auto.
Qed.

Lemma em_loop_never_raises (fuel : nat) (st : em_state) :
  trained (em_hmm st) ->
  Forall (fun ex => ex <> []) train_input -> Forall (fun ex => ex <> []) test_input ->
  test_input <> [] ->
  (exists st', em_loop list_set vocab train_input test_input fuel st = Ok st') \/
  em_loop list_set vocab train_input test_input fuel st = Raise OutOfFuel.
Proof.
  intros Htr Htrain Htest Hne. revert st Htr.
  induction fuel as [|fuel IH]; intros st Htr; cbn [em_loop];
    destruct (ltb PERPLEXITY_TH (delta st)); try (left; by eexists); [by right|].
  destruct (em_body_returns st Htr Htrain Htest Hne) as [st1 Hst1].
  rewrite Hst1. cbn [bind]. apply IH. by destruct (em_body_tags _ _ Hst1).
Qed.

End EMOutcome.

(** X8. One iteration of hard EM on a trained model, when [list(set(l))]
    lists exactly the elements of [l].  It raises [IndexError] if a
    sentence of the training input or of the test input is empty, and
    [ZeroDivisionError] if there is no test sentence at all; otherwise it
    returns, with a model that is trained again. *)
Theorem em_body_outcome {num : Type} `{Numeric num}
  (list_set : list string -> list string) (vocab : list string)
  (train_input test_input : list (list string)) (st : em_state) :
  (forall l x, x ∈ list_set l <-> x ∈ l) ->
  trained (em_hmm st) ->
  (Exists (fun ex => ex = []) (train_input ++ test_input) ->
   em_body list_set vocab train_input test_input st = Raise IndexError) /\
  (Forall (fun ex => ex <> []) train_input -> test_input = [] ->
   em_body list_set vocab train_input test_input st = Raise ZeroDivisionError) /\
  (Forall (fun ex => ex <> []) (train_input ++ test_input) -> test_input <> [] ->
   exists st', em_body list_set vocab train_input test_input st = Ok st' /\
               trained (em_hmm st')).
Proof.
  intros Hset Htr. split; [|split].
  - intros Hex. unfold em_body.
    destruct (decode_all_outcome (em_hmm st) train_input Htr)
      as [[_ ->]|(Hall & ptrain & -> & _)]; [done|]. cbn [bind].
    destruct (decode_all_outcome (em_hmm st) test_input Htr)
      as [[_ ->]|(Hall' & _)]; [done|].
    apply Exists_app in Hex as [Hex|Hex];
      apply Exists_exists in Hex as (ex & Hin & ->).
    + by apply (proj1 (Forall_forall _ _) Hall) in Hin.
    + by apply (proj1 (Forall_forall _ _) Hall') in Hin.
  - intros Hall ->. unfold em_body.
    destruct (decode_all_outcome (em_hmm st) train_input Htr)
      as [[Hex _]|(_ & ptrain & -> & _)].
    + apply Exists_exists in Hex as (ex & Hin & ->).
      by apply (proj1 (Forall_forall _ _) Hall) in Hin.
    + done.
  - intros Hall Hne. apply Forall_app in Hall as [Htrain Htest].
    destruct (em_body_returns list_set vocab train_input test_input Hset st Htr
                Htrain Htest Hne) as [st' Hst'].
    exists st'. split; [done|].
    by destruct (em_body_tags list_set vocab train_input test_input Hset _ _ Hst').
Qed.

Lemma em_body_outcome_witness :
  exists h : HMM xreal,
    train (HMM_init ["a"] ["T"]) [[("a", "T")]] = Ok h /\
    let st := {| em_hmm := h; old_perplexity := inf; delta := inf; em_log := [] |} in
    (Exists (fun ex => ex = []) ([["a"]] ++ [["a"; "b"]]) ->
     em_body remove_dups ["a"] [["a"]] [["a"; "b"]] st = Raise IndexError) /\
    (Forall (fun ex => ex <> []) [["a"]] -> [["a"; "b"]] = [] ->
     em_body remove_dups ["a"] [["a"]] [["a"; "b"]] st = Raise ZeroDivisionError) /\
    (Forall (fun ex => ex <> []) ([["a"]] ++ [["a"; "b"]]) -> [["a"; "b"]] <> [] ->
     exists st', em_body remove_dups ["a"] [["a"]] [["a"; "b"]] st = Ok st' /\
                 trained (em_hmm st')).
Proof.
  eexists. split; [vm_compute; reflexivity|].
  apply em_body_outcome.
  - intros l x. apply elem_of_remove_dups.
  - exists ["a"], ["T"], [[("a", "T")]]. vm_compute. reflexivity.
Defined.

(** X9. Hard EM does not raise.  When the seed model can be trained, no
    sentence of the two inputs is empty and there is a test sentence, the
    loop either stops with a result or goes on for as long as it is given
    iterations: no iteration raises an exception. *)
Theorem hard_em_never_raises {num : Type} `{Numeric num}
  (list_set : list string -> list string) (vocab : list string)
  (train_input test_input : list (list string)) (fuel : nat) (tags : list string)
  (mini_train_set : list (list (string * string))) (h0 : HMM num) :
  (forall l x, x ∈ list_set l <-> x ∈ l) ->
  train (HMM_init vocab tags) mini_train_set = Ok h0 ->
  Forall (fun ex => ex <> []) train_input -> Forall (fun ex => ex <> []) test_input ->
  test_input <> [] ->
  (exists st, hard_em list_set vocab train_input test_input fuel tags mini_train_set = Ok st) \/
  hard_em list_set vocab train_input test_input fuel tags mini_train_set = Raise OutOfFuel.
Proof.
  intros Hset Hseed Htrain Htest Hne. unfold hard_em. rewrite Hseed. cbn [bind].
  apply em_loop_never_raises; try done. cbn [em_hmm]. by eexists _, _, _.
Qed.

Lemma hard_em_never_raises_witness :
  exists h0 : HMM xreal,
    train (HMM_init ["a"; "b"] ["T"; "U"]) [[("a", "T"); ("b", "U")]] = Ok h0 /\
    ((exists st, hard_em remove_dups ["a"; "b"] [["a"]] [["b"; "a"]] 3 ["T"; "U"]
                   [[("a", "T"); ("b", "U")]] = Ok st) \/
     hard_em (num := xreal) remove_dups ["a"; "b"] [["a"]] [["b"; "a"]] 3 ["T"; "U"]
       [[("a", "T"); ("b", "U")]] = Raise OutOfFuel).
Proof.
  eexists. split; [vm_compute; reflexivity|].
  eapply hard_em_never_raises.
  - intros l x. apply elem_of_remove_dups.
  - vm_compute. reflexivity.
  - repeat constructor; discriminate.
  - repeat constructor; discriminate.
  - discriminate.
Defined.

Lemma one_tag_run :
  exists st : @em_state xreal,
    hard_em remove_dups ["a"] [["a"]] [["a"]] 2 ["T"] [[("a", "T")]; [("a", "T")]] = Ok st.
Proof.
  assert (exists h : HMM xreal,
            train (HMM_init ["a"] ["T"]) [[("a", "T")]; [("a", "T")]] = Ok h)
    as [h Ht] by (eexists; vm_compute; reflexivity).
  destruct (em_body_one_tag h Ht) as [p Hbody].
  assert (sub (Fin p) (Fin p) = Fin 0%R) as Hzero by (simpl; f_equal; lra).
  eexists. unfold hard_em. rewrite Ht. cbn [bind em_loop delta].
  rewrite delta_seed_above, Hbody. cbn [bind em_loop delta].
  change (sub inf (Fin p)) with (inf : xreal).
  rewrite delta_seed_above, Hbody. cbn [bind em_loop delta].
  rewrite Hzero, delta_zero_not_above. done.
Qed.

(** X10. Hard EM never invents a tag and never changes the vocabulary:
    the model a run returns is a trained model whose words are [vocab]
    followed by the unknown symbol and whose states all belong to the
    tags the run started with. *)
Theorem hard_em_tags_shrink {num : Type} `{Numeric num}
  (list_set : list string -> list string) (vocab : list string)
  (train_input test_input : list (list string)) (fuel : nat) (tags : list string)
  (mini_train_set : list (list (string * string))) (st : em_state) :
  (forall l x, x ∈ list_set l <-> x ∈ l) ->
  hard_em list_set vocab train_input test_input fuel tags mini_train_set = Ok st ->
  trained (em_hmm st) /\
  emissions (em_hmm st) = vocab ++ [UNK] /\
  forall s, s ∈ states (em_hmm st) -> s ∈ tags.
Proof.
  intros Hset Hrun. unfold hard_em in Hrun. inv_bind Hrun as h0 Hseed.
  destruct (train_frame _ _ _ Hseed) as (He & Hs & _).
  destruct (em_loop_tags list_set vocab train_input test_input Hset _ _ _ Hrun)
    as (Htr & He' & Hs').
  - cbn [em_hmm]. by eexists _, _, _.
  - done.
  - cbn [em_hmm] in Hs'. rewrite Hs in Hs'. done.
Qed.

Lemma hard_em_tags_shrink_witness :
  exists st : @em_state xreal,
    hard_em remove_dups ["a"] [["a"]] [["a"]] 2 ["T"] [[("a", "T")]; [("a", "T")]] = Ok st /\
    trained (em_hmm st) /\
    emissions (em_hmm st) = ["a"] ++ [UNK] /\
    forall s, s ∈ states (em_hmm st) -> s ∈ ["T"].
Proof.
  destruct one_tag_run as [st Hst]. exists st. split; [exact Hst|].
  apply (hard_em_tags_shrink remove_dups ["a"] [["a"]] [["a"]] 2 ["T"]
           [[("a", "T")]; [("a", "T")]]).
  - intros l x. apply elem_of_remove_dups.
  - exact Hst.
Defined.

(** X11. Every run of hard EM that returns has ended with a full
    iteration whose delta was not above the threshold: after the
    evaluation that met the stopping condition the model was still
    replaced by a retrained one, so the model returned is not the model
    whose perplexity was evaluated last. *)
Theorem hard_em_ends_with_retrain (list_set : list string -> list string)
  (vocab : list string) (train_input test_input : list (list string)) (fuel : nat)
  (tags : list string) (mini_train_set : list (list (string * string)))
  (st : @em_state xreal) :
  hard_em list_set vocab train_input test_input fuel tags mini_train_set = Ok st ->
  exists pre p,
    em_log st = pre ++ [Decoded; Evaluated p (delta st); Retrained] /\
    ltb PERPLEXITY_TH (delta st) = false.
Proof.
  intros Hrun. unfold hard_em in Hrun. inv_bind Hrun as h0 Hseed.
  eapply em_loop_ends_with_retrain; [exact Hrun|]. apply delta_seed_above.
Qed.

Lemma hard_em_ends_with_retrain_witness :
  exists st : @em_state xreal,
    hard_em remove_dups ["a"] [["a"]] [["a"]] 2 ["T"] [[("a", "T")]; [("a", "T")]] = Ok st /\
    exists pre p,
      em_log st = pre ++ [Decoded; Evaluated p (delta st); Retrained] /\
      ltb PERPLEXITY_TH (delta st) = false.
Proof.
  destruct one_tag_run as [st Hst]. exists st. split; [exact Hst|].
  apply (hard_em_ends_with_retrain remove_dups ["a"] [["a"]] [["a"]] 2 ["T"]
           [[("a", "T")]; [("a", "T")]]).
  exact Hst.
Defined.

(** ** The corpus, the accuracy and the cells of the notebook *)

Section Enumerate.
Context {A : Type}.

Lemma enumerate_from_snd (i : Z) (l : list A) : map snd (enumerate_from i l) = l.
Proof. revert i. induction l as [|x l IH]; intros i; [done|]. simpl. by rewrite IH. Qed.

Lemma enumerate_from_length (i : Z) (l : list A) : length (enumerate_from i l) = length l.
Proof. by rewrite <- (length_map snd), enumerate_from_snd. Qed.

Lemma enumerate_from_lookup (i : Z) (l : list A) (k : nat) (x : A) :
  l !! k = Some x -> enumerate_from i l !! k = Some (i + Z.of_nat k, x).
Proof.
  revert i k. induction l as [|y l IH]; intros i k Hk; [done|].
  destruct k as [|k]; simpl in *.
  - injection Hk as ->. by rewrite Z.add_0_r.
  - rewrite (IH _ _ Hk). do 2 f_equal. lia.
Qed.

End Enumerate.

Lemma enumerate_from_map {A B : Type} (f : A -> B) (i : Z) (l : list A) :
  enumerate_from i (map f l) = map (fun ix => (ix.1, f ix.2)) (enumerate_from i l).
Proof. revert i. induction l as [|x l IH]; intros i; [done|]. simpl. by rewrite IH. Qed.

Lemma filter_index_map {A B : Type} (P : Z -> Prop) `{forall i, Decision (P i)}
  (f : A -> B) (l : list (Z * A)) :
  filter (fun ix : Z * B => P ix.1) (map (fun ix => (ix.1, f ix.2)) l) =
  map (fun ix => (ix.1, f ix.2)) (filter (fun ix : Z * A => P ix.1) l).
Proof.
  induction l as [|[i x] l IH]; [done|].
  cbn [map]. rewrite !filter_cons. cbn [fst snd]. rewrite IH. by case_decide.
Qed.

Section Split.
Variable lower : string -> string.

Lemma split_words (tagged_sents : list (list (string * string))) :
  test_input lower (map (map fst) tagged_sents) = map (map fst) (test_set lower tagged_sents) /\
  train_input lower (map (map fst) tagged_sents) = map (map fst) (train_set lower tagged_sents).
Proof.
  unfold test_input, test_set, train_input, train_set, enumerate.
  rewrite !enumerate_from_map.
  pose proof (filter_index_map (fun i => i mod 10 = 8 \/ i mod 10 = 9) (map fst)
                (enumerate_from 0 tagged_sents)) as E1.
  pose proof (filter_index_map (fun i => i mod 10 <> 8 /\ i mod 10 <> 9) (map fst)
                (enumerate_from 0 tagged_sents)) as E2.
  cbn beta in E1, E2. rewrite E1, E2.
  rewrite !map_map. cbn [fst snd]. unfold lower_tagged.
  split; apply map_ext; intros [i sent]; cbn [fst snd]; by rewrite !map_map.
Qed.

Lemma split_partition (tagged_sents : list (list (string * string))) :
  train_set lower tagged_sents ++ test_set lower tagged_sents ≡ₚ
  map (lower_tagged lower) tagged_sents.
Proof.
  unfold train_set, test_set. rewrite <- map_app.
  rewrite <- (enumerate_from_snd 0 tagged_sents) at 3. rewrite map_map.
  change (map ?f ?l) with (f <$> l). apply fmap_Permutation.
  etrans; [apply Permutation_app_comm|].
  etrans; [|apply (filter_app_complement
                     (fun isent : Z * list (string * string) =>
                        isent.1 mod 10 = 8 \/ isent.1 mod 10 = 9))].
  apply Permutation_app; [done|].
  erewrite (list_filter_iff (fun isent : Z * list (string * string) =>
                               isent.1 mod 10 <> 8 /\ isent.1 mod 10 <> 9)); [done|].
  intros [i sent]. cbn [fst]. tauto.
Qed.

End Split.

Lemma test_indices_count {A : Type} (l : list A) :
  Z.of_nat (length (filter (fun ix : Z * A => ix.1 mod 10 = 8 \/ ix.1 mod 10 = 9)
                           (enumerate l))) =
  2 * (Z.of_nat (length l) / 10) + Z.max 0 (Z.of_nat (length l) mod 10 - 8).
Proof.
  induction l as [|x l IH] using rev_ind; [done|].
  unfold enumerate in *. rewrite enumerate_from_app, filter_app, !length_app, Nat2Z.inj_add, IH.
  cbn [enumerate_from length]. rewrite filter_cons, filter_nil. cbn [fst].
  set (n := Z.of_nat (length l)). assert (0 <= n) by lia.
  replace (n + Z.of_nat 1) with (n + 1) by lia. replace (0 + n) with n by lia.
  case_decide; cbn [length]; Z.div_mod_to_equations; lia.
Qed.

(** X12. The split of the corpus.  Every sentence of the corpus, in lower
    case, goes to exactly one of [train_set] and [test_set]; the test set
    gets two of every ten sentences (those at positions 8 and 9 modulo
    10); and the two lists of untagged sentences are the words of the two
    tagged sets, sentence by sentence. *)
Theorem corpus_split (lower : string -> string)
  (tagged_sents : list (list (string * string))) :
  train_set lower tagged_sents ++ test_set lower tagged_sents ≡ₚ
    map (lower_tagged lower) tagged_sents /\
  Z.of_nat (length (test_set lower tagged_sents)) =
    2 * (Z.of_nat (length tagged_sents) / 10) +
    Z.max 0 (Z.of_nat (length tagged_sents) mod 10 - 8) /\
  test_input lower (map (map fst) tagged_sents) =
    map (map fst) (test_set lower tagged_sents) /\
  train_input lower (map (map fst) tagged_sents) =
    map (map fst) (train_set lower tagged_sents).
Proof.
  split; [apply split_partition|]. split; [|apply split_words].
  unfold test_set. rewrite length_map. apply test_indices_count.
Qed.

Section Accuracy.

Lemma np_equal_same_length (u v : list string) :
  length u = length v ->
  np_equal u v = Ok (zip_with (fun a b => bool_decide (a = b)) u v).
Proof.
  intros Hl. unfold np_equal, broadcast_length, broadcast.
  destruct (decide (length u = 1%nat)) as [H1|H1].
  - rewrite decide_True by lia. cbn [bind]. by rewrite decide_True by done.
  - rewrite decide_True by done. cbn [bind]. by rewrite decide_True by lia.
Qed.

Lemma count_true_from (b : list bool) (s : Z) :
  fold_left (fun s (x : bool) => if x then s + 1 else s) b s =
  s + Z.of_nat (count (fun x => x = true) b).
Proof.
  revert s. induction b as [|x b IH]; intros s; [cbn; lia|].
  cbn [fold_left]. rewrite IH, count_cons. destruct x.
  - rewrite decide_True by done. lia.
  - rewrite decide_False by done. lia.
Qed.

Lemma count_le {A : Type} (P : A -> Prop) `{forall x, Decision (P x)} (l : list A) :
  (count P l <= length l)%nat.
Proof. apply length_filter. Qed.

Lemma count_all_equal (u v : list string) :
  length u = length v ->
  count (fun x => x = true) (zip_with (fun a b => bool_decide (a = b)) u v) = length v <->
  u = v.
Proof.
  revert v. induction u as [|a u IH]; intros [|b v] Hl; try done.
  simpl in Hl. cbn [zip_with length]. rewrite count_cons.
  pose proof (count_le (fun x => x = true) (zip_with (fun a b => bool_decide (a = b)) u v)).
  rewrite length_zip_with in *.
  destruct (decide (a = b)) as [->|Hne].
  - rewrite bool_decide_eq_true_2 by done. rewrite decide_True by done.
    split.
    + intros Hc. f_equal. apply IH; lia.
    + intros [= ->]. f_equal. apply IH; [lia | done].
  - rewrite bool_decide_eq_false_2 by done. rewrite decide_False by done.
    split; [lia | by intros [= ? ?]].
Qed.

End Accuracy.

Lemma accuracy_value {num : Type} `{Numeric num}
  (sys_data gold_data : list (list (string * string))) :
  length (tags_of sys_data) = length (tags_of gold_data) ->
  exists m : nat,
    (m <= length (tags_of gold_data))%nat /\
    (m = length (tags_of gold_data) <-> tags_of sys_data = tags_of gold_data) /\
    accuracy sys_data gold_data =
      Ok (div (of_Z (100 * Z.of_nat m)) (of_Z (Z.of_nat (length (tags_of gold_data))))).
Proof.
  intros Hl. unfold accuracy. rewrite (np_equal_same_length _ _ Hl). cbn [bind].
  unfold count_true. rewrite count_true_from, Z.add_0_l.
  eexists. split; [|split; [|reflexivity]].
  - etrans; [apply count_le|]. rewrite length_zip_with. lia.
  - by apply count_all_equal.
Qed.

Lemma percentage (m n : nat) :
  (m <= n)%nat -> (1 <= n)%nat ->
  exists a : R,
    div (of_Z (100 * Z.of_nat m)) (of_Z (Z.of_nat n)) = Fin a /\
    (0 <= a <= 100)%R /\ (a = 100%R <-> m = n).
Proof.
  intros Hm Hn. exists (100 * INR m / INR n)%R.
  assert (0 < INR n)%R as HnR by (apply lt_0_INR; lia).
  assert (0 <= INR m <= INR n)%R as HmR by (split; [apply pos_INR | by apply le_INR]).
  split; [|split].
  - change (of_Z ?z) with (Fin (IZR z)). rewrite div_fin by (apply not_0_IZR; lia).
    rewrite mult_IZR, <- !INR_IZR_INZ. done.
  - split.
    + apply Rmult_le_pos; [nra|]. left. by apply Rinv_0_lt_compat.
    + apply Rmult_le_reg_r with (INR n); [done|].
      unfold Rdiv. rewrite Rmult_assoc, Rinv_l by lra. nra.
  - split.
    + intros Ha. apply INR_eq.
      apply Rmult_eq_compat_r with (r := INR n) in Ha.
      unfold Rdiv in Ha. rewrite Rmult_assoc, Rinv_l in Ha by lra. lra.
    + intros ->. field. lra.
Qed.



Section Predictions.
Context {num : Type} `{Numeric num}.

Lemma tags_of_length (data : list (list (string * string))) :
  length (tags_of data) = list_sum (map length data).
Proof.
  unfold tags_of. induction data as [|sent data IH]; [done|].
  cbn [map concat list_sum]. by rewrite length_app, length_map, IH.
Qed.

Lemma decoders_words (h : HMM num) (ex : list string) :
  trained h -> ex <> [] ->
  exists g lg v lv,
    greedy_decode h ex = Ok (g, lg) /\
    viterbi_decode h ex = Ok (v, lv) /\
    fast_viterbi_decode h ex = Ok (v, lv) /\
    map fst g = map (shown h) ex /\ map fst v = map (shown h) ex.
Proof.
  intros Htr Hex. destruct (trained_wf h Htr) as [Hwf HS].
  destruct (greedy_decode_words h ex Hwf HS Hex) as (g & lg & Hg & Hgw).
  destruct (viterbi_run h ex Hwf HS Hex)
    as (? & ? & ? & ? & ? & v & lv & _ & _ & _ & _ & _ & _ & _ & _ & Hv & Hf & Hvw).
  by exists g, lg, v, lv.
Qed.

Lemma words_lengths {A : Type} (f : string -> string) (preds : list (list (string * A)))
  (input : list (list string)) :
  map (map fst) preds = map (map f) input -> map length preds = map length input.
Proof.
  intros Hw. apply (f_equal (map length)) in Hw. rewrite !map_map in Hw.
  etrans; [|etrans; [exact Hw|]]; apply map_ext; intros l; by rewrite length_map.
Qed.

Lemma baseline_predictions (h : HMM num) (input : list (list string)) :
  trained h -> Forall (fun ex => ex <> []) input ->
  exists preds,
    mapM (fun sent => g <- greedy_decode h sent ;;
                      v <- fast_viterbi_decode h sent ;; Ok (g.1, v.1)) input = Ok preds /\
    map (map fst) (map fst preds) = map (map (shown h)) input /\
    map (map fst) (map snd preds) = map (map (shown h)) input.
Proof.
  intros Htr Hall. induction Hall as [|ex input Hex _ (preds & Hm & Hl1 & Hl2)].
  - by exists [].
  - destruct (decoders_words h ex Htr Hex) as (g & lg & v & lv & Hg & _ & Hv & Hgl & Hvl).
    exists ((g, v) :: preds). cbn [mapM]. rewrite Hg. cbn [bind]. rewrite Hv. cbn [bind fst].
    rewrite Hm. cbn [bind map fst snd]. by rewrite Hl1, Hl2, Hgl, Hvl.
Qed.

Lemma final_predictions_lengths (h : HMM num) (input : list (list string)) :
  trained h -> Forall (fun ex => ex <> []) input ->
  exists preds,
    final_predictions h input = Ok preds /\ map length preds = map length input.
Proof.
  intros Htr Hall. unfold final_predictions.
  induction Hall as [|ex input Hex _ (preds & Hm & Hl)].
  - by exists [].
  - destruct (decoders_words h ex Htr Hex) as (g & lg & v & lv & _ & Hv & _ & _ & Hvl).
    exists (v :: preds). cbn [mapM]. rewrite Hv. cbn [bind fst]. rewrite Hm.
    cbn [bind map]. rewrite Hl. f_equal.
    by rewrite <- (length_map fst), Hvl, length_map.
Qed.

End Predictions.

(** The accuracy of predictions that have, sentence by sentence, the
    lengths of a gold standard with at least one token. *)
Lemma accuracy_of_predictions (preds gold : list (list (string * string))) :
  map length preds = map length gold -> gold <> [] ->
  Forall (fun sent => sent <> []) gold ->
  exists a : R, accuracy preds gold = Ok (Fin a) /\ (0 <= a <= 100)%R.
Proof.
  intros Hl Hne Hall.
  assert (length (tags_of preds) = length (tags_of gold)) as Hlen
    by (by rewrite !tags_of_length, Hl).
  destruct (accuracy_value preds gold Hlen) as (m & Hm & _ & ->).
  destruct (percentage m (length (tags_of gold)) Hm) as (a & Ha & Hr & _).
  { rewrite tags_of_length. destruct gold as [|sent gold]; [done|].
    apply Forall_cons in Hall as [Hs _]. destruct sent; [done|]. simpl. lia. }
  exists a. by rewrite Ha.
Qed.

Lemma first_sentence {A : Type} (l : list (list A)) :
  (9 <= length l)%nat -> Forall (fun sent => sent <> []) l ->
  exists s0 rest, l = s0 :: rest /\ s0 <> [].
Proof.
  intros Hn Hall. destruct l as [|s0 rest]; [simpl in Hn; lia|].
  apply Forall_cons in Hall as [? _]. by eauto.
Qed.

Section Notebook.
Variable lower : string -> string.
Variable list_set : list string -> list string.
Hypothesis list_set_spec : forall l x, x ∈ list_set l <-> x ∈ l.
Variable tagged_sents : list (list (string * string)).
Hypothesis Hsents : Forall (fun sent => sent <> []) tagged_sents.
Hypothesis Hnine : (9 <= length tagged_sents)%nat.

Let gold := test_set lower tagged_sents.
Let corpus := train_set lower tagged_sents.
Let mini := mini_train_set corpus.
Let input := test_input lower (map (map fst) tagged_sents).

Lemma notebook_sets_nonempty :
  Forall (fun sent => sent <> []) gold /\ Forall (fun sent => sent <> []) corpus /\
  gold <> [].
Proof.
  assert (forall (P : Z * list (string * string) -> Prop) `{forall x, Decision (P x)},
            Forall (fun sent => sent <> [])
              (map (fun isent : Z * list (string * string) => lower_tagged lower isent.2)
                   (filter P (enumerate tagged_sents)))) as Hsub.
  { intros P HP. apply Forall_forall. intros sent Hs.
    apply list_elem_of_fmap in Hs as ([i s] & -> & Hin).
    apply list_elem_of_filter in Hin as [_ Hin]. cbn [snd].
    assert (s ∈ tagged_sents) as Hs.
    { rewrite <- (enumerate_from_snd 0 tagged_sents). by apply (list_elem_of_fmap_2 snd) in Hin. }
    apply (proj1 (Forall_forall _ _) Hsents) in Hs. unfold lower_tagged. by destruct s. }
  split; [apply Hsub|]. split; [apply Hsub|].
  intros Hnil. pose proof (test_indices_count tagged_sents) as Hc.
  unfold gold, test_set in Hnil. apply (f_equal length) in Hnil.
  rewrite length_map in Hnil. rewrite Hnil in Hc. cbn [length] in Hc.
  Z.div_mod_to_equations. lia.
Qed.

Lemma notebook_inputs :
  input = map (map fst) gold /\
  Forall (fun ex => ex <> []) input /\ input <> [] /\
  Forall (fun ex => ex <> []) (train_input lower (map (map fst) tagged_sents)).
Proof.
  destruct (split_words lower tagged_sents) as [Htest Htrain].
  destruct notebook_sets_nonempty as (Hte & Htr & Hne).
  assert (forall data : list (list (string * string)),
            Forall (fun sent => sent <> []) data ->
            Forall (fun ex : list string => ex <> []) (map (map fst) data)) as Hmap.
  { intros data Hall. apply Forall_forall. intros ex Hex.
    apply list_elem_of_fmap in Hex as (sent & -> & Hs).
    apply (proj1 (Forall_forall _ _) Hall) in Hs. by destruct sent. }
  split; [done|]. unfold input. rewrite Htest, Htrain.
  split; [by apply Hmap|]. split; [|by apply Hmap].
  fold gold. by destruct gold.
Qed.

Lemma notebook_seed :
  exists h : HMM xreal,
    train (HMM_init (vocab list_set corpus gold) (tags list_set mini)) mini = Ok h.
Proof.
  destruct notebook_sets_nonempty as (_ & Htr & _).
  set (h0 := HMM_init (vocab list_set corpus gold) (tags list_set mini) : HMM xreal).
  destruct (train_counts h0 mini) as [_ ->]; [apply HMM_init_wf | | | by eexists].
  - unfold mini, mini_train_set. fold corpus in Htr.
    destruct (first_sentence tagged_sents Hnine Hsents) as (s0 & rest & Hts & Hs0).
    assert (exists y r, corpus = y :: r /\ y <> []) as (y & r & Hy & Hyne).
    { unfold corpus, train_set, enumerate. rewrite Hts. cbn [enumerate_from].
      rewrite filter_cons. cbn [fst]. rewrite decide_True by done.
      cbn [map snd]. eexists _, _. split; [done|].
      unfold lower_tagged. by destruct s0. }
    rewrite Hy. unfold enumerate. cbn [enumerate_from]. rewrite filter_cons.
    cbn [fst]. rewrite decide_True by done. cbn [map snd].
    destruct y as [|wt sent]; [done|]. by eauto.
  - apply Forall_forall. intros sent Hs. apply Forall_forall. intros wt Hwt.
    cbn [h0 HMM_init states]. unfold tags. apply list_set_spec. unfold tags_of.
    apply list_elem_of_In, in_concat. exists (map snd sent).
    split; apply list_elem_of_In.
    + by apply (list_elem_of_fmap_2 (map snd)).
    + by apply (list_elem_of_fmap_2 snd).
Qed.

Lemma notebook_words_known (h : HMM xreal) :
  train (HMM_init (vocab list_set corpus gold) (tags list_set mini)) mini = Ok h ->
  map (map (shown h)) input = input.
Proof.
  intros Hh. destruct notebook_inputs as (Hin & _).
  destruct (train_frame _ _ _ Hh) as (He & _). cbn [HMM_init emissions] in He.
  rewrite <- (map_id input) at 2. apply map_ext_in. intros ex Hex. cbn [id].
  apply shown_known. apply Forall_forall. intros w Hw.
  rewrite He. apply elem_of_app. left. unfold vocab. apply list_set_spec.
  apply list_elem_of_In, in_concat. exists ex. split; [|by apply list_elem_of_In].
  rewrite map_app. apply in_or_app. right. by rewrite <- Hin.
Qed.

End Notebook.

(** X14. The cell of the supervised baseline runs through.  For a corpus
    of at least nine sentences, none of them empty, whose untagged
    sentences are the words of its tagged sentences, and with
    [list(set(l))] listing exactly the elements of [l]: training on the
    sampled sentences returns a model, the greedy decoder and the
    vectorized Viterbi decoder tag every test sentence and give back its
    words unchanged (no word of the test input is unknown to the model),
    and the two accuracies against [test_set] are real numbers between 0
    and 100. *)
Theorem notebook_baseline_runs (lower : string -> string)
  (list_set : list string -> list string) (tagged_sents : list (list (string * string))) :
  (forall l x, x ∈ list_set l <-> x ∈ l) ->
  Forall (fun sent => sent <> []) tagged_sents ->
  (9 <= length tagged_sents)%nat ->
  let gold := test_set lower tagged_sents in
  let corpus := train_set lower tagged_sents in
  let mini := mini_train_set corpus in
  let input := test_input lower (map (map fst) tagged_sents) in
  exists preds_greedy preds_viterbi (a_greedy a_viterbi : R),
    baseline (vocab list_set corpus gold) (tags list_set mini) mini input =
      Ok (preds_greedy, preds_viterbi) /\
    map (map fst) preds_greedy = input /\
    map (map fst) preds_viterbi = input /\
    accuracy preds_greedy gold = Ok (Fin a_greedy) /\
    accuracy preds_viterbi gold = Ok (Fin a_viterbi) /\
    (0 <= a_greedy <= 100)%R /\ (0 <= a_viterbi <= 100)%R.
Proof.
  intros Hset Hsents Hnine gold corpus mini input.
  destruct (notebook_seed lower list_set Hset tagged_sents Hsents Hnine) as [h Hh].
  destruct (notebook_inputs lower tagged_sents Hsents Hnine) as (Hin & Hall & Hne & _).
  destruct (notebook_sets_nonempty lower tagged_sents Hsents Hnine) as (Hgold & _ & Hgne).
  fold gold corpus mini input in Hh, Hin, Hall, Hne, Hgold, Hgne.
  assert (trained h) as Htr by (by eexists _, _, _).
  destruct (baseline_predictions h input Htr Hall) as (preds & Hm & Hw1 & Hw2).
  pose proof (words_lengths _ _ _ Hw1) as Hl1. pose proof (words_lengths _ _ _ Hw2) as Hl2.
  pose proof (notebook_words_known lower list_set Hset tagged_sents Hsents Hnine h Hh)
    as Hknown.
  fold input in Hknown. rewrite Hknown in Hw1, Hw2.
  assert (map length input = map length gold) as Hlen.
  { rewrite Hin, map_map. apply map_ext. intros sent. by rewrite length_map. }
  destruct (accuracy_of_predictions (map fst preds) gold) as (ag & Hag & Hrg);
    [congruence | done | done |].
  destruct (accuracy_of_predictions (map snd preds) gold) as (av & Hav & Hrv);
    [congruence | done | done |].
  exists (map fst preds), (map snd preds), ag, av.
  unfold baseline. rewrite Hh. cbn [bind]. rewrite Hm. cbn [bind]. done.
Qed.

Lemma notebook_baseline_runs_witness :
  let tagged_sents :=
    [[("The", "DET"); ("dog", "NOUN")]; [("It", "PRON"); ("barks", "VERB")];
     [("a", "DET")]; [("b", "NOUN")]; [("c", "VERB")]; [("d", "DET")];
     [("e", "NOUN")]; [("f", "VERB")]; [("the", "DET"); ("cat", "NOUN")]] in
  let gold := test_set (fun w => w) tagged_sents in
  let corpus := train_set (fun w => w) tagged_sents in
  let mini := mini_train_set corpus in
  let input := test_input (fun w => w) (map (map fst) tagged_sents) in
  exists preds_greedy preds_viterbi (a_greedy a_viterbi : R),
    baseline (vocab remove_dups corpus gold) (tags remove_dups mini) mini input =
      Ok (preds_greedy, preds_viterbi) /\
    map (map fst) preds_greedy = input /\
    map (map fst) preds_viterbi = input /\
    accuracy preds_greedy gold = Ok (Fin a_greedy) /\
    accuracy preds_viterbi gold = Ok (Fin a_viterbi) /\
    (0 <= a_greedy <= 100)%R /\ (0 <= a_viterbi <= 100)%R.
Proof.
  intros tagged_sents.
  apply (notebook_baseline_runs (fun w => w) remove_dups tagged_sents).
  - intros l x. apply elem_of_remove_dups.
  - repeat constructor; discriminate.
  - simpl. lia.
Defined.

(** X15. Hard EM and the last cell on the same data.  Under the
    conditions of X14 the hard-EM cell does not raise: the loop stops
    with a model or uses up its iterations; and for the model it stops
    with, the last cell tags every test sentence and its accuracy
    against [test_set] is a real number between 0 and 100. *)
Theorem notebook_hard_em_runs (lower : string -> string)
  (list_set : list string -> list string) (tagged_sents : list (list (string * string)))
  (fuel : nat) :
  (forall l x, x ∈ list_set l <-> x ∈ l) ->
  Forall (fun sent => sent <> []) tagged_sents ->
  (9 <= length tagged_sents)%nat ->
  let gold := test_set lower tagged_sents in
  let corpus := train_set lower tagged_sents in
  let mini := mini_train_set corpus in
  let input := test_input lower (map (map fst) tagged_sents) in
  let run := hard_em (num := xreal) list_set (vocab list_set corpus gold)
               (train_input lower (map (map fst) tagged_sents)) input fuel
               (tags list_set mini) mini in
  run = Raise OutOfFuel \/
  exists st preds (a : R),
    run = Ok st /\
    final_predictions (em_hmm st) input = Ok preds /\
    accuracy preds gold = Ok (Fin a) /\
    (0 <= a <= 100)%R.
Proof.
  intros Hset Hsents Hnine gold corpus mini input run.
  destruct (notebook_seed lower list_set Hset tagged_sents Hsents Hnine) as [h Hh].
  destruct (notebook_inputs lower tagged_sents Hsents Hnine) as (Hin & Hall & Hne & Htin).
  destruct (notebook_sets_nonempty lower tagged_sents Hsents Hnine) as (Hgold & _ & Hgne).
  fold gold corpus mini input in Hh, Hin, Hall, Hne, Hgold, Hgne.
  assert (trained h) as Htr by (by eexists _, _, _).
  set (st0 := {| em_hmm := h; old_perplexity := inf; delta := inf; em_log := [] |}).
  assert (run = em_loop list_set (vocab list_set corpus gold)
                  (train_input lower (map (map fst) tagged_sents)) input fuel st0) as Hrun.
  { unfold run, hard_em. by rewrite Hh. }
  rewrite Hrun.
  destruct (em_loop_never_raises list_set (vocab list_set corpus gold)
              (train_input lower (map (map fst) tagged_sents)) input Hset fuel st0
              Htr Htin Hall Hne) as [[st Hst]|Hout]; [|by left].
  right.
  destruct (em_loop_tags list_set (vocab list_set corpus gold)
              (train_input lower (map (map fst) tagged_sents)) input Hset fuel st0 st Hst Htr)
    as (Htr' & _ & _).
  { cbn [st0 em_hmm]. by destruct (train_frame _ _ _ Hh) as (-> & _). }
  destruct (final_predictions_lengths (em_hmm st) input Htr' Hall) as (preds & Hp & Hl).
  assert (map length input = map length gold) as Hlen.
  { rewrite Hin, map_map. apply map_ext. intros sent. by rewrite length_map. }
  destruct (accuracy_of_predictions preds gold) as (a & Ha & Hr);
    [congruence | done | done |].
  by exists st, preds, a.
Qed.

Lemma notebook_hard_em_runs_witness :
  let tagged_sents :=
    [[("The", "DET"); ("dog", "NOUN")]; [("It", "PRON"); ("barks", "VERB")];
     [("a", "DET")]; [("b", "NOUN")]; [("c", "VERB")]; [("d", "DET")];
     [("e", "NOUN")]; [("f", "VERB")]; [("the", "DET"); ("cat", "NOUN")]] in
  let gold := test_set (fun w => w) tagged_sents in
  let corpus := train_set (fun w => w) tagged_sents in
  let mini := mini_train_set corpus in
  let input := test_input (fun w => w) (map (map fst) tagged_sents) in
  let run := hard_em (num := xreal) remove_dups (vocab remove_dups corpus gold)
               (train_input (fun w => w) (map (map fst) tagged_sents)) input 5
               (tags remove_dups mini) mini in
  run = Raise OutOfFuel \/
  exists st preds (a : R),
    run = Ok st /\
    final_predictions (em_hmm st) input = Ok preds /\
    accuracy preds gold = Ok (Fin a) /\
    (0 <= a <= 100)%R.
Proof.
  intros tagged_sents.
  apply (notebook_hard_em_runs (fun w => w) remove_dups tagged_sents 5).
  - intros l x. apply elem_of_remove_dups.
  - repeat constructor; discriminate.
  - simpl. lia.
Defined.

Lemma index_of_snoc_lookup (l : list string) (x w : string) :
  index_of (l ++ [x]) !! w =
  if decide (w = x) then Some (Z.of_nat (length l)) else index_of l !! w.
Proof.
  rewrite !index_of_unfold, enumerate_from_app, fold_left_app. cbn [enumerate_from fold_left].
  unfold put at 1. cbn [fst snd]. case_decide as Hw.
  - subst. rewrite lookup_insert_eq. f_equal; lia.
  - by rewrite lookup_insert_ne.
Qed.

Lemma index_of_last (l : list string) (w : string) (k : Z) :
  index_of l !! w = Some k <->
  0 <= k /\ l !! Z.to_nat k = Some w /\ w ∉ drop (S (Z.to_nat k)) l.
Proof.
  revert k. induction l as [|x l IH] using rev_ind; intros k.
  - unfold index_of. cbn [enumerate enumerate_from fold_left]. rewrite lookup_empty.
    split; [done|]. intros (_ & Hl & _). done.
  - rewrite index_of_snoc_lookup. case_decide as Hw.
    + subst x. split.
      * intros [= <-]. rewrite Nat2Z.id. split; [lia|]. split.
        -- by rewrite lookup_app_r, Nat.sub_diag by lia.
        -- rewrite drop_ge by (rewrite length_app; simpl; lia). apply not_elem_of_nil.
      * intros (Hk & Hl & Hlast). f_equal.
        destruct (decide (Z.to_nat k < length l)%nat) as [Hlt|Hge].
        -- exfalso. apply Hlast. rewrite drop_app_le by lia.
           apply elem_of_app. right. by left.
        -- apply lookup_lt_Some in Hl. rewrite length_app in Hl. simpl in Hl. lia.
    + rewrite IH. split.
      * intros (Hk & Hl & Hlast). pose proof (lookup_lt_Some _ _ _ Hl) as Hlt.
        split; [done|]. split; [by rewrite lookup_app_l|].
        rewrite drop_app_le by lia. intros Hin. apply elem_of_app in Hin as [Hin|Hin]; [done|].
        by apply list_elem_of_singleton in Hin.
      * intros (Hk & Hl & Hlast).
        assert (Z.to_nat k < length l)%nat as Hlt.
        { pose proof (lookup_lt_Some _ _ _ Hl) as Hlt. rewrite length_app in Hlt.
          simpl in Hlt. destruct (decide (Z.to_nat k = length l)) as [Heq|?]; [|lia].
          rewrite Heq, lookup_app_r, Nat.sub_diag in Hl by lia. by injection Hl as ->. }
        split; [done|]. split; [by rewrite lookup_app_l in Hl|].
        rewrite drop_app_le in Hlast by lia. intros Hin. apply Hlast.
        apply elem_of_app. by left.
Qed.

(** X16. The two registries of a new model send a string to the last
    position at which it occurs: [w2i[w] = k] exactly when [w] is at
    position [k] of [emissions] and nowhere after it, and the same for
    [s2i] and [states].  So with a word listed twice, or with the unknown
    symbol already in the vocabulary, the earlier position is never the
    number of a word. *)
Theorem registry_last_occurrence {num : Type} `{Numeric num} (words tags : list string)
  (x : string) (k : Z) :
  let h : HMM num := HMM_init words tags in
  (w2i h !! x = Some k <->
   0 <= k /\ emissions h !! Z.to_nat k = Some x /\ x ∉ drop (S (Z.to_nat k)) (emissions h)) /\
  (s2i h !! x = Some k <->
   0 <= k /\ states h !! Z.to_nat k = Some x /\ x ∉ drop (S (Z.to_nat k)) (states h)).
Proof.
  intros h. split; cbn [h HMM_init w2i s2i emissions states]; apply index_of_last.
Qed.

(** ** The sample of annotated sentences *)

Lemma mod_add_small (i j q : Z) :
  0 < q -> 0 <= j -> i mod q + j < q -> (i + j) mod q = i mod q + j.
Proof.
  intros Hq Hj Hlt. symmetry. apply Z.mod_unique_pos with (q := i / q).
  - pose proof (Z.mod_pos_bound i q Hq). lia.
  - pose proof (Z.div_mod i q ltac:(lia)). lia.
Qed.

Section Sampling.
Context {A : Type}.

(** Inside a block that starts right after a sampled position and ends
    before the next one, nothing is sampled. *)
Lemma sample_gap (l : list A) (i q : Z) :
  0 < q -> 0 < i mod q -> i mod q + Z.of_nat (length l) <= q ->
  filter (fun ix : Z * A => ix.1 mod q = 0) (enumerate_from i l) = [].
Proof.
  intros Hq. revert i. induction l as [|x l IH]; intros i Hi Hl; [done|].
  cbn [enumerate_from length] in *. rewrite filter_cons. cbn [fst].
  destruct (decide (i mod q = 0)) as [Hz|_]; [lia|].
  destruct l as [|y l]; [done|]. cbn [length] in Hl.
  apply IH; rewrite mod_add_small by lia; cbn [length]; lia.
Qed.

Lemma sample_lookup (q : nat) (k : nat) (l : list A) (i : Z) :
  (0 < q)%nat -> i mod Z.of_nat q = 0 ->
  map snd (filter (fun ix : Z * A => ix.1 mod Z.of_nat q = 0) (enumerate_from i l)) !! k =
  l !! (q * k)%nat.
Proof.
  intros Hq. revert l i. induction k as [|k IH]; intros l i Hi.
  - rewrite Nat.mul_0_r. destruct l as [|x l]; [done|].
    cbn [enumerate_from]. rewrite filter_cons. cbn [fst].
    by destruct (decide (i mod Z.of_nat q = 0)).
  - destruct l as [|x l]; [by rewrite lookup_nil|].
    cbn [enumerate_from]. rewrite filter_cons. cbn [fst].
    destruct (decide (i mod Z.of_nat q = 0)) as [_|?]; [|done].
    cbn [map snd].
    replace (q * S k)%nat with (S ((q - 1) + q * k)) by lia.
    rewrite !lookup_cons.
    rewrite <- (lookup_drop l (q - 1) (q * k)).
    replace (enumerate_from (i + 1) l)
      with (enumerate_from (i + 1) (take (q - 1) l ++ drop (q - 1) l))
      by (by rewrite take_drop).
    rewrite enumerate_from_app, filter_app, map_app.
    destruct (decide (q - 1 <= length l)%nat) as [Hlen|Hlen].
    + assert (i mod Z.of_nat q + 1 < Z.of_nat q \/ q = 1%nat) as [Hsmall | ->] by lia.
      * rewrite sample_gap; [| lia | |]; rewrite ?mod_add_small by lia;
          rewrite ?length_take, ?Nat.min_l by lia; try lia.
        cbn [map app]. apply IH.
        replace (i + 1 + Z.of_nat (q - 1)) with (i + Z.of_nat q) by lia.
        rewrite <- (Z.mul_1_l (Z.of_nat q)) at 1. by rewrite Z.mod_add by lia.
      * change (1 - 1)%nat with 0%nat. rewrite take_0, drop_0.
        cbn [enumerate_from length]. rewrite filter_nil.
        cbn [map app]. apply IH. apply Z.mod_1_r.
    + rewrite drop_ge by lia. rewrite lookup_nil.
      rewrite take_ge by lia. rewrite app_nil_r.
      destruct l as [|y l]; [done|]. cbn [length] in Hlen.
      rewrite sample_gap; [done | lia | |]; rewrite mod_add_small by lia; cbn [length]; lia.
Qed.

End Sampling.

(** X17. The small annotated training set is every 5000th sentence of
    the training set, starting with the first one: its sentence number
    [k] is sentence number [5000 * k] of [train_set], and it has
    [ceil(n / 5000)] sentences when [train_set] has [n]. *)
Theorem mini_train_set_sample (train_set : list (list (string * string))) :
  (forall k, mini_train_set train_set !! k = train_set !! (5000 * k)%nat) /\
  Z.of_nat (length (mini_train_set train_set)) =
    (Z.of_nat (length train_set) + 4999) / 5000.
Proof.
  assert (forall k, mini_train_set train_set !! k = train_set !! (5000 * k)%nat) as Hlk.
  { intros k. unfold mini_train_set, INV_TRAIN_SAMPLING_RATE, enumerate.
    change 5000 with (Z.of_nat 5000). by apply (sample_lookup 5000); [lia|]. }
  split; [done|].
  set (m := length (mini_train_set train_set)). set (n := length train_set).
  assert (n <= 5000 * m)%nat as Hup.
  { pose proof (Hlk m) as Hm. rewrite (lookup_ge_None_2 _ m) in Hm by (unfold m; lia).
    symmetry in Hm. by apply lookup_ge_None_1 in Hm. }
  assert (m = 0%nat \/ 5000 * (m - 1) < n)%nat as Hlow.
  { destruct m as [|m'] eqn:Hm; [by left|right].
    destruct (lookup_lt_is_Some_2 (mini_train_set train_set) m') as [x Hx];
      [fold m; lia|].
    rewrite Hlk in Hx. apply lookup_lt_Some in Hx. fold n in Hx. lia. }
  Z.div_mod_to_equations. lia.
Qed.

(** ** A fixed point of hard EM *)

Lemma decoded_perplexity_finite (h : HMM xreal) (input : list (list string)) preds p :
  trained h ->
  mapM (viterbi_decode h) input = Ok preds ->
  get_perplexity preds = Ok p ->
  finite p.
Proof.
  intros Htr Hm Hp.
  destruct (decode_all_outcome h input Htr) as [[_ Hraise]|(Hall & _)];
    [by rewrite Hraise in Hm|].
  destruct (decode_all_results h input Htr Hall) as (data & Hm' & Hd).
  rewrite Hm in Hm'. injection Hm' as ->.
  assert (Forall (fun d : list (string * string) * R => (1 <= length d.1)%nat) data) as Hlen.
  { clear Hm Hp. induction Hd as [|ex d input data [Hl _] _ IH]; [constructor|].
    apply Forall_cons in Hall as [Hex Hall]. constructor; [|by apply IH].
    rewrite Hl. destruct ex; [done | simpl; lia]. }
  destruct data as [|d data].
  - by cbn in Hp.
  - rewrite get_perplexity_value in Hp; [|simpl; lia | done].
    injection Hp as <-. by eexists.
Qed.

(** X18. Hard EM stops at a fixed point.  If an iteration on a trained
    model gives back the same model, the loop is over after at most one
    more iteration: either its delta was already not above the threshold,
    or the next iteration finds the same perplexity, a delta of exactly
    0, and the same model again. *)
Theorem em_fixed_point_stops (list_set : list string -> list string)
  (vocab : list string) (train_input test_input : list (list string))
  (st st1 : @em_state xreal) :
  trained (em_hmm st) ->
  em_body list_set vocab train_input test_input st = Ok st1 ->
  em_hmm st1 = em_hmm st ->
  exists st2,
    em_loop list_set vocab train_input test_input 1 st1 = Ok st2 /\
    em_hmm st2 = em_hmm st /\
    (ltb PERPLEXITY_TH (delta st1) = true ->
     delta st2 = Fin 0 /\ old_perplexity st2 = old_perplexity st1).
Proof.
  intros Htr Hb Hsame. cbn [em_loop].
  destruct (ltb PERPLEXITY_TH (delta st1)) eqn:Hd; [|by exists st1].
  unfold em_body in Hb |- *. rewrite Hsame.
  inv_bind Hb as ptrain Hm1. inv_bind Hb as ptest Hm2. inv_bind Hb as p Hp.
  inv_bind Hb as hmm Hhmm. injection Hb as <-. cbn [em_hmm] in Hsame. subst hmm.
  rewrite Hm1, Hm2. cbn [bind]. rewrite Hp. cbn [bind]. rewrite Hhmm.
  cbn [bind old_perplexity em_log delta].
  destruct (decoded_perplexity_finite _ _ _ _ Htr Hm2 Hp) as [r ->].
  assert (sub (Fin r) (Fin r) = Fin 0%R) as Hzero by (simpl; f_equal; lra).
  rewrite Hzero, delta_zero_not_above. eexists. split; [done|]. by cbn.
Qed.

Lemma em_fixed_point_stops_witness :
  exists (h : HMM xreal) (st1 : @em_state xreal),
    train (HMM_init ["a"] ["T"]) [[("a", "T")]; [("a", "T")]] = Ok h /\
    let st := {| em_hmm := h; old_perplexity := inf; delta := inf; em_log := [] |} in
    em_body remove_dups ["a"] [["a"]] [["a"]] st = Ok st1 /\
    exists st2,
      em_loop remove_dups ["a"] [["a"]] [["a"]] 1 st1 = Ok st2 /\
      em_hmm st2 = em_hmm st /\
      (ltb PERPLEXITY_TH (delta st1) = true ->
       delta st2 = Fin 0 /\ old_perplexity st2 = old_perplexity st1).
Proof.
  assert (exists h : HMM xreal,
            train (HMM_init ["a"] ["T"]) [[("a", "T")]; [("a", "T")]] = Ok h)
    as [h Ht] by (eexists; vm_compute; reflexivity).
  destruct (em_body_one_tag h Ht) as [p Hbody].
  exists h. eexists. split; [exact Ht|]. cbn zeta. split; [apply Hbody|].
  eapply em_fixed_point_stops.
  - cbn [em_hmm]. by exists ["a"], ["T"], [[("a", "T")]; [("a", "T")]].
  - apply Hbody.
  - reflexivity.
Defined.
